(** * AresDB broker: query compilation (QueryContext) *)

(** A shallow embedding of the broker's query compiler: the per-node
    rewriter [QueryContext.Rewrite], the IN expansion, the filter
    normaliser, the measure and dimension stages and the dimension layout
    planner, followed by the properties established about them. *)

From Stdlib Require Import ZArith Lia Ascii String DecimalString.
From stdpp Require Import gmap strings list fin_maps sorting.

Set Warnings "-register-all".
Local Open Scope Z_scope.

(** ** Storage level data types and schemas (package memCom / metaCom) *)

Module memCom.

(** Modelled from the spec: the declaration of the storage data types is
    not part of the sources at hand; the constructors are the data types
    the data model lists.  [Unknown] is the zero value a [VarRef] carries
    before binding. *)
Inductive DataType : Type :=
| Unknown | Bool | Int8 | Uint8 | Int16 | Uint16 | Int32 | Uint32 | Int64
| Float32 | UUID | GeoPoint | GeoShape
| ArrayOf (elem : DataType).

#[global] Instance DataType_eq_dec : EqDecision DataType.
Proof. solve_decision. Defined.

(** Modelled from the spec: [IsArrayType] is absent from the sources; an
    array-typed column is one whose data type is [ArrayOf T]. *)
Definition IsArrayType (t : DataType) : bool :=
  match t with ArrayOf _ => true | _ => false end.

(** A column of a table ([HLLConfig.IsHLLColumn] is flattened). *)
Record Column : Type := mkColumn {
  Name : string;
  Type_ : DataType;
  Deleted : bool;
  IsHLLColumn : bool
}.

(** The value of [EnumDicts[name]]; a [nil] Go map is [None]. *)
Record EnumDict : Type := mkEnumDict {
  Dict : option (gmap string Z);
  ReverseDict : list string
}.

(** The zero value a Go map lookup gives for a missing key. *)
Definition zeroEnumDict : EnumDict := mkEnumDict None [].

(** [TableSchema], with [Schema.Name] and [Schema.Columns] flattened. *)
Record TableSchema : Type := mkTableSchema {
  SchemaName : string;
  Columns : list Column;
  ColumnIDs : gmap string Z;
  ValueTypeByColumn : list DataType;
  EnumDicts : gmap string EnumDict
}.

End memCom.

(** ** Expression trees (package expr) *)

Module expr.

(** Modelled from the spec: the type lattice of the expr package, which is
    not part of the sources at hand.  [UnknownType] is the type of an
    unresolved node, hence the value of an [ExprType] slot nobody filled. *)
Inductive Type_ : Type :=
| UnknownType | Boolean | Unsigned | Signed | Float | GeoPoint | GeoShape | UUID.

#[global] Instance Type_eq_dec : EqDecision Type_.
Proof. solve_decision. Defined.

(** Modelled from the spec: the numeric value behind a type, on which the
    rewriter's [<] and [>] work: Boolean < Unsigned < Signed < Float, the
    unresolved type below them and the leaf types above. *)
Definition Type_code (t : Type_) : Z :=
  match t with
  | UnknownType => 0 | Boolean => 1 | Unsigned => 2 | Signed => 3
  | Float => 4 | GeoPoint => 5 | GeoShape => 6 | UUID => 7
  end.

(** Modelled from the spec: the operator tokens of the expr package; the
    unary operators, then the binary operators, as the data model lists
    them. *)
Inductive Token : Type :=
| NOT | EXCLAMATION | IS_TRUE | IS_FALSE | IS_NULL | IS_NOT_NULL
| UNARY_MINUS | BITWISE_NOT
| GET_MONTH_START | GET_QUARTER_START | GET_YEAR_START | GET_WEEK_START
| GET_DAY_OF_MONTH | GET_DAY_OF_YEAR | GET_MONTH_OF_YEAR
| GET_QUARTER_OF_YEAR | GET_HLL_VALUE
| ADD | SUB | MUL | DIV | MOD
| BITWISE_AND | BITWISE_OR | BITWISE_XOR
| BITWISE_LEFT_SHIFT | BITWISE_RIGHT_SHIFT
| AND | OR | LT | LTE | GT | GTE | EQ | NEQ | IN | NOT_IN
| FLOOR | CONVERT_TZ.

#[global] Instance Token_eq_dec : EqDecision Token.
Proof. solve_decision. Defined.

(** Modelled from the spec: the integer behind a token (Go's [iota]), in
    the order of the listing above; the rewriter compares tokens with
    [>=] and [<=] to recognise the range ADD..BITWISE_LEFT_SHIFT. *)
Definition Token_code (t : Token) : Z :=
  match t with
  | NOT => 0 | EXCLAMATION => 1 | IS_TRUE => 2 | IS_FALSE => 3
  | IS_NULL => 4 | IS_NOT_NULL => 5 | UNARY_MINUS => 6 | BITWISE_NOT => 7
  | GET_MONTH_START => 8 | GET_QUARTER_START => 9 | GET_YEAR_START => 10
  | GET_WEEK_START => 11 | GET_DAY_OF_MONTH => 12 | GET_DAY_OF_YEAR => 13
  | GET_MONTH_OF_YEAR => 14 | GET_QUARTER_OF_YEAR => 15
  | GET_HLL_VALUE => 16
  | ADD => 17 | SUB => 18 | MUL => 19 | DIV => 20 | MOD => 21
  | BITWISE_AND => 22 | BITWISE_OR => 23 | BITWISE_XOR => 24
  | BITWISE_LEFT_SHIFT => 25 | BITWISE_RIGHT_SHIFT => 26
  | AND => 27 | OR => 28 | LT => 29 | LTE => 30 | GT => 31 | GTE => 32
  | EQ => 33 | NEQ => 34 | IN => 35 | NOT_IN => 36
  | FLOOR => 37 | CONVERT_TZ => 38
  end.

(** The fields of a VarRef. *)
Record VarRef : Type := mkVarRef {
  Val : string;
  ExprType : Type_;
  TableID : Z;
  ColumnID : Z;
  EnumDict : option (gmap string Z);
  EnumReverseDict : list string;
  DataType : memCom.DataType;
  IsHLLColumn : bool
}.

(** [&expr.VarRef{Val: name}]: every other field at its zero value. *)
Definition newVarRef (name : string) : VarRef :=
  mkVarRef name UnknownType 0 0 None [] memCom.Unknown false.

(** The variants of the [Expr] interface.  [Nil] is the nil interface
    value.  A geo point literal carries its two coordinates opaquely. *)
Inductive Expr : Type :=
| Nil
| NumberLiteral (Int : Z) (text : string) (ty : Type_)
| StringLiteral (val : string)
| BooleanLiteral (val : bool)
| GeopointLiteral (val : Z * Z)
| VarRefE (v : VarRef)
| UnaryExpr (Op : Token) (e : Expr) (ty : Type_)
| BinaryExpr (Op : Token) (LHS RHS : Expr) (ty : Type_)
| Call (Name : string) (Args : list Expr) (ty : Type_)
| Case (WhenThens : list (Expr * Expr)) (Else : Expr) (ty : Type_)
| ParenExpr (e : Expr) (ty : Type_)
| Wildcard.

(** Modelled from the spec: the [Type()] method.  A node with an
    [ExprType] slot answers the slot; a boolean literal is Boolean, a geo
    point literal GeoPoint; a string literal is untyped text and a
    wildcard is never resolved.  (On [Nil] the method call panics; the
    rewriter guards that case before it asks.) *)
Definition typeOf (e : Expr) : Type_ :=
  match e with
  | Nil => UnknownType
  | NumberLiteral _ _ t => t
  | StringLiteral _ => UnknownType
  | BooleanLiteral _ => Boolean
  | GeopointLiteral _ => GeoPoint
  | VarRefE v => ExprType v
  | UnaryExpr _ _ t => t
  | BinaryExpr _ _ _ t => t
  | Call _ _ t => t
  | Case _ _ t => t
  | ParenExpr _ t => t
  | Wildcard => UnknownType
  end.

(** Modelled from the spec: [IsUUIDColumn], a reference to a UUID column. *)
Definition IsUUIDColumn (e : Expr) : bool :=
  match e with
  | VarRefE v => bool_decide (DataType v = memCom.UUID)
  | _ => false
  end.

(** Modelled from the spec: the names of the functions the rewriter
    dispatches on. *)
Definition ConvertTzCallName : string := "convert_tz".
Definition CountCallName : string := "count".
Definition DayOfWeekCallName : string := "dayofweek".
Definition FromUnixTimeCallName : string := "from_unixtime".
Definition HourCallName : string := "hour".
Definition ListCallName : string := "list".
Definition GeographyIntersectsCallName : string := "geography_intersects".
Definition HexCallName : string := "hex".
Definition CountDistinctHllCallName : string := "countdistincthll".
Definition HllCallName : string := "hll".
Definition SumCallName : string := "sum".
Definition MinCallName : string := "min".
Definition MaxCallName : string := "max".
Definition AvgCallName : string := "avg".
Definition LengthCallName : string := "length".
Definition ContainsCallName : string := "contains".
Definition ElementAtCallName : string := "element_at".

End expr.

(** ** The query object (package common) *)

Module common.

(** A join of the query. *)
Record Join : Type := mkJoin {
  JoinTable : string;
  Alias : string;
  Conditions : list string;
  ConditionsParsed : list expr.Expr
}.

(** A dimension: its text and its parsed expression. *)
Record Dimension : Type := mkDimension {
  DimExpr : string;
  DimExprParsed : expr.Expr
}.

(** A measure with its local filters. *)
Record Measure : Type := mkMeasure {
  Expr : string;
  ExprParsed : expr.Expr;
  Filters : list string;
  FiltersParsed : list expr.Expr
}.

(** Modelled from the spec: the configuration constants of the package. *)
Definition SecondsPerDay : Z := 86400.
Definition SecondsPerHour : Z := 3600.
Definition DaysPerWeek : Z := 7.
Definition WeekdayOffset : Z := 4.

(** The fields of [AQLQuery] the compiler reads or writes. *)
Record AQLQuery : Type := mkAQLQuery {
  Table : string;
  Joins : list Join;
  Dimensions : list Dimension;
  Measures : list Measure;
  QueryFilters : list string;
  QueryFiltersParsed : list expr.Expr;
  Limit : Z
}.

End common.

(** ** The query context (package broker) *)

Definition nonAggregationQueryLimit : Z := 1000.

(** The errors the compiler stores in [qc.Error], one constructor per
    message of the source (the formatted text is not kept). *)
Inductive Error : Type :=
| ErrUnknownMainTable | ErrUnknownJoinTable | ErrAliasRedefined
| ErrUnknownTableAlias | ErrUnknownColumn | ErrColumnDeleted
| ErrUUIDUnary | ErrOversizeNumericOp | ErrNotGeographyIntersects
| ErrUnsupportedUnary | ErrStringOnlyEqNeq | ErrGeoPointFromString
| ErrUnsupportedBinary
| ErrConvertTzArity | ErrConvertTzSecondArg | ErrConvertTzThirdArg
| ErrConvertTzTimezone | ErrDayOfWeekArity | ErrFromUnixtime | ErrHourArity
| ErrGeoIntersectsArity | ErrGeoIntersectsArg | ErrGeoIntersectsPair
| ErrHexArity | ErrHexArg | ErrCountDistinctHllArity | ErrCountDistinctHllArg
| ErrHllArity | ErrHllArg | ErrAggregateArity
| ErrArrayNoArgs | ErrArrayFirstArg | ErrArrayLengthArity
| ErrArrayContainsArity | ErrArrayElementAtArity | ErrArrayElementAtIndex
| ErrUnknownFunction
| ErrInLhsNotColumn | ErrInRhsNotList
| ErrParseJoin | ErrParseFilter | ErrParseMeasure | ErrParseMeasureFilter
| ErrParseDimension
| ErrOneMeasure | ErrAggregateExpected | ErrOneParameter | ErrHllExpected.

#[global] Instance Error_eq_dec : EqDecision Error.
Proof. solve_decision. Defined.

(** [QueryContext].  [Writer], [RequestID] and [TableSchemaByName] (which
    only serves the release of the schema locks) are left out; an entry of
    [Tables] is [None] while its pointer is nil. *)
Record QueryContext : Type := mkQueryContext {
  AQLQuery : common.AQLQuery;
  IsNonAggregationQuery : bool;
  ReturnHLLBinary : bool;
  Error_ : option Error;
  Tables : list (option memCom.TableSchema);
  TableIDByAlias : gmap string Z;
  NumDimsPerDimWidth : list Z;
  DimensionEnumReverseDicts : gmap Z (list string);
  DimensionVectorIndex : list Z;
  DimRowBytes : Z
}.

(** Field updates of the context and of the query. *)
Definition withError (err : option Error) (qc : QueryContext) : QueryContext :=
  mkQueryContext (AQLQuery qc) (IsNonAggregationQuery qc) (ReturnHLLBinary qc)
    err (Tables qc) (TableIDByAlias qc) (NumDimsPerDimWidth qc)
    (DimensionEnumReverseDicts qc) (DimensionVectorIndex qc) (DimRowBytes qc).

Definition withAQLQuery (q : common.AQLQuery) (qc : QueryContext) : QueryContext :=
  mkQueryContext q (IsNonAggregationQuery qc) (ReturnHLLBinary qc)
    (Error_ qc) (Tables qc) (TableIDByAlias qc) (NumDimsPerDimWidth qc)
    (DimensionEnumReverseDicts qc) (DimensionVectorIndex qc) (DimRowBytes qc).

Definition withIsNonAggregationQuery (b : bool) (qc : QueryContext) : QueryContext :=
  mkQueryContext (AQLQuery qc) b (ReturnHLLBinary qc)
    (Error_ qc) (Tables qc) (TableIDByAlias qc) (NumDimsPerDimWidth qc)
    (DimensionEnumReverseDicts qc) (DimensionVectorIndex qc) (DimRowBytes qc).

Definition withDimensionEnumReverseDicts (m : gmap Z (list string))
    (qc : QueryContext) : QueryContext :=
  mkQueryContext (AQLQuery qc) (IsNonAggregationQuery qc) (ReturnHLLBinary qc)
    (Error_ qc) (Tables qc) (TableIDByAlias qc) (NumDimsPerDimWidth qc)
    m (DimensionVectorIndex qc) (DimRowBytes qc).

Definition withDimensionVectorIndex (l : list Z) (qc : QueryContext) : QueryContext :=
  mkQueryContext (AQLQuery qc) (IsNonAggregationQuery qc) (ReturnHLLBinary qc)
    (Error_ qc) (Tables qc) (TableIDByAlias qc) (NumDimsPerDimWidth qc)
    (DimensionEnumReverseDicts qc) l (DimRowBytes qc).

Definition withLayout (counts : list Z) (index : list Z) (rowBytes : Z)
    (qc : QueryContext) : QueryContext :=
  mkQueryContext (AQLQuery qc) (IsNonAggregationQuery qc) (ReturnHLLBinary qc)
    (Error_ qc) (Tables qc) (TableIDByAlias qc) counts
    (DimensionEnumReverseDicts qc) index rowBytes.

Definition withSchemas (tables : list (option memCom.TableSchema))
    (aliases : gmap string Z) (qc : QueryContext) : QueryContext :=
  mkQueryContext (AQLQuery qc) (IsNonAggregationQuery qc) (ReturnHLLBinary qc)
    (Error_ qc) tables aliases (NumDimsPerDimWidth qc)
    (DimensionEnumReverseDicts qc) (DimensionVectorIndex qc) (DimRowBytes qc).

Definition withJoins (js : list common.Join) (q : common.AQLQuery) : common.AQLQuery :=
  common.mkAQLQuery (common.Table q) js (common.Dimensions q) (common.Measures q)
    (common.QueryFilters q) (common.QueryFiltersParsed q) (common.Limit q).

Definition withDimensions (ds : list common.Dimension) (q : common.AQLQuery)
    : common.AQLQuery :=
  common.mkAQLQuery (common.Table q) (common.Joins q) ds (common.Measures q)
    (common.QueryFilters q) (common.QueryFiltersParsed q) (common.Limit q).

Definition withMeasures (ms : list common.Measure) (q : common.AQLQuery)
    : common.AQLQuery :=
  common.mkAQLQuery (common.Table q) (common.Joins q) (common.Dimensions q) ms
    (common.QueryFilters q) (common.QueryFiltersParsed q) (common.Limit q).

Definition withFiltersParsed (fs : list expr.Expr) (q : common.AQLQuery)
    : common.AQLQuery :=
  common.mkAQLQuery (common.Table q) (common.Joins q) (common.Dimensions q)
    (common.Measures q) (common.QueryFilters q) fs (common.Limit q).

Definition withLimit (n : Z) (q : common.AQLQuery) : common.AQLQuery :=
  common.mkAQLQuery (common.Table q) (common.Joins q) (common.Dimensions q)
    (common.Measures q) (common.QueryFilters q) (common.QueryFiltersParsed q) n.

(** ** Panics and the state of a compilation *)

(** What a piece of Go code ends in: a run-time panic, or a value. *)
Inductive Result (A : Type) : Type :=
| Panic
| Ok (a : A).
Arguments Panic {A}.
Arguments Ok {A} a.

(** Code of the compiler: it reads and writes the context, and may panic. *)
Definition M (A : Type) : Type := QueryContext -> Result (A * QueryContext).

Definition ret {A} (a : A) : M A := fun qc => Ok (a, qc).

Definition bind {A B} (m : M A) (k : A -> M B) : M B :=
  fun qc => match m qc with
            | Panic => Panic
            | Ok (a, qc') => k a qc'
            end.

Definition panic {A} : M A := fun _ => Panic.

Definition getContext : M QueryContext := fun qc => Ok (qc, qc).

Definition putContext (qc' : QueryContext) : M unit := fun _ => Ok (tt, qc').

(** [qc.Error = err] *)
Definition setError (err : Error) : M unit :=
  fun qc => Ok (tt, withError (Some err) qc).

Declare Scope go_scope.
Delimit Scope go_scope with go.
Notation "'do' x <- m ; k" := (bind m (fun x => k))
  (at level 10, x name, m at level 100, k at level 200) : go_scope.
Notation "'do' ' p <- m ; k" := (bind m (fun x => match x with p => k end))
  (at level 10, p pattern, m at level 100, k at level 200) : go_scope.
Local Open Scope go_scope.

(** [l[i]] for a Go [int] index: a panic when out of range. *)
Definition index {A} (l : list A) (i : Z) : M A :=
  if 0 <=? i
  then match l !! Z.to_nat i with
       | Some a => ret a
       | None => panic
       end
  else panic.

(** [e.Type()]: a method call on the nil interface panics. *)
Definition TypeOf (e : expr.Expr) : M expr.Type_ :=
  match e with
  | expr.Nil => panic
  | _ => ret (expr.typeOf e)
  end.

(** ** What the compiler uses but the sources at hand do not contain *)

(** The helpers of other packages that the compiler calls: they are taken
    as given.  [Cast] is [expr.Cast]; [ToLower] is [strings.ToLower];
    [ZoneOffsetNow s] is [common.ParseTimezone s] followed by the zone
    offset, in seconds, of [utils.Now()] in that zone, [None] when the zone
    does not parse; [GeoPointFromString] and [ParseExpr] answer [None] for
    their error. *)
Record Helpers : Type := mkHelpers {
  Cast : expr.Expr -> expr.Type_ -> expr.Expr;
  ToLower : string -> string;
  DataTypeBytes : memCom.DataType -> Z;
  DataTypeToExprType : memCom.DataType -> expr.Type_;
  GeoPointFromString : string -> option (Z * Z);
  ZoneOffsetNow : string -> option Z;
  GetDimensionDataBytes : expr.Expr -> Z;
  ParseExpr : string -> option expr.Expr
}.

(** [strconv.Itoa] *)
Definition Itoa (n : Z) : string := NilZero.string_of_int (Z.to_int n).

(** [strings.SplitN(s, ".", 2)] when [s] holds a dot: the text before the
    first dot and the text after it. *)
Fixpoint splitAtDot (s : string) : option (string * string) :=
  match s with
  | EmptyString => None
  | String c rest =>
      if Ascii.eqb c "."%char then Some (EmptyString, rest)
      else match splitAtDot rest with
           | Some (a, b) => Some (String c a, b)
           | None => None
           end
  end.

(** A loop over a slice that threads a value through the iterations. *)
Fixpoint foldM {A B} (f : B -> A -> M B) (l : list A) (b : B) : M B :=
  match l with
  | [] => ret b
  | a :: l' => do b' <- f b a; foldM f l' b'
  end.

(** The expression has one of the two geo types. *)
Definition geoTyped (e : expr.Expr) : bool :=
  bool_decide (expr.typeOf e = expr.GeoPoint)
  || bool_decide (expr.typeOf e = expr.GeoShape).

(** Modelled from the spec: the one cast that fails.  Casts never fail at
    compile time except when casting to Boolean from GeoPoint or GeoShape,
    which raises a type error. *)
Definition castFails (e : expr.Expr) (t : expr.Type_) : bool :=
  bool_decide (t = expr.Boolean) && geoTyped e.

(** ** The rewriter *)

Section Compiler.

Variable H : Helpers.

(** [expr.Cast(e, t)]: the cast asks [e.Type()], a panic on the nil
    interface.  The call sites take the one value that [expr.Cast] returns
    and hand it no context, so the cast that raises ([castFails]) cannot
    store an error in [qc.Error]: it ends the rewriting, like a panic.  On
    every other input the value is [Cast H e t]. *)
Definition CastM (e : expr.Expr) (t : expr.Type_) : M expr.Expr :=
  match e with
  | expr.Nil => panic
  | _ => if castFails e t then panic else ret (Cast H e t)
  end.

(** [qc.Tables[tableID]], dereferenced. *)
Definition getTable (tableID : Z) : M memCom.TableSchema :=
  do qc <- getContext;
  do t <- index (Tables qc) tableID;
  match t with
  | Some table => ret table
  | None => panic
  end.

Definition resolveColumn (identifier : string) : M (Error + Z * Z) :=
  do qc <- getContext;
  let '(tableAlias, column) :=
    match splitAtDot identifier with
    | Some segments => segments
    | None => (common.Table (AQLQuery qc), identifier)
    end in
  match TableIDByAlias qc !! tableAlias with
  | None => ret (inl ErrUnknownTableAlias)
  | Some tableID =>
      do table <- getTable tableID;
      match memCom.ColumnIDs table !! column with
      | None => ret (inl ErrUnknownColumn)
      | Some columnID => ret (inr (tableID, columnID))
      end
  end.

(** The token test of [blockNumericOpsForColumnOverFourBytes]. *)
Definition isBlockedToken (token : expr.Token) : bool :=
  bool_decide (token = expr.UNARY_MINUS) || bool_decide (token = expr.BITWISE_NOT)
  || ((expr.Token_code expr.ADD <=? expr.Token_code token)
      && (expr.Token_code token <=? expr.Token_code expr.BITWISE_LEFT_SHIFT)).

(** Its loop over the operands. *)
Fixpoint firstOversizeColumn (expressions : list expr.Expr) : option Error :=
  match expressions with
  | [] => None
  | expression :: rest =>
      match expression with
      | expr.VarRefE varRef =>
          if 4 <? DataTypeBytes H (expr.DataType varRef)
          then Some ErrOversizeNumericOp
          else firstOversizeColumn rest
      | _ => firstOversizeColumn rest
      end
  end.

Definition blockNumericOpsForColumnOverFourBytes (token : expr.Token)
    (expressions : list expr.Expr) : option Error :=
  if isBlockedToken token then firstOversizeColumn expressions else None.

(** The VarRef case of [Rewrite]. *)
Definition rewriteVarRef (e : expr.VarRef) : M expr.Expr :=
  do r <- resolveColumn (expr.Val e);
  match r with
  | inl err => do _ <- setError err; ret (expr.VarRefE e)
  | inr (tableID, columnID) =>
      do table <- getTable tableID;
      do column <- index (memCom.Columns table) columnID;
      if memCom.Deleted column
      then do _ <- setError ErrColumnDeleted; ret (expr.VarRefE e)
      else
        do dataType <- index (memCom.ValueTypeByColumn table) columnID;
        let dict := default memCom.zeroEnumDict
                      (memCom.EnumDicts table !! memCom.Name column) in
        ret (expr.VarRefE
               (expr.mkVarRef (expr.Val e) (DataTypeToExprType H dataType)
                  tableID columnID (memCom.Dict dict) (memCom.ReverseDict dict)
                  dataType (memCom.IsHLLColumn column)))
  end.

(** The UnaryExpr case. *)
Definition rewriteUnary (Op : expr.Token) (child : expr.Expr) (ty : expr.Type_)
    : M expr.Expr :=
  let expression := expr.UnaryExpr Op child ty in
  if expr.IsUUIDColumn child && negb (bool_decide (Op = expr.GET_HLL_VALUE))
  then do _ <- setError ErrUUIDUnary; ret expression
  else
    match blockNumericOpsForColumnOverFourBytes Op [child] with
    | Some err => do _ <- setError err; ret expression
    | None =>
        do childType <- TypeOf child;
        match Op with
        | expr.EXCLAMATION | expr.NOT | expr.IS_FALSE =>
            do child' <- CastM child expr.Boolean;
            do _ <- match child' with
                    | expr.Call name _ _ =>
                        if decide (name = expr.GeographyIntersectsCallName)
                        then setError ErrNotGeographyIntersects
                        else ret tt
                    | _ => ret tt
                    end;
            ret (expr.UnaryExpr expr.NOT child' expr.Boolean)
        | expr.UNARY_MINUS =>
            ret (expr.UnaryExpr Op child
                   (if expr.Type_code childType <? expr.Type_code expr.Signed
                    then expr.Signed else childType))
        | expr.IS_NULL | expr.IS_NOT_NULL =>
            ret (expr.UnaryExpr Op child expr.Boolean)
        | expr.IS_TRUE =>
            if decide (childType = expr.Boolean) then ret child
            else
              do child' <- CastM child expr.Boolean;
              ret (expr.UnaryExpr expr.NOT
                     (expr.UnaryExpr expr.NOT child' expr.Boolean) expr.Boolean)
        | expr.BITWISE_NOT
        | expr.GET_MONTH_START | expr.GET_QUARTER_START | expr.GET_YEAR_START
        | expr.GET_WEEK_START
        | expr.GET_DAY_OF_MONTH | expr.GET_DAY_OF_YEAR | expr.GET_MONTH_OF_YEAR
        | expr.GET_QUARTER_OF_YEAR
        | expr.GET_HLL_VALUE =>
            do child' <- CastM child expr.Unsigned;
            ret (expr.UnaryExpr Op child' expr.Unsigned)
        | _ =>
            do _ <- setError ErrUnsupportedUnary;
            ret (expr.UnaryExpr Op child childType)
        end
    end.

Definition isStringLiteral (e : expr.Expr) : bool :=
  match e with expr.StringLiteral _ => true | _ => false end.

Definition isVarRef (e : expr.Expr) : bool :=
  match e with expr.VarRefE _ => true | _ => false end.

(** The type assertion of [e] to a VarRef pointer: [None] is the nil pointer. *)
Definition asVarRef (e : expr.Expr) : option expr.VarRef :=
  match e with expr.VarRefE v => Some v | _ => None end.

Definition asStringLiteral (e : expr.Expr) : option string :=
  match e with expr.StringLiteral s => Some s | _ => None end.

Definition asBooleanLiteral (e : expr.Expr) : option bool :=
  match e with expr.BooleanLiteral b => Some b | _ => None end.

(** The [NEQ, EQ] case of the binary switch. *)
Definition rewriteEquality (Op : expr.Token) (LHS RHS : expr.Expr)
    (highestType : expr.Type_) : M expr.Expr :=
  let '(LHS, RHS) :=
    if isVarRef LHS then (LHS, RHS)
    else if isVarRef RHS then (RHS, LHS) else (LHS, RHS) in
  let lhs := asVarRef LHS in
  let rhsBool := asBooleanLiteral RHS in
  match lhs, rhsBool with
  | Some lhsRef, Some val =>
      if (bool_decide (Op = expr.EQ) && val)
         || (bool_decide (Op = expr.NEQ) && negb val)
      then ret (expr.UnaryExpr expr.IS_TRUE (expr.VarRefE lhsRef) expr.Boolean)
      else ret (expr.UnaryExpr expr.NOT (expr.VarRefE lhsRef) expr.Boolean)
  | _, _ =>
      let rhs := asStringLiteral RHS in
      match lhs, rhs, (match lhs with Some l => expr.EnumDict l | None => None end) with
      | Some lhsRef, Some rhsVal, Some dict =>
          let value := default (-1) (dict !! rhsVal) in
          ret (expr.BinaryExpr Op LHS
                 (expr.NumberLiteral value EmptyString expr.Unsigned) expr.Boolean)
      | _, _, _ =>
          do LHS' <- CastM LHS highestType;
          do RHS' <- CastM RHS highestType;
          match rhs with
          | None => ret (expr.BinaryExpr Op LHS' RHS' expr.Boolean)
          | Some rhsVal =>
              match lhs with
              | None => panic
              | Some lhsRef =>
                  if decide (expr.DataType lhsRef = memCom.GeoPoint)
                  then match GeoPointFromString H rhsVal with
                       | None =>
                           do _ <- setError ErrGeoPointFromString;
                           ret (expr.BinaryExpr Op LHS' RHS' expr.Boolean)
                       | Some val =>
                           ret (expr.BinaryExpr Op LHS'
                                  (expr.GeopointLiteral val) expr.Boolean)
                       end
                  else ret (expr.BinaryExpr Op LHS' RHS' expr.Boolean)
              end
          end
      end
  end.

(** The BinaryExpr case; [expandINop] is a parameter, see
    [Rewrite] below. *)
Definition rewriteBinary (expandINop : expr.Expr -> expr.Expr -> M expr.Expr)
    (Op : expr.Token) (LHS RHS : expr.Expr) (ty : expr.Type_) : M expr.Expr :=
  let expression := expr.BinaryExpr Op LHS RHS ty in
  match blockNumericOpsForColumnOverFourBytes Op [LHS; RHS] with
  | Some err => do _ <- setError err; ret expression
  | None =>
      if negb (bool_decide (Op = expr.EQ)) && negb (bool_decide (Op = expr.NEQ))
         && (isStringLiteral RHS || isStringLiteral LHS)
      then do _ <- setError ErrStringOnlyEqNeq; ret expression
      else
        do lhsType <- TypeOf LHS;
        do rhsType <- TypeOf RHS;
        let highestType :=
          if expr.Type_code lhsType <? expr.Type_code rhsType
          then rhsType else lhsType in
        match Op with
        | expr.ADD | expr.SUB =>
            if decide (highestType = expr.Float)
            then
              do LHS' <- CastM LHS expr.Float;
              do RHS' <- CastM RHS expr.Float;
              ret (expr.BinaryExpr Op LHS' RHS' highestType)
            else if decide (Op = expr.SUB)
            then ret (expr.BinaryExpr Op LHS RHS expr.Signed)
            else ret (expr.BinaryExpr Op LHS RHS highestType)
        | expr.MUL | expr.MOD =>
            do LHS' <- CastM LHS highestType;
            do RHS' <- CastM RHS highestType;
            ret (expr.BinaryExpr Op LHS' RHS' highestType)
        | expr.DIV =>
            do LHS' <- CastM LHS expr.Float;
            do RHS' <- CastM RHS expr.Float;
            ret (expr.BinaryExpr Op LHS' RHS' expr.Float)
        | expr.BITWISE_AND | expr.BITWISE_OR | expr.BITWISE_XOR
        | expr.BITWISE_LEFT_SHIFT | expr.BITWISE_RIGHT_SHIFT
        | expr.FLOOR | expr.CONVERT_TZ =>
            do LHS' <- CastM LHS expr.Unsigned;
            do RHS' <- CastM RHS expr.Unsigned;
            ret (expr.BinaryExpr Op LHS' RHS' expr.Unsigned)
        | expr.AND | expr.OR =>
            do LHS' <- CastM LHS expr.Boolean;
            do RHS' <- CastM RHS expr.Boolean;
            ret (expr.BinaryExpr Op LHS' RHS' expr.Boolean)
        | expr.LT | expr.LTE | expr.GT | expr.GTE =>
            do LHS' <- CastM LHS highestType;
            do RHS' <- CastM RHS highestType;
            ret (expr.BinaryExpr Op LHS' RHS' expr.Boolean)
        | expr.NEQ | expr.EQ => rewriteEquality Op LHS RHS highestType
        | expr.IN => expandINop LHS RHS
        | expr.NOT_IN =>
            do expanded <- expandINop LHS RHS;
            ret (expr.UnaryExpr expr.NOT expanded expr.UnknownType)
        | _ =>
            do _ <- setError ErrUnsupportedBinary;
            ret (expr.BinaryExpr Op LHS RHS ty)
        end
  end.

(** A loop that replaces every element of a slice. *)
Fixpoint mapM {A B} (f : A -> M B) (l : list A) : M (list B) :=
  match l with
  | [] => ret []
  | a :: l' => do b <- f a; do bs <- mapM f l'; ret (b :: bs)
  end.

Definition isGeoColumnType (t : memCom.DataType) : bool :=
  bool_decide (t = memCom.GeoShape) || bool_decide (t = memCom.GeoPoint).

(** The Call case.  The name is lowered first, and stays lowered on every
    way out. *)
Definition rewriteCall (Name : string) (Args : list expr.Expr) (ty : expr.Type_)
    : M expr.Expr :=
  let Name := ToLower H Name in
  let fail (err : Error) : M expr.Expr :=
    do _ <- setError err; ret (expr.Call Name Args ty) in
  if decide (Name = expr.ConvertTzCallName) then
    match Args with
    | [ts; fromArg; toArg] =>
        match fromArg with
        | expr.StringLiteral fromTz =>
            match toArg with
            | expr.StringLiteral toTz =>
                match ZoneOffsetNow H fromTz with
                | None => fail ErrConvertTzTimezone
                | Some fromOffsetInSeconds =>
                    match ZoneOffsetNow H toTz with
                    | None => fail ErrConvertTzTimezone
                    | Some toOffsetInSeconds =>
                        let offsetInSeconds :=
                          toOffsetInSeconds - fromOffsetInSeconds in
                        ret (expr.BinaryExpr expr.ADD ts
                               (expr.NumberLiteral offsetInSeconds
                                  (Itoa offsetInSeconds) expr.Unsigned)
                               expr.Unsigned)
                    end
                end
            | _ => fail ErrConvertTzThirdArg
            end
        | _ => fail ErrConvertTzSecondArg
        end
    | _ => fail ErrConvertTzArity
    end
  else if decide (Name = expr.CountCallName) then
    ret (expr.Call Name Args expr.Unsigned)
  else if decide (Name = expr.DayOfWeekCallName) then
    match Args with
    | [tsExpr] =>
        ret (expr.BinaryExpr expr.ADD
               (expr.BinaryExpr expr.MOD
                  (expr.BinaryExpr expr.ADD
                     (expr.BinaryExpr expr.DIV tsExpr
                        (expr.NumberLiteral common.SecondsPerDay
                           (Itoa common.SecondsPerDay) expr.Unsigned)
                        expr.Unsigned)
                     (expr.NumberLiteral common.WeekdayOffset
                        (Itoa common.WeekdayOffset) expr.Unsigned)
                     expr.Unsigned)
                  (expr.NumberLiteral common.DaysPerWeek
                     (Itoa common.DaysPerWeek) expr.Unsigned)
                  expr.Unsigned)
               (expr.NumberLiteral 1 "1" expr.Unsigned)
               expr.Unsigned)
    | _ => fail ErrDayOfWeekArity
    end
  else if decide (Name = expr.FromUnixTimeCallName) then
    match Args with
    | [] => panic
    | expr.BinaryExpr expr.DIV divLHS divRHS divTy :: rest =>
        match divRHS with
        | expr.NumberLiteral 1000 _ _ =>
            let divLHS' :=
              match divLHS with expr.ParenExpr inner _ => inner | _ => divLHS end in
            match divLHS' with
            | expr.VarRefE timeColExpr => ret (expr.VarRefE timeColExpr)
            | _ =>
                do _ <- setError ErrFromUnixtime;
                ret (expr.Call Name
                       (expr.BinaryExpr expr.DIV divLHS' divRHS divTy :: rest) ty)
            end
        | _ => fail ErrFromUnixtime
        end
    | _ :: _ => fail ErrFromUnixtime
    end
  else if decide (Name = expr.HourCallName) then
    match Args with
    | [tsExpr] =>
        ret (expr.BinaryExpr expr.DIV
               (expr.BinaryExpr expr.MOD tsExpr
                  (expr.NumberLiteral common.SecondsPerDay
                     (Itoa common.SecondsPerDay) expr.Unsigned)
                  expr.UnknownType)
               (expr.NumberLiteral common.SecondsPerHour
                  (Itoa common.SecondsPerHour) expr.Unsigned)
               expr.Unsigned)
    | _ => fail ErrHourArity
    end
  else if decide (Name = expr.ListCallName) then
    ret (expr.Call Name Args ty)
  else if decide (Name = expr.GeographyIntersectsCallName) then
    match Args with
    | [arg0; arg1] =>
        match arg0 with
        | expr.VarRefE lhsRef =>
            if negb (isGeoColumnType (expr.DataType lhsRef))
            then fail ErrGeoIntersectsArg
            else
              let lhsGeoPoint :=
                bool_decide (expr.DataType lhsRef = memCom.GeoPoint) in
              match arg1 with
              | expr.VarRefE rhsRef =>
                  if negb (isGeoColumnType (expr.DataType rhsRef))
                  then fail ErrGeoIntersectsArg
                  else
                    let rhsGeoPoint :=
                      bool_decide (expr.DataType rhsRef = memCom.GeoPoint) in
                    if Bool.eqb lhsGeoPoint rhsGeoPoint
                    then fail ErrGeoIntersectsPair
                    else
                      ret (expr.Call Name
                             (if lhsGeoPoint then [arg1; arg0] else [arg0; arg1])
                             expr.Boolean)
              | _ => panic
              end
        | _ => panic
        end
    | _ => fail ErrGeoIntersectsArity
    end
  else if decide (Name = expr.HexCallName) then
    match Args with
    | [arg0] =>
        match arg0 with
        | expr.VarRefE colRef =>
            if decide (expr.DataType colRef = memCom.UUID)
            then ret (expr.Call Name Args (expr.ExprType colRef))
            else fail ErrHexArg
        | _ => panic
        end
    | _ => fail ErrHexArity
    end
  else if decide (Name = expr.CountDistinctHllCallName) then
    match Args with
    | [arg0] =>
        match arg0 with
        | expr.VarRefE colRef =>
            ret (expr.Call expr.HllCallName
                   [if expr.IsHLLColumn colRef then arg0
                    else expr.UnaryExpr expr.GET_HLL_VALUE arg0 expr.Unsigned]
                   expr.Unsigned)
        | _ => fail ErrCountDistinctHllArg
        end
    | _ => fail ErrCountDistinctHllArity
    end
  else if decide (Name = expr.HllCallName) then
    match Args with
    | [arg0] =>
        match arg0 with
        | expr.VarRefE colRef =>
            if decide (expr.DataType colRef = memCom.Uint32)
            then ret (expr.Call Name Args (expr.ExprType colRef))
            else fail ErrHllArg
        | _ => panic
        end
    | _ => fail ErrHllArity
    end
  else if decide (Name = expr.SumCallName \/ Name = expr.MinCallName
                  \/ Name = expr.MaxCallName \/ Name = expr.AvgCallName) then
    match Args with
    | [arg0] =>
        do arg0' <- (if decide (Name = expr.AvgCallName)
                     then CastM arg0 expr.Float else ret arg0);
        do argType <- TypeOf arg0';
        ret (expr.Call Name [arg0'] argType)
    | _ => fail ErrAggregateArity
    end
  else if decide (Name = expr.LengthCallName \/ Name = expr.ContainsCallName
                  \/ Name = expr.ElementAtCallName) then
    match Args with
    | [] => fail ErrArrayNoArgs
    | firstArg :: _ =>
        let vr := asVarRef firstArg in
        do _ <- match vr with
                | Some v =>
                    if memCom.IsArrayType (expr.DataType v) then ret tt
                    else setError ErrArrayFirstArg
                | None => setError ErrArrayFirstArg
                end;
        if decide (Name = expr.LengthCallName) then
          if decide (length Args = 1%nat)
          then ret (expr.Call Name Args expr.Unsigned)
          else fail ErrArrayLengthArity
        else if decide (Name = expr.ContainsCallName) then
          if decide (length Args = 2%nat)
          then ret (expr.Call Name Args expr.Boolean)
          else fail ErrArrayContainsArity
        else
          match Args with
          | [_; indexArg] =>
              do _ <- match indexArg with
                      | expr.NumberLiteral _ _ _ => ret tt
                      | _ => setError ErrArrayElementAtIndex
                      end;
              match vr with
              | Some v => ret (expr.Call Name Args (expr.ExprType v))
              | None => panic
              end
          | _ => fail ErrArrayElementAtArity
          end
    end
  else fail ErrUnknownFunction.

Definition higherType (a b : expr.Type_) : expr.Type_ :=
  if expr.Type_code a <? expr.Type_code b then b else a.

(** The Case case. *)
Definition rewriteCase (WhenThens : list (expr.Expr * expr.Expr))
    (Else : expr.Expr) (ty : expr.Type_) : M expr.Expr :=
  do elseType <- TypeOf Else;
  do highestType <-
    foldM (fun highest whenThen =>
             do thenType <- TypeOf (snd whenThen);
             ret (higherType highest thenType))
          WhenThens elseType;
  do Else' <- CastM Else highestType;
  do WhenThens' <-
    mapM (fun whenThen =>
            do when' <- CastM (fst whenThen) expr.Boolean;
            do then' <- CastM (snd whenThen) highestType;
            ret (when', then'))
         WhenThens;
  ret (expr.Case WhenThens' Else' highestType).

(** The body of [Rewrite]: the type switch on the node. *)
Definition RewriteNode (expandINop : expr.Expr -> expr.Expr -> M expr.Expr)
    (expression : expr.Expr) : M expr.Expr :=
  match expression with
  | expr.ParenExpr e _ => ret e
  | expr.VarRefE e => rewriteVarRef e
  | expr.UnaryExpr Op e ty => rewriteUnary Op e ty
  | expr.BinaryExpr Op LHS RHS ty => rewriteBinary expandINop Op LHS RHS ty
  | expr.Call Name Args ty => rewriteCall Name Args ty
  | expr.Case WhenThens Else ty => rewriteCase WhenThens Else ty
  | _ => ret expression
  end.

(** The type assertion of a rewritten comparison to a BinaryExpr pointer, in
    its one-value form: it panics on any other node. *)
Definition assertBinaryExpr (e : expr.Expr) : M expr.Expr :=
  match e with
  | expr.BinaryExpr _ _ _ _ => ret e
  | _ => panic
  end.

(** [expandINop], over the rewriter it calls on the comparisons it builds.
    When the left side is no column reference, [lhs] is a nil VarRef pointer:
    the comparison built around it panics as soon as the rewriter asks its
    left side for its type. *)
Definition expandINopWith (rewrite : expr.Expr -> M expr.Expr)
    (LHS RHS : expr.Expr) : M expr.Expr :=
  let lhs := asVarRef LHS in
  do _ <- match lhs with
          | Some _ => ret tt
          | None => setError ErrInLhsNotColumn
          end;
  match RHS with
  | expr.Call _ Args _ =>
      foldM (fun expandedExpr value =>
               match lhs with
               | None => panic
               | Some lhsRef =>
                   let comparison :=
                     expr.BinaryExpr expr.EQ (expr.VarRefE lhsRef) value
                       expr.UnknownType in
                   match expandedExpr with
                   | expr.BooleanLiteral _ =>
                       do rewritten <- rewrite comparison;
                       assertBinaryExpr rewritten
                   | lastExpr =>
                       do rewritten <- rewrite comparison;
                       do rewritten' <- assertBinaryExpr rewritten;
                       ret (expr.BinaryExpr expr.OR lastExpr rewritten'
                              expr.UnknownType)
                   end
               end)
            Args (expr.BooleanLiteral false)
  | _ => do _ <- setError ErrInRhsNotList; ret expr.Nil
  end.

(** The rewriter [expandINop] calls: it only ever sees an EQ node, which
    never reaches the IN expansion again. *)
Definition rewriteComparison : expr.Expr -> M expr.Expr :=
  RewriteNode (fun _ _ => panic).

Definition expandINop (LHS RHS : expr.Expr) : M expr.Expr :=
  expandINopWith rewriteComparison LHS RHS.

(** [qc.Rewrite(expression)] *)
Definition Rewrite (expression : expr.Expr) : M expr.Expr :=
  RewriteNode expandINop expression.

(** Modelled from the spec: [expr.Rewrite(qc, e)], the walker of the expr
    package, which is not part of the sources at hand: a post-order
    traversal that rewrites the children of a node, left to right, stores
    what the rewriter returns for them, and then hands the node itself to
    [qc.Rewrite]. *)
Fixpoint exprRewrite (e : expr.Expr) : M expr.Expr :=
  match e with
  | expr.ParenExpr c ty =>
      do c' <- exprRewrite c; Rewrite (expr.ParenExpr c' ty)
  | expr.UnaryExpr Op c ty =>
      do c' <- exprRewrite c; Rewrite (expr.UnaryExpr Op c' ty)
  | expr.BinaryExpr Op l r ty =>
      do l' <- exprRewrite l;
      do r' <- exprRewrite r;
      Rewrite (expr.BinaryExpr Op l' r' ty)
  | expr.Call Name Args ty =>
      do Args' <-
        (fix args (l : list expr.Expr) : M (list expr.Expr) :=
           match l with
           | [] => ret []
           | a :: l' => do a' <- exprRewrite a; do r <- args l'; ret (a' :: r)
           end) Args;
      Rewrite (expr.Call Name Args' ty)
  | expr.Case WhenThens Else ty =>
      do WhenThens' <-
        (fix whenThens (l : list (expr.Expr * expr.Expr))
           : M (list (expr.Expr * expr.Expr)) :=
           match l with
           | [] => ret []
           | (w, t) :: l' =>
               do w' <- exprRewrite w;
               do t' <- exprRewrite t;
               do r <- whenThens l';
               ret ((w', t') :: r)
           end) WhenThens;
      do Else' <- exprRewrite Else;
      Rewrite (expr.Case WhenThens' Else' ty)
  | _ => Rewrite e
  end.

(** ** The filter normaliser *)

(** The number of iterations one filter costs the loop below: one to step
    over it, and one more for every AND it is split at. *)
Fixpoint andWeight (f : expr.Expr) : nat :=
  match f with
  | expr.BinaryExpr expr.AND LHS RHS _ => S (andWeight LHS + andWeight RHS)
  | _ => 1
  end.

Definition normalizeFuel (filters : list expr.Expr) : nat :=
  S (sum_list_with andWeight filters).

(** The loop of [normalizeAndFilters], from index [i] on; [None] when the
    fuel is used up before the loop ends. *)
Fixpoint normalizeLoop (fuel : nat) (i : nat) (filters : list expr.Expr)
    : option (list expr.Expr) :=
  match fuel with
  | O => None
  | S fuel' =>
      match filters !! i with
      | None => Some filters
      | Some (expr.BinaryExpr expr.AND LHS RHS _) =>
          normalizeLoop fuel' i (<[i:=LHS]> filters ++ [RHS])
      | Some _ => normalizeLoop fuel' (S i) filters
      end
  end.

Definition normalizeAndFilters (filters : list expr.Expr) : list expr.Expr :=
  default filters (normalizeLoop (normalizeFuel filters) 0 filters).

(** ** The stages of the compilation *)

Definition modifyContext (f : QueryContext -> QueryContext) : M unit :=
  fun qc => Ok (tt, f qc).

Definition modifyQuery (f : common.AQLQuery -> common.AQLQuery) : M unit :=
  modifyContext (fun qc => withAQLQuery (f (AQLQuery qc)) qc).

(** The loop the stages share: every text of a slice is parsed and then
    rewritten into the slot of a fresh slice of nils; a failure to parse
    stores [kind] in [qc.Error], and the loop is left at the first error.
    The result is the slice and whether the loop ran to its end. *)
Fixpoint parseAndRewrite (kind : Error) (texts : list string)
    : M (list expr.Expr * bool) :=
  match texts with
  | [] => ret ([], true)
  | text :: rest =>
      match ParseExpr H text with
      | None =>
          do _ <- setError kind;
          ret (expr.Nil :: map (fun _ => expr.Nil) rest, false)
      | Some parsed =>
          do e <- exprRewrite parsed;
          do qc <- getContext;
          match Error_ qc with
          | Some _ => ret (e :: map (fun _ => expr.Nil) rest, false)
          | None =>
              do ' (es, ok) <- parseAndRewrite kind rest;
              ret (e :: es, ok)
          end
      end
  end.

(** [processJoins]: the joins as they stand when the loop is left, and
    whether it ran to its end. *)
Fixpoint joinsLoop (joins : list common.Join) : M (list common.Join * bool) :=
  match joins with
  | [] => ret ([], true)
  | join :: rest =>
      do ' (parsed, ok) <- parseAndRewrite ErrParseJoin (common.Conditions join);
      if ok then
        do ' (rest', ok') <- joinsLoop rest;
        ret (common.mkJoin (common.JoinTable join) (common.Alias join)
               (common.Conditions join) parsed :: rest', ok')
      else ret (join :: rest, false)
  end.

Definition processJoins : M unit :=
  do qc <- getContext;
  do ' (joins, _) <- joinsLoop (common.Joins (AQLQuery qc));
  modifyQuery (withJoins joins).

Definition processFilters : M unit :=
  do qc <- getContext;
  do ' (filters, ok) <-
    parseAndRewrite ErrParseFilter (common.QueryFilters (AQLQuery qc));
  modifyQuery (withFiltersParsed
                 (if ok then normalizeAndFilters filters else filters)).

(** One iteration of the loop of [processMeasures]: [None] when it returns
    from the function. *)
Definition processMeasure (measure : common.Measure) : M (option common.Measure) :=
  match ParseExpr H (common.Expr measure) with
  | None => do _ <- setError ErrParseMeasure; ret None
  | Some parsed =>
      do e <- exprRewrite parsed;
      do qc <- getContext;
      match Error_ qc with
      | Some _ => ret None
      | None =>
          do ' (filters, ok) <-
            parseAndRewrite ErrParseMeasureFilter (common.Filters measure);
          if ok
          then ret (Some (common.mkMeasure (common.Expr measure) e
                            (common.Filters measure)
                            (normalizeAndFilters filters)))
          else ret None
      end
  end.

Fixpoint measuresLoop (measures : list common.Measure)
    : M (list common.Measure * bool) :=
  match measures with
  | [] => ret ([], true)
  | measure :: rest =>
      do r <- processMeasure measure;
      match r with
      | None => ret (measure :: rest, false)
      | Some measure' =>
          do ' (rest', ok) <- measuresLoop rest;
          ret (measure' :: rest', ok)
      end
  end.

(** The checks of [processMeasures] that follow its loop. *)
Definition checkMeasures : M unit :=
  do qc <- getContext;
  match common.Measures (AQLQuery qc) with
  | [measure] =>
      match common.ExprParsed measure with
      | expr.NumberLiteral _ _ _ =>
          do _ <- modifyContext (withIsNonAggregationQuery true);
          if decide (common.Limit (AQLQuery qc) = 0)
          then modifyQuery (withLimit nonAggregationQueryLimit)
          else ret tt
      | expr.Call Name Args _ =>
          if decide (length Args = 1%nat) then
            if ReturnHLLBinary qc && negb (bool_decide (Name = expr.HllCallName))
            then setError ErrHllExpected
            else ret tt
          else setError ErrOneParameter
      | _ => setError ErrAggregateExpected
      end
  | _ => setError ErrOneMeasure
  end.

Definition processMeasures : M unit :=
  do qc <- getContext;
  do ' (measures, ok) <- measuresLoop (common.Measures (AQLQuery qc));
  do _ <- modifyQuery (withMeasures measures);
  if ok then checkMeasures else ret tt.

(** The loop of [getAllColumnsDimension]. *)
Fixpoint allColumnsDimension (columns : list memCom.Column) : list common.Dimension :=
  match columns with
  | [] => []
  | column :: rest =>
      if negb (memCom.Deleted column)
         && negb (bool_decide (memCom.Type_ column = memCom.GeoShape))
      then common.mkDimension (memCom.Name column)
             (expr.VarRefE (expr.newVarRef (memCom.Name column)))
           :: allColumnsDimension rest
      else allColumnsDimension rest
  end.

Definition getAllColumnsDimension : M (list common.Dimension) :=
  do table <- getTable 0;
  ret (allColumnsDimension (memCom.Columns table)).

(** The first loop of [processDimensions]: the dimensions appended so far,
    and whether the loop ran to its end. *)
Fixpoint expandDimensions (rawDims : list common.Dimension)
    (dimensions : list common.Dimension) : M (list common.Dimension * bool) :=
  match rawDims with
  | [] => ret (dimensions, true)
  | dim :: rest =>
      match ParseExpr H (common.DimExpr dim) with
      | None => do _ <- setError ErrParseDimension; ret (dimensions, false)
      | Some parsed =>
          do qc <- getContext;
          match parsed with
          | expr.Wildcard =>
              if IsNonAggregationQuery qc
              then
                do columns <- getAllColumnsDimension;
                expandDimensions rest (dimensions ++ columns)
              else
                expandDimensions rest
                  (dimensions ++ [common.mkDimension (common.DimExpr dim) parsed])
          | _ =>
              expandDimensions rest
                (dimensions ++ [common.mkDimension (common.DimExpr dim) parsed])
          end
      end
  end.

(** Its second loop, from index [idx] on. *)
Fixpoint rewriteDimensions (dimensions : list common.Dimension) (idx : Z)
    : M (list common.Dimension) :=
  match dimensions with
  | [] => ret []
  | dim :: rest =>
      do e <- exprRewrite (common.DimExprParsed dim);
      do _ <- match e with
              | expr.VarRefE vr =>
                  if decide (0 < length (expr.EnumReverseDict vr))%nat
                  then modifyContext
                         (fun qc => withDimensionEnumReverseDicts
                                      (<[idx := expr.EnumReverseDict vr]>
                                         (DimensionEnumReverseDicts qc)) qc)
                  else ret tt
              | _ => ret tt
              end;
      do rest' <- rewriteDimensions rest (idx + 1);
      ret (common.mkDimension (common.DimExpr dim) e :: rest')
  end.

Definition processDimensions : M unit :=
  do qc <- getContext;
  let rawDims := common.Dimensions (AQLQuery qc) in
  do _ <- modifyQuery (withDimensions []);
  do _ <- modifyContext
            (withDimensionVectorIndex (replicate (length rawDims) 0));
  do ' (dimensions, ok) <- expandDimensions rawDims [];
  do _ <- modifyQuery (withDimensions dimensions);
  if ok then
    do dimensions' <- rewriteDimensions dimensions 0;
    modifyQuery (withDimensions dimensions')
  else ret tt.

(** ** The dimension layout planner *)

(** What the loops of [sortDimensionColumns] update. *)
Record Layout : Type := mkLayout {
  vectorIndex : list Z;
  dimCounts : list Z;
  rowBytes : Z;
  orderedIndex : Z
}.

(** The inner loop, over the dimensions from [originIndex] on, for the
    bucket [byteIndex] of width [byteWidth]. *)
Fixpoint bucketLoop (byteWidth : Z) (byteIndex : nat)
    (dimensions : list common.Dimension) (originIndex : nat) (st : Layout)
    : Layout :=
  match dimensions with
  | [] => st
  | dim :: rest =>
      let dataBytes := GetDimensionDataBytes H (common.DimExprParsed dim) in
      bucketLoop byteWidth byteIndex rest (S originIndex)
        (if decide (dataBytes = byteWidth)
         then mkLayout (<[originIndex := orderedIndex st]> (vectorIndex st))
                (alter Z.succ byteIndex (dimCounts st))
                (rowBytes st + dataBytes)
                (orderedIndex st + 1)
         else st)
  end.

(** The outer loop, over the buckets still to visit; the width is halved
    after every bucket. *)
Fixpoint widthLoop (byteIndexes : list nat) (byteWidth : Z)
    (dimensions : list common.Dimension) (st : Layout) : Layout :=
  match byteIndexes with
  | [] => st
  | byteIndex :: rest =>
      widthLoop rest (Z.shiftr byteWidth 1) dimensions
        (bucketLoop byteWidth byteIndex dimensions 0 st)
  end.

(** [1 << uint(n-1)] on a 64-bit [int]: a shift by 64 or more (as the
    conversion of -1 gives) leaves 0, and bit 63 is the sign. *)
Definition firstByteWidth (n : nat) : Z :=
  if decide (n = 0%nat) then 0
  else if decide (n <= 63)%nat then Z.shiftl 1 (Z.of_nat n - 1)
  else if decide (n = 64%nat) then - Z.shiftl 1 63
  else 0.

Definition sortDimensionColumns : M unit :=
  modifyContext (fun qc =>
    let dimensions := common.Dimensions (AQLQuery qc) in
    let numDimensions := length dimensions in
    let st :=
      widthLoop (seq 0 (length (NumDimsPerDimWidth qc)))
        (firstByteWidth (length (NumDimsPerDimWidth qc))) dimensions
        (mkLayout (replicate numDimensions 0) (NumDimsPerDimWidth qc)
           (DimRowBytes qc) 0) in
    withLayout (dimCounts st) (vectorIndex st)
      (rowBytes st + Z.of_nat numDimensions) qc).

(** ** Binding the schemas, and the whole compilation *)

(** The loop of [readSchema] over the joins, from join [i] on; [reader] is
    [GetSchema] of the schema reader.  (The locks are not modelled.) *)
Fixpoint readJoinSchemas (reader : string -> option memCom.TableSchema)
    (joins : list common.Join) (i : nat) : M unit :=
  match joins with
  | [] => ret tt
  | join :: rest =>
      match reader (common.JoinTable join) with
      | None => setError ErrUnknownJoinTable
      | Some schema =>
          do qc <- getContext;
          let tables := <[S i := Some schema]> (Tables qc) in
          let alias :=
            if decide (common.Alias join = EmptyString)
            then common.JoinTable join else common.Alias join in
          match TableIDByAlias qc !! alias with
          | Some _ =>
              do _ <- modifyContext (withSchemas tables (TableIDByAlias qc));
              setError ErrAliasRedefined
          | None =>
              do _ <- modifyContext
                        (withSchemas tables
                           (<[alias := 1 + Z.of_nat i]> (TableIDByAlias qc)));
              readJoinSchemas reader rest (S i)
          end
      end
  end.

Definition readSchema (reader : string -> option memCom.TableSchema) : M unit :=
  do qc <- getContext;
  let joins := common.Joins (AQLQuery qc) in
  do _ <- modifyContext (withSchemas (replicate (S (length joins)) None) ∅);
  match reader (common.Table (AQLQuery qc)) with
  | None => setError ErrUnknownMainTable
  | Some schema =>
      do _ <- modifyContext
                (fun qc' => withSchemas (<[0%nat := Some schema]> (Tables qc'))
                              {[ common.Table (AQLQuery qc) := 0 ]} qc');
      readJoinSchemas reader joins 0
  end.

(** Runs [stage] unless an error is stored. *)
Definition unlessError (stage : M unit) : M unit :=
  do qc <- getContext;
  match Error_ qc with
  | Some _ => ret tt
  | None => stage
  end.

Definition Compile (reader : string -> option memCom.TableSchema) : M unit :=
  do _ <- readSchema reader;
  unlessError (
    do _ <- processJoins;
    unlessError (
      do _ <- processMeasures;
      unlessError (
        do _ <- processDimensions;
        unlessError (
          do _ <- processFilters;
          unlessError sortDimensionColumns)))).

End Compiler.

Arguments Rewrite H expression qc : rename.
Arguments exprRewrite H e qc : rename.

(** ** The rewritten query *)

(** [SupportingMeasures] and [SupportingDimensions], the two slices of
    [AQLQuery] that the compiler leaves alone and [GetRewrittenQuery]
    renders. *)
Record Supporting : Type := mkSupporting {
  SupportingMeasures : list common.Measure;
  SupportingDimensions : list common.Dimension
}.

Section Rewritten.

(** The [String()] method of the expressions, which the sources at hand do
    not contain: it is taken as given. *)
Variable String_ : expr.Expr -> string.

Definition isNil (e : expr.Expr) : bool :=
  match e with expr.Nil => true | _ => false end.

(** The loop over a slice of texts next to the slice of what they were
    parsed to: text [j] is replaced when there is a parsed slot [j] and it
    is not nil. *)
Fixpoint renderTexts (texts : list string) (parsed : list expr.Expr) : list string :=
  match texts, parsed with
  | text :: texts', e :: parsed' =>
      (if isNil e then text else String_ e) :: renderTexts texts' parsed'
  | _, _ => texts
  end.

Definition renderMeasure (measure : common.Measure) : common.Measure :=
  if isNil (common.ExprParsed measure) then measure
  else common.mkMeasure (String_ (common.ExprParsed measure))
         (common.ExprParsed measure) (common.Filters measure)
         (common.FiltersParsed measure).

Definition renderJoin (join : common.Join) : common.Join :=
  common.mkJoin (common.JoinTable join) (common.Alias join)
    (renderTexts (common.Conditions join) (common.ConditionsParsed join))
    (common.ConditionsParsed join).

Definition renderDimension (dim : common.Dimension) : common.Dimension :=
  if isNil (common.DimExprParsed dim) then dim
  else common.mkDimension (String_ (common.DimExprParsed dim))
         (common.DimExprParsed dim).

Definition renderQuery (q : common.AQLQuery) : common.AQLQuery :=
  common.mkAQLQuery (common.Table q)
    (renderJoin <$> common.Joins q)
    (renderDimension <$> common.Dimensions q)
    (renderMeasure <$> common.Measures q)
    (renderTexts (common.QueryFilters q) (common.QueryFiltersParsed q))
    (common.QueryFiltersParsed q)
    (common.Limit q).

(** [GetRewrittenQuery].  The query it returns is a copy of the struct the
    context points to, so the two share their slices: what the loops store
    in the slices of the copy is stored in the query of the context as
    well. *)
Definition GetRewrittenQuery (supporting : Supporting)
    : M (common.AQLQuery * Supporting) :=
  do qc <- getContext;
  let newQuery := renderQuery (AQLQuery qc) in
  do _ <- modifyQuery (fun _ => newQuery);
  ret (newQuery,
       mkSupporting (renderMeasure <$> SupportingMeasures supporting)
         (renderDimension <$> SupportingDimensions supporting)).

End Rewritten.

(** ** A concrete instance, on which the compiler is run *)

Module Sample.

(** Modelled from the spec: [expr.Cast], which is not part of the sources at
    hand: the identity when the expression already has the type, otherwise
    the type of a number literal is rewritten and any other expression is
    wrapped in a cast node (a typed ParenExpr). *)
Definition Cast (e : expr.Expr) (t : expr.Type_) : expr.Expr :=
  if decide (expr.typeOf e = t) then e
  else match e with
       | expr.NumberLiteral n text _ => expr.NumberLiteral n text t
       | _ => expr.ParenExpr e t
       end.

(** Lower case of the ASCII letters. *)
Definition lowerAscii (c : ascii) : ascii :=
  let n := nat_of_ascii c in
  if (65 <=? n)%nat && (n <=? 90)%nat then ascii_of_nat (n + 32) else c.

Fixpoint ToLower (s : string) : string :=
  match s with
  | EmptyString => EmptyString
  | String c rest => String (lowerAscii c) (ToLower rest)
  end.

(** The widths of the storage types, in bytes. *)
Definition DataTypeBytes (t : memCom.DataType) : Z :=
  match t with
  | memCom.Bool | memCom.Int8 | memCom.Uint8 => 1
  | memCom.Int16 | memCom.Uint16 => 2
  | memCom.Int32 | memCom.Uint32 | memCom.Float32 => 4
  | memCom.Int64 | memCom.GeoPoint => 8
  | memCom.UUID => 16
  | memCom.Unknown | memCom.GeoShape | memCom.ArrayOf _ => 0
  end.

Definition DataTypeToExprType (t : memCom.DataType) : expr.Type_ :=
  match t with
  | memCom.Bool => expr.Boolean
  | memCom.Int8 | memCom.Int16 | memCom.Int32 | memCom.Int64 => expr.Signed
  | memCom.Uint8 | memCom.Uint16 | memCom.Uint32 => expr.Unsigned
  | memCom.Float32 => expr.Float
  | memCom.UUID => expr.UUID
  | memCom.GeoPoint => expr.GeoPoint
  | memCom.GeoShape => expr.GeoShape
  | memCom.Unknown | memCom.ArrayOf _ => expr.UnknownType
  end.

(** The width of a dimension: that of its column, and four bytes for a
    computed expression. *)
Definition GetDimensionDataBytes (e : expr.Expr) : Z :=
  match e with
  | expr.VarRefE v => DataTypeBytes (expr.DataType v)
  | _ => 4
  end.

Definition ZoneOffsetNow (tz : string) : option Z :=
  if decide (tz = "UTC") then Some 0
  else if decide (tz = "America/Los_Angeles") then Some (-25200)
  else None.

Definition ref (name : string) : expr.Expr := expr.VarRefE (expr.newVarRef name).

(** The texts the sample parser knows, with their trees. *)
Definition parsed : list (string * expr.Expr) :=
  [ ("1", expr.NumberLiteral 1 "1" expr.Unsigned);
    ("*", expr.Wildcard);
    ("count(*)", expr.Call "count" [expr.Wildcard] expr.UnknownType);
    ("sum(fare)", expr.Call "sum" [ref "fare"] expr.UnknownType);
    ("sum(nosuchcolumn)", expr.Call "sum" [ref "nosuchcolumn"] expr.UnknownType);
    ("hour(ts)", expr.Call "hour" [ref "ts"] expr.UnknownType);
    ("dayofweek(ts)", expr.Call "dayofweek" [ref "ts"] expr.UnknownType);
    ("city", ref "city");
    ("ts", ref "ts");
    ("id", ref "id");
    ("a", ref "a");
    ("d", ref "d");
    ("city = 'SF'",
     expr.BinaryExpr expr.EQ (ref "city") (expr.StringLiteral "SF") expr.UnknownType);
    ("city = 'XYZ'",
     expr.BinaryExpr expr.EQ (ref "city") (expr.StringLiteral "XYZ") expr.UnknownType);
    ("1 = 'abc'",
     expr.BinaryExpr expr.EQ (expr.NumberLiteral 1 "1" expr.Unsigned)
       (expr.StringLiteral "abc") expr.UnknownType);
    ("city IN (true)",
     expr.BinaryExpr expr.IN (ref "city")
       (expr.Call "list" [expr.BooleanLiteral true] expr.UnknownType)
       expr.UnknownType);
    ("city NOT IN ()",
     expr.BinaryExpr expr.NOT_IN (ref "city")
       (expr.Call "list" [] expr.UnknownType) expr.UnknownType);
    ("ts >= 1",
     expr.BinaryExpr expr.GTE (ref "ts") (expr.NumberLiteral 1 "1" expr.Unsigned)
       expr.UnknownType) ].

Definition ParseExpr (text : string) : option expr.Expr :=
  (fun found => snd (snd found)) <$> list_find (fun entry => fst entry = text) parsed.

Definition helpers : Helpers :=
  mkHelpers Cast ToLower DataTypeBytes DataTypeToExprType (fun _ => None)
    ZoneOffsetNow GetDimensionDataBytes ParseExpr.

(** Table [trips]: an enum column, a timestamp, a fare and a UUID. *)
Definition cityDict : gmap string Z := {[ "SF" := 0; "NYC" := 1 ]}.

Definition trips : memCom.TableSchema :=
  memCom.mkTableSchema "trips"
    [ memCom.mkColumn "city" memCom.Uint16 false false;
      memCom.mkColumn "ts" memCom.Uint32 false false;
      memCom.mkColumn "fare" memCom.Float32 false false;
      memCom.mkColumn "id" memCom.UUID false false ]
    {[ "city" := 0; "ts" := 1; "fare" := 2; "id" := 3 ]}
    [ memCom.Uint16; memCom.Uint32; memCom.Float32; memCom.UUID ]
    {[ "city" := memCom.mkEnumDict (Some cityDict) ["SF"; "NYC"] ]}.

(** Table [shapes]: a deleted geo shape and a live one among two integers. *)
Definition shapes : memCom.TableSchema :=
  memCom.mkTableSchema "shapes"
    [ memCom.mkColumn "a" memCom.Uint32 false false;
      memCom.mkColumn "b" memCom.GeoShape true false;
      memCom.mkColumn "c" memCom.Uint8 false false;
      memCom.mkColumn "d" memCom.GeoShape false false ]
    {[ "a" := 0; "b" := 1; "c" := 2; "d" := 3 ]}
    [ memCom.Uint32; memCom.GeoShape; memCom.Uint8; memCom.GeoShape ]
    ∅.

Definition reader (name : string) : option memCom.TableSchema :=
  if decide (name = "trips") then Some trips
  else if decide (name = "shapes") then Some shapes
  else None.

(** A fresh context, as [NewQueryContext] makes it, for a query on [table]
    with one measure, some dimensions and some filters. *)
Definition query (table : string) (measure : string) (dimensions filters : list string)
    : common.AQLQuery :=
  common.mkAQLQuery table []
    (map (fun d => common.mkDimension d expr.Nil) dimensions)
    [common.mkMeasure measure expr.Nil [] []]
    filters [] 0.

Definition newContext (q : common.AQLQuery) (returnHLLBinary : bool) : QueryContext :=
  mkQueryContext q false returnHLLBinary None [] ∅ [0; 0; 0; 0] ∅ [] 0.

(** The context of a query on [trips], once the schemas are bound. *)
Definition bound (q : common.AQLQuery) : QueryContext :=
  mkQueryContext q false false None [Some trips] {[ "trips" := 0 ]}
    [0; 0; 0; 0] ∅ [] 0.

Definition cityRef : expr.VarRef :=
  expr.mkVarRef "city" expr.Unsigned 0 0 (Some cityDict) ["SF"; "NYC"]
    memCom.Uint16 false.

(** The context of a non-aggregation query on [shapes], once the schemas
    are bound and the measure is processed. *)
Definition boundShapes (q : common.AQLQuery) : QueryContext :=
  mkQueryContext q true false None [Some shapes] {[ "shapes" := 0 ]}
    [0; 0; 0; 0] ∅ [] 0.

End Sample.

(** ** More sample data: a join, and bound references *)

Module SampleJoin.

(** A query on [trips] joined with [shapes] under the alias [s]. *)
Definition query : common.AQLQuery :=
  withJoins [common.mkJoin "shapes" "s" [] []]
    (Sample.query "trips" "sum(fare)" ["city"] ["ts >= 1"]).

Definition fresh : QueryContext := Sample.newContext query false.

(** The context once the schemas of the query are bound. *)
Definition bound : QueryContext :=
  mkQueryContext query false false None [Some Sample.trips; Some Sample.shapes]
    {[ "trips" := 0; "s" := 1 ]} [0; 0; 0; 0] ∅ [] 0.

(** The same, with a condition on the join. *)
Definition boundOn : QueryContext :=
  withAQLQuery (withJoins [common.mkJoin "shapes" "s" ["ts >= 1"] []] query) bound.

(** References as the rewriter binds them. *)
Definition tsRef : expr.VarRef :=
  expr.mkVarRef "ts" expr.Unsigned 0 1 None [] memCom.Uint32 false.

Definition idRef : expr.VarRef :=
  expr.mkVarRef "id" expr.UUID 0 3 None [] memCom.UUID false.

Definition shapeRef : expr.VarRef :=
  expr.mkVarRef "s.d" expr.GeoShape 1 3 None [] memCom.GeoShape false.

Definition pointRef : expr.VarRef :=
  expr.mkVarRef "pickup" expr.GeoPoint 0 4 None [] memCom.GeoPoint false.

End SampleJoin.

(** ** The conditions the properties speak of *)

(** The token is UNARY_MINUS, BITWISE_NOT or lies in the token range
    ADD..BITWISE_LEFT_SHIFT, and some operand is a reference to a column
    whose data type is wider than four bytes. *)
Definition oversizeNumericOp (H : Helpers) (token : expr.Token)
    (expressions : list expr.Expr) : Prop :=
  (token = expr.UNARY_MINUS \/ token = expr.BITWISE_NOT
   \/ (expr.Token_code expr.ADD <= expr.Token_code token
       /\ expr.Token_code token <= expr.Token_code expr.BITWISE_LEFT_SHIFT))
  /\ exists varRef, expr.VarRefE varRef ∈ expressions
                    /\ 4 < DataTypeBytes H (expr.DataType varRef).

(** The top-level node of a filter is an AND. *)
Definition isTopAnd (f : expr.Expr) : bool :=
  match f with
  | expr.BinaryExpr expr.AND _ _ _ => true
  | _ => false
  end.

(** A piece of the compiler that leaves the context as it found it, or
    stores an error in it and changes nothing else. *)
Definition errorOnly {A} (m : M A) : Prop :=
  forall qc a qc', m qc = Ok (a, qc') ->
    qc' = qc \/ exists err, qc' = withError (Some err) qc.

(** The checks of [processMeasures] reject the measures: there is not
    exactly one, or the only one is neither a number literal nor a call
    with exactly one argument, or the binary HLL form is asked for and the
    call is not [hll]. *)
Definition measuresRejected (returnHLLBinary : bool)
    (measures : list common.Measure) : Prop :=
  length measures <> 1%nat
  \/ (exists measure,
        measures = [measure]
        /\ (forall n text ty, common.ExprParsed measure <> expr.NumberLiteral n text ty)
        /\ (forall Name arg ty, common.ExprParsed measure <> expr.Call Name [arg] ty))
  \/ (returnHLLBinary = true
      /\ exists measure Name Args ty,
           measures = [measure]
           /\ common.ExprParsed measure = expr.Call Name Args ty
           /\ Name <> expr.HllCallName).

(** The columns a wildcard stands for: those of the table that are neither
    deleted nor geo shapes, in the order of the schema. *)
Definition wildcardColumns (table : memCom.TableSchema) : list memCom.Column :=
  List.filter
    (fun column => negb (memCom.Deleted column)
                   && negb (bool_decide (memCom.Type_ column = memCom.GeoShape)))
    (memCom.Columns table).

(** The dimension that refers to a column by its name. *)
Definition columnDimension (column : memCom.Column) : common.Dimension :=
  common.mkDimension (memCom.Name column)
    (expr.VarRefE (expr.newVarRef (memCom.Name column))).

(** The dimensions one raw dimension of a non-aggregation query turns into,
    as the claim has it: a wildcard becomes the columns it stands for, any
    other dimension stays, with its parsed expression. *)
Definition expandedDimension (H : Helpers) (table : memCom.TableSchema)
    (dim : common.Dimension) : list common.Dimension :=
  match ParseExpr H (common.DimExpr dim) with
  | Some expr.Wildcard => columnDimension <$> wildcardColumns table
  | Some parsed => [common.mkDimension (common.DimExpr dim) parsed]
  | None => []
  end.

(** The data width of a dimension, in bytes, and that of the dimension at
    position [k] of a list. *)
Definition widthOf (H : Helpers) (dim : common.Dimension) : Z :=
  GetDimensionDataBytes H (common.DimExprParsed dim).

Definition widthAt (H : Helpers) (dimensions : list common.Dimension) (k : nat) : Z :=
  match dimensions !! k with
  | Some dim => widthOf H dim
  | None => 0
  end.

(** The positions the inner loop of [sortDimensionColumns] assigns to, in
    the order it meets them: those of the dimensions of width [byteWidth],
    counted from [originIndex]. *)
Fixpoint bucketHits (H : Helpers) (byteWidth : Z)
    (dimensions : list common.Dimension) (originIndex : nat) : list nat :=
  match dimensions with
  | [] => []
  | dim :: rest =>
      if decide (widthOf H dim = byteWidth)
      then originIndex :: bucketHits H byteWidth rest (S originIndex)
      else bucketHits H byteWidth rest (S originIndex)
  end.

(** Writing the numbers [next], [next + 1], ... at the given positions. *)
Fixpoint assignFrom (positions : list nat) (next : Z) (index : list Z) : list Z :=
  match positions with
  | [] => index
  | k :: rest => assignFrom rest (next + 1) (<[k := next]> index)
  end.

(** The order in which four buckets of widths 8, 4, 2 and 1 take the
    dimensions. *)
Definition layoutOrder (H : Helpers) (dimensions : list common.Dimension) : list nat :=
  bucketHits H 8 dimensions 0 ++ bucketHits H 4 dimensions 0
  ++ bucketHits H 2 dimensions 0 ++ bucketHits H 1 dimensions 0.

(** Dimension [i] is to come before dimension [j]: it is wider, or as wide
    and earlier in the query. *)
Definition widerFirst (H : Helpers) (dimensions : list common.Dimension)
    (i j : nat) : Prop :=
  widthAt H dimensions j < widthAt H dimensions i
  \/ (widthAt H dimensions i = widthAt H dimensions j /\ (i < j)%nat).

(** The sum of a list of integers. *)
Definition sumZ (l : list Z) : Z := foldr Z.add 0 l.

(** Every node reachable in an expression has an expression type other
    than UnknownType (a nil slot counts as untyped). *)
Fixpoint allTyped (e : expr.Expr) : bool :=
  negb (bool_decide (expr.typeOf e = expr.UnknownType))
  && match e with
     | expr.Nil => false
     | expr.UnaryExpr _ c _ | expr.ParenExpr c _ => allTyped c
     | expr.BinaryExpr _ l r _ => allTyped l && allTyped r
     | expr.Call _ Args _ => forallb allTyped Args
     | expr.Case WhenThens Else _ =>
         forallb (fun whenThen => allTyped (fst whenThen) && allTyped (snd whenThen))
           WhenThens
         && allTyped Else
     | _ => true
     end.

(** The same for every parsed slot of a query. *)
Definition queryTyped (q : common.AQLQuery) : bool :=
  forallb (fun join => forallb allTyped (common.ConditionsParsed join)) (common.Joins q)
  && forallb (fun measure => allTyped (common.ExprParsed measure)
                             && forallb allTyped (common.FiltersParsed measure))
       (common.Measures q)
  && forallb (fun dim => allTyped (common.DimExprParsed dim)) (common.Dimensions q)
  && forallb allTyped (common.QueryFiltersParsed q).

(** The expressions on which the rewriter leaves no untyped node: typed
    number literals, boolean and geo point literals, column references,
    parentheses, unary operators, binary operators other than IN and
    NOT_IN, cases, and calls other than [hour] and [list]; a string literal
    only as a time zone of [convert_tz]; no wildcard. *)
Fixpoint plain (H : Helpers) (e : expr.Expr) : bool :=
  match e with
  | expr.Nil | expr.StringLiteral _ | expr.Wildcard => false
  | expr.NumberLiteral _ _ ty => negb (bool_decide (ty = expr.UnknownType))
  | expr.BooleanLiteral _ | expr.GeopointLiteral _ | expr.VarRefE _ => true
  | expr.UnaryExpr _ c _ | expr.ParenExpr c _ => plain H c
  | expr.BinaryExpr Op l r _ =>
      negb (bool_decide (Op = expr.IN)) && negb (bool_decide (Op = expr.NOT_IN))
      && plain H l && plain H r
  | expr.Call Name Args _ =>
      negb (bool_decide (ToLower H Name = expr.HourCallName))
      && negb (bool_decide (ToLower H Name = expr.ListCallName))
      && if bool_decide (ToLower H Name = expr.ConvertTzCallName)
         then match Args with
              | [ts; expr.StringLiteral _; expr.StringLiteral _] => plain H ts
              | _ => false
              end
         else forallb (plain H) Args
  | expr.Case WhenThens Else _ =>
      forallb (fun whenThen => plain H (fst whenThen) && plain H (snd whenThen))
        WhenThens
      && plain H Else
  end.

(** A cast to a known type of an expression without untyped node has no
    untyped node. *)
Definition castTyped (H : Helpers) : Prop :=
  forall e t, t <> expr.UnknownType -> allTyped e = true ->
    allTyped (Cast H e t) = true.

(** Every column of every bound table has a data type with a known
    expression type. *)
Definition typedColumns (H : Helpers) (qc : QueryContext) : Prop :=
  forall table dataType,
    Some table ∈ Tables qc ->
    dataType ∈ memCom.ValueTypeByColumn table ->
    DataTypeToExprType H dataType <> expr.UnknownType.

(** The computation ends in [a], on a context without error that it leaves
    as it found it. *)
Definition clean {A} (m : M A) (qc : QueryContext) (a : A) : Prop :=
  m qc = Ok (a, qc) /\ Error_ qc = None.

(** The arguments of a call, once rewritten, hold no untyped node; for
    [convert_tz] that is asked of the time only, and the two zones are
    string literals. *)
Definition callArgsTyped (H : Helpers) (Name : string) (Args : list expr.Expr) : bool :=
  if bool_decide (ToLower H Name = expr.ConvertTzCallName)
  then match Args with
       | [ts; expr.StringLiteral _; expr.StringLiteral _] => allTyped ts
       | _ => false
       end
  else forallb allTyped Args.

(** The context an IN expansion leaves: an error is stored when the left
    side is no column reference. *)
Definition afterExpandIN (LHS : expr.Expr) (qc : QueryContext) : QueryContext :=
  if isVarRef LHS then qc else withError (Some ErrInLhsNotColumn) qc.

(** The texts of a query that the rewriter is sure to type: every text
    that parses gives a plain expression; a dimension may also be the
    wildcard, when the only measure is a number literal (the query is then
    a non-aggregation query, which expands the wildcard). *)
Definition plainText (H : Helpers) (text : string) : Prop :=
  forall e, ParseExpr H text = Some e -> plain H e = true.

Definition numberMeasure (H : Helpers) (q : common.AQLQuery) : Prop :=
  exists measure n text ty,
    common.Measures q = [measure]
    /\ ParseExpr H (common.Expr measure) = Some (expr.NumberLiteral n text ty).

Definition plainQuery (H : Helpers) (q : common.AQLQuery) : Prop :=
  Forall (fun join => Forall (plainText H) (common.Conditions join)) (common.Joins q)
  /\ Forall (fun measure => plainText H (common.Expr measure)
                            /\ Forall (plainText H) (common.Filters measure))
       (common.Measures q)
  /\ Forall (fun dim =>
               forall e, ParseExpr H (common.DimExpr dim) = Some e ->
                 plain H e = true \/ (e = expr.Wildcard /\ numberMeasure H q))
       (common.Dimensions q)
  /\ Forall (plainText H) (common.QueryFilters q).

(** Every column of every table the schema reader knows has a data type
    with a known expression type. *)
Definition typedSchemas (H : Helpers) (reader : string -> option memCom.TableSchema)
    : Prop :=
  forall name table dataType,
    reader name = Some table ->
    dataType ∈ memCom.ValueTypeByColumn table ->
    DataTypeToExprType H dataType <> expr.UnknownType.

(** Two contexts with the same bound tables and queries that differ at most
    in their measures and their limit. *)
Definition sameButMeasures (qc qc' : QueryContext) : Prop :=
  Tables qc' = Tables qc
  /\ common.Joins (AQLQuery qc') = common.Joins (AQLQuery qc)
  /\ common.Dimensions (AQLQuery qc') = common.Dimensions (AQLQuery qc)
  /\ common.QueryFilters (AQLQuery qc') = common.QueryFilters (AQLQuery qc)
  /\ common.QueryFiltersParsed (AQLQuery qc') = common.QueryFiltersParsed (AQLQuery qc).

(** ** The conditions the further properties speak of *)

(** The conjuncts of a filter: what is left of it once every AND at its
    top is split. *)
Fixpoint conjuncts (f : expr.Expr) : list expr.Expr :=
  match f with
  | expr.BinaryExpr expr.AND LHS RHS _ => conjuncts LHS ++ conjuncts RHS
  | _ => [f]
  end.

(** The alias under which a join is known to the query: its own, or the
    name of its table when it has none. *)
Definition joinAlias (join : common.Join) : string :=
  if decide (common.Alias join = EmptyString)
  then common.JoinTable join else common.Alias join.

(** The schema reader knows the main table and the table of every join, and
    no alias is used twice. *)
Definition schemasBindable (reader : string -> option memCom.TableSchema)
    (q : common.AQLQuery) : Prop :=
  is_Some (reader (common.Table q))
  /\ Forall (fun join => is_Some (reader (common.JoinTable join))) (common.Joins q)
  /\ NoDup (common.Table q :: (joinAlias <$> common.Joins q)).

(** Every alias of the context stands for a bound table. *)
Definition aliasesBound (qc : QueryContext) : Prop :=
  forall alias tableID,
    TableIDByAlias qc !! alias = Some tableID ->
    0 <= tableID /\ exists table, Tables qc !! Z.to_nat tableID = Some (Some table).

(** The column ids of a schema point into its columns and its value types. *)
Definition schemaConsistent (table : memCom.TableSchema) : Prop :=
  forall name columnID,
    memCom.ColumnIDs table !! name = Some columnID ->
    0 <= columnID
    /\ is_Some (memCom.Columns table !! Z.to_nat columnID)
    /\ is_Some (memCom.ValueTypeByColumn table !! Z.to_nat columnID).

(** A reference that the rewriter bound to a column of [table]: its name is
    kept, and its types are those of the column. *)
Definition boundTo (H : Helpers) (qc : QueryContext) (e : expr.VarRef)
    (bound : expr.VarRef) : Prop :=
  expr.Val bound = expr.Val e
  /\ expr.ExprType bound = DataTypeToExprType H (expr.DataType bound)
  /\ exists table column,
       Tables qc !! Z.to_nat (expr.TableID bound) = Some (Some table)
       /\ memCom.Columns table !! Z.to_nat (expr.ColumnID bound) = Some column
       /\ memCom.Deleted column = false
       /\ memCom.ValueTypeByColumn table !! Z.to_nat (expr.ColumnID bound)
          = Some (expr.DataType bound)
       /\ expr.IsHLLColumn bound = memCom.IsHLLColumn column.

(** The text holds no dot. *)
Fixpoint dotFree (s : string) : bool :=
  match s with
  | EmptyString => true
  | String c rest => negb (Ascii.eqb c "."%char) && dotFree rest
  end.

(** The disjunction the IN expansion builds from the comparisons of a
    list, the first one innermost; the OR nodes are given no type. *)
Definition orChain (comparisons : list expr.Expr) : expr.Expr :=
  match comparisons with
  | [] => expr.BooleanLiteral false
  | first :: rest =>
      foldl (fun chain comparison =>
               expr.BinaryExpr expr.OR chain comparison expr.UnknownType)
            first rest
  end.

(** The comparison of an enum column with the code its dictionary has for
    a string, -1 when it has none. *)
Definition enumComparison (lhs : expr.VarRef) (dict : gmap string Z) (val : string)
    : expr.Expr :=
  expr.BinaryExpr expr.EQ (expr.VarRefE lhs)
    (expr.NumberLiteral (default (-1) (dict !! val)) EmptyString expr.Unsigned)
    expr.Boolean.

(** The highest among a type and the types of a list of expressions. *)
Definition highestOf (t : expr.Type_) (es : list expr.Expr) : expr.Type_ :=
  foldl (fun highest e => higherType highest (expr.typeOf e)) t es.

(** The parsed slots of a query are nil or empty, as before compilation. *)
Definition unparsed (q : common.AQLQuery) : Prop :=
  Forall (fun join => Forall (fun e => e = expr.Nil) (common.ConditionsParsed join))
    (common.Joins q)
  /\ Forall (fun dim => common.DimExprParsed dim = expr.Nil) (common.Dimensions q)
  /\ Forall (fun measure => common.ExprParsed measure = expr.Nil) (common.Measures q)
  /\ Forall (fun e => e = expr.Nil) (common.QueryFiltersParsed q).

(** * Properties *)

(** ** The four-byte rule *)

Lemma isBlockedToken_spec (token : expr.Token) :
  isBlockedToken token = true <->
  token = expr.UNARY_MINUS \/ token = expr.BITWISE_NOT
  \/ (expr.Token_code expr.ADD <= expr.Token_code token
      /\ expr.Token_code token <= expr.Token_code expr.BITWISE_LEFT_SHIFT).
Proof.
  unfold isBlockedToken.
  rewrite !orb_true_iff, andb_true_iff, !bool_decide_eq_true, !Z.leb_le.
  tauto.
Qed.

(** Under the modelled numbering, the range ADD..BITWISE_LEFT_SHIFT holds
    the arithmetic operators and the bitwise operators up to the left
    shift, all of them binary. *)
Lemma token_range_binary (token : expr.Token) :
  expr.Token_code expr.ADD <= expr.Token_code token
  /\ expr.Token_code token <= expr.Token_code expr.BITWISE_LEFT_SHIFT <->
  token ∈ [expr.ADD; expr.SUB; expr.MUL; expr.DIV; expr.MOD;
           expr.BITWISE_AND; expr.BITWISE_OR; expr.BITWISE_XOR;
           expr.BITWISE_LEFT_SHIFT].
Proof.
  split.
  - intros [Hlo Hhi]. destruct token; simpl in Hlo, Hhi; try lia;
      repeat (first [ apply list_elem_of_here | apply list_elem_of_further ]).
  - intros Hin. repeat (apply elem_of_cons in Hin as [-> | Hin]; [simpl; lia |]).
    by apply elem_of_nil in Hin.
Qed.

Lemma firstOversizeColumn_Some (H : Helpers) (expressions : list expr.Expr) :
  firstOversizeColumn H expressions = Some ErrOversizeNumericOp <->
  exists varRef, expr.VarRefE varRef ∈ expressions
                 /\ 4 < DataTypeBytes H (expr.DataType varRef).
Proof.
  induction expressions as [| e rest IH]; simpl.
  - split; [done | intros (v & Hin & _); by apply elem_of_nil in Hin].
  - destruct e;
      try (rewrite IH; split;
           [ intros (v & Hin & Hv); exists v; split; [by right | done]
           | intros (v' & Hin & Hv); apply elem_of_cons in Hin as [Heq | Hin];
             [discriminate Heq | by exists v'] ]).
    destruct (4 <? DataTypeBytes H (expr.DataType v)) eqn:Hw.
    + apply Z.ltb_lt in Hw. split; [| done].
      intros _. exists v. split; [by left | done].
    + apply Z.ltb_ge in Hw. rewrite IH. split.
      * intros (v' & Hin & Hv). exists v'. split; [by right | done].
      * intros (v' & Hin & Hv). apply elem_of_cons in Hin as [Heq | Hin].
        -- injection Heq as ->. lia.
        -- by exists v'.
Qed.

Lemma firstOversizeColumn_error (H : Helpers) (expressions : list expr.Expr) err :
  firstOversizeColumn H expressions = Some err -> err = ErrOversizeNumericOp.
Proof.
  induction expressions as [| e rest IH]; simpl; [done |].
  destruct e; try exact IH.
  destruct (4 <? _); [by intros [= <-] | exact IH].
Qed.

(** C9: the four-byte check answers the oversize error exactly when the
    token is UNARY_MINUS, BITWISE_NOT or lies in the token range
    ADD..BITWISE_LEFT_SHIFT and some operand is a column reference whose data
    type is wider than four bytes; it answers no other error, and no error
    at all otherwise. *)
Theorem blockNumericOps_fails_iff (H : Helpers) (token : expr.Token)
    (expressions : list expr.Expr) :
  (blockNumericOpsForColumnOverFourBytes H token expressions
     = Some ErrOversizeNumericOp <-> oversizeNumericOp H token expressions)
  /\ (blockNumericOpsForColumnOverFourBytes H token expressions = None
      <-> ~ oversizeNumericOp H token expressions).
Proof.
  unfold oversizeNumericOp, blockNumericOpsForColumnOverFourBytes.
  pose proof (isBlockedToken_spec token) as Htok.
  pose proof (firstOversizeColumn_Some H expressions) as Hcol.
  destruct (isBlockedToken token) eqn:Hb.
  - assert (Ht : token = expr.UNARY_MINUS \/ token = expr.BITWISE_NOT
                 \/ (expr.Token_code expr.ADD <= expr.Token_code token
                     /\ expr.Token_code token
                        <= expr.Token_code expr.BITWISE_LEFT_SHIFT))
      by (by apply Htok).
    split; [rewrite Hcol; tauto |].
    destruct (firstOversizeColumn H expressions) as [err |] eqn:Hf.
    + apply firstOversizeColumn_error in Hf as Herr. subst err.
      split; [done |]. intros Hn. exfalso. apply Hn. tauto.
    + split; [| done]. intros _ [_ Hex]. apply Hcol in Hex. discriminate.
  - assert (Ht : ~ (token = expr.UNARY_MINUS \/ token = expr.BITWISE_NOT
                    \/ (expr.Token_code expr.ADD <= expr.Token_code token
                        /\ expr.Token_code token
                           <= expr.Token_code expr.BITWISE_LEFT_SHIFT)))
      by (intros Ht; apply Htok in Ht; discriminate).
    split; split; try done; tauto.
Qed.

(** ** The filter normaliser *)

Lemma isTopAnd_true (f : expr.Expr) :
  isTopAnd f = true -> exists LHS RHS ty, f = expr.BinaryExpr expr.AND LHS RHS ty.
Proof. destruct f as [| | | | | | | Op ? ? ? | | | |]; try done. destruct Op; try done. eauto. Qed.

Lemma andWeight_pos (f : expr.Expr) : (1 <= andWeight f)%nat.
Proof. destruct f as [| | | | | | | Op ? ? ? | | | |]; simpl; try lia. destruct Op; lia. Qed.

Lemma andWeight_other (f : expr.Expr) : isTopAnd f = false -> andWeight f = 1%nat.
Proof. destruct f as [| | | | | | | Op ? ? ? | | | |]; try done. by destruct Op. Qed.

Lemma normalizeLoop_end fuel i (filters : list expr.Expr) :
  filters !! i = None -> normalizeLoop (S fuel) i filters = Some filters.
Proof. intros Hi. simpl. by rewrite Hi. Qed.

Lemma normalizeLoop_and fuel i (filters : list expr.Expr) LHS RHS ty :
  filters !! i = Some (expr.BinaryExpr expr.AND LHS RHS ty) ->
  normalizeLoop (S fuel) i filters
  = normalizeLoop fuel i (<[i:=LHS]> filters ++ [RHS]).
Proof. intros Hi. simpl. by rewrite Hi. Qed.

Lemma normalizeLoop_other fuel i (filters : list expr.Expr) f :
  filters !! i = Some f -> isTopAnd f = false ->
  normalizeLoop (S fuel) i filters = normalizeLoop fuel (S i) filters.
Proof.
  intros Hi Hf. simpl. rewrite Hi.
  destruct f as [| | | | | | | Op ? ? ? | | | |]; try done. by destruct Op.
Qed.

(** The loop ends: the weight of the filters from [i] on bounds the
    iterations still to come. *)
Lemma normalizeLoop_total fuel : forall i (filters : list expr.Expr),
  (sum_list_with andWeight (drop i filters) < fuel)%nat ->
  is_Some (normalizeLoop fuel i filters).
Proof.
  induction fuel as [| fuel IH]; intros i filters Hfuel; [lia |].
  destruct (filters !! i) as [f |] eqn:Hi.
  - pose proof (lookup_lt_Some _ _ _ Hi) as Hlt.
    rewrite (drop_S _ _ _ Hi) in Hfuel. simpl in Hfuel.
    destruct (isTopAnd f) eqn:Hf.
    + apply isTopAnd_true in Hf as (LHS & RHS & ty & ->).
      rewrite (normalizeLoop_and _ _ _ _ _ _ Hi). apply IH.
      rewrite drop_app_le by (rewrite length_insert; lia).
      rewrite (drop_S (<[i:=LHS]> filters) LHS i)
        by (by apply list_lookup_insert_eq).
      rewrite drop_insert_lt by lia.
      rewrite sum_list_with_app. simpl in *. lia.
    + rewrite (normalizeLoop_other _ _ _ _ Hi Hf). apply IH.
      pose proof (andWeight_pos f). lia.
  - rewrite normalizeLoop_end; [eauto | done].
Qed.

Lemma normalizeAndFilters_loop (filters : list expr.Expr) :
  normalizeLoop (normalizeFuel filters) 0 filters
  = Some (normalizeAndFilters filters).
Proof.
  unfold normalizeAndFilters.
  destruct (normalizeLoop_total (normalizeFuel filters) 0 filters) as [r Hr].
  - unfold normalizeFuel. rewrite drop_0. lia.
  - by rewrite Hr.
Qed.

(** What the loop has stepped over holds no top-level AND, so neither does
    what it returns. *)
Lemma normalizeLoop_no_and fuel : forall i (filters r : list expr.Expr),
  normalizeLoop fuel i filters = Some r ->
  (forall k f, (k < i)%nat -> filters !! k = Some f -> isTopAnd f = false) ->
  Forall (fun f => isTopAnd f = false) r.
Proof.
  induction fuel as [| fuel IH]; intros i filters r Hloop Hdone; [done |].
  destruct (filters !! i) as [f |] eqn:Hi.
  - pose proof (lookup_lt_Some _ _ _ Hi) as Hlt.
    destruct (isTopAnd f) eqn:Hf.
    + apply isTopAnd_true in Hf as (LHS & RHS & ty & ->).
      rewrite (normalizeLoop_and _ _ _ _ _ _ Hi) in Hloop.
      apply IH in Hloop; [done |]. intros k f Hk Hkf.
      rewrite lookup_app_l in Hkf by (rewrite length_insert; lia).
      rewrite list_lookup_insert_ne in Hkf by lia. eauto.
    + rewrite (normalizeLoop_other _ _ _ _ Hi Hf) in Hloop.
      apply IH in Hloop; [done |]. intros k f' Hk Hkf.
      destruct (decide (k = i)) as [-> | Hne]; [congruence |].
      apply (Hdone k); [lia | done].
  - rewrite normalizeLoop_end in Hloop by done. injection Hloop as <-.
    apply Forall_lookup. intros k f Hkf. apply (Hdone k); [| done].
    apply lookup_lt_Some in Hkf. apply lookup_ge_None in Hi. lia.
Qed.

(** On filters without a top-level AND the loop changes nothing. *)
Lemma normalizeLoop_flat fuel : forall i (filters r : list expr.Expr),
  Forall (fun f => isTopAnd f = false) filters ->
  normalizeLoop fuel i filters = Some r -> r = filters.
Proof.
  induction fuel as [| fuel IH]; intros i filters r Hflat Hloop; [done |].
  destruct (filters !! i) as [f |] eqn:Hi.
  - rewrite (normalizeLoop_other _ _ _ f Hi) in Hloop; [by eapply IH |].
    by eapply (proj1 (Forall_lookup _ _) Hflat).
  - rewrite normalizeLoop_end in Hloop by done. congruence.
Qed.

Lemma normalizeAndFilters_flat (filters : list expr.Expr) :
  Forall (fun f => isTopAnd f = false) (normalizeAndFilters filters).
Proof.
  eapply (normalizeLoop_no_and _ 0 filters).
  - apply normalizeAndFilters_loop.
  - intros k f Hk. lia.
Qed.

(** C10: normalising twice gives what normalising once gives, and no
    element of the output is an AND at its top. *)
Theorem normalizeAndFilters_idempotent (filters : list expr.Expr) :
  normalizeAndFilters (normalizeAndFilters filters) = normalizeAndFilters filters
  /\ (forall LHS RHS ty,
        expr.BinaryExpr expr.AND LHS RHS ty ∉ normalizeAndFilters filters).
Proof.
  pose proof (normalizeAndFilters_flat filters) as Hflat. split.
  - pose proof (normalizeAndFilters_loop (normalizeAndFilters filters)) as Hl.
    by apply (normalizeLoop_flat _ _ _ _ Hflat) in Hl.
  - intros LHS RHS ty Hin.
    by apply (proj1 (Forall_forall _ _) Hflat) in Hin.
Qed.

(** C5 (as amended): on the filter list [AND(AND(p, q), r), s], with p, q,
    r and s no ANDs themselves, the normaliser yields [p, s, r, q]: every
    right side it splits off goes behind all the filters present at that
    moment, s included. *)
Theorem normalizeAndFilters_nested_and (p q r s : expr.Expr) (ty ty' : expr.Type_) :
  isTopAnd p = false -> isTopAnd q = false ->
  isTopAnd r = false -> isTopAnd s = false ->
  normalizeAndFilters
    [expr.BinaryExpr expr.AND (expr.BinaryExpr expr.AND p q ty) r ty'; s]
  = [p; s; r; q].
Proof.
  intros Hp Hq Hr Hs.
  pose proof (normalizeAndFilters_loop
    [expr.BinaryExpr expr.AND (expr.BinaryExpr expr.AND p q ty) r ty'; s]) as Hl.
  unfold normalizeFuel in Hl. cbn [sum_list_with andWeight] in Hl.
  rewrite !andWeight_other in Hl by done. cbn [Nat.add] in Hl.
  erewrite normalizeLoop_and in Hl by reflexivity. cbn [list_insert app] in Hl.
  erewrite normalizeLoop_and in Hl by reflexivity. cbn [list_insert app] in Hl.
  do 4 (erewrite normalizeLoop_other in Hl by (reflexivity || eassumption)).
  rewrite normalizeLoop_end in Hl by reflexivity.
  by injection Hl as <-.
Qed.

Lemma normalizeAndFilters_nested_and_witness :
  normalizeAndFilters
    [expr.BinaryExpr expr.AND
       (expr.BinaryExpr expr.AND (Sample.ref "p") (Sample.ref "q") expr.Boolean)
       (Sample.ref "r") expr.Boolean;
     Sample.ref "s"]
  = [Sample.ref "p"; Sample.ref "s"; Sample.ref "r"; Sample.ref "q"].
Proof.
  apply (normalizeAndFilters_nested_and (Sample.ref "p") (Sample.ref "q")
           (Sample.ref "r") (Sample.ref "s")); reflexivity.
Defined.

(** C5 as stated fails: the list [p, r, q, s] is not what the normaliser
    returns for four distinct column references. *)
Lemma normalizeAndFilters_nested_and_not_in_order :
  isTopAnd (Sample.ref "p") = false /\ isTopAnd (Sample.ref "q") = false
  /\ isTopAnd (Sample.ref "r") = false /\ isTopAnd (Sample.ref "s") = false
  /\ normalizeAndFilters
       [expr.BinaryExpr expr.AND
          (expr.BinaryExpr expr.AND (Sample.ref "p") (Sample.ref "q") expr.Boolean)
          (Sample.ref "r") expr.Boolean;
        Sample.ref "s"]
     <> [Sample.ref "p"; Sample.ref "r"; Sample.ref "q"; Sample.ref "s"].
Proof.
  repeat split; try reflexivity.
  vm_compute. discriminate.
Qed.

(** ** The rewriter on comparisons and on IN *)

(** C4: on an EQ or NEQ node whose left side is a column reference with an
    enum dictionary and whose right side is a string literal, the rewriter
    puts in place of the string an Unsigned number literal holding the
    dictionary's value for it, and -1 when the dictionary has no such
    string; the node becomes Boolean and the context, its error slot
    included, is left as it was. *)
Theorem Rewrite_enum_equality (H : Helpers) (qc : QueryContext) (Op : expr.Token)
    (lhs : expr.VarRef) (val : string) (ty : expr.Type_) (dict : gmap string Z) :
  Op = expr.EQ \/ Op = expr.NEQ ->
  expr.EnumDict lhs = Some dict ->
  Rewrite H (expr.BinaryExpr Op (expr.VarRefE lhs) (expr.StringLiteral val) ty) qc
  = Ok (expr.BinaryExpr Op (expr.VarRefE lhs)
          (expr.NumberLiteral
             (match dict !! val with Some value => value | None => -1 end)
             EmptyString expr.Unsigned)
          expr.Boolean,
        qc).
Proof.
  intros HOp Hdict.
  unfold Rewrite, RewriteNode, rewriteBinary, blockNumericOpsForColumnOverFourBytes.
  destruct HOp as [-> | ->]; cbn; unfold rewriteEquality; cbn;
    rewrite Hdict; by destruct (dict !! val).
Qed.

Lemma Rewrite_enum_equality_witness :
  Rewrite Sample.helpers
    (expr.BinaryExpr expr.EQ (expr.VarRefE Sample.cityRef)
       (expr.StringLiteral "XYZ") expr.UnknownType)
    (Sample.bound (Sample.query "trips" "count(*)" [] ["city = 'XYZ'"]))
  = Ok (expr.BinaryExpr expr.EQ (expr.VarRefE Sample.cityRef)
          (expr.NumberLiteral (-1) EmptyString expr.Unsigned) expr.Boolean,
        Sample.bound (Sample.query "trips" "count(*)" [] ["city = 'XYZ'"])).
Proof.
  exact (Rewrite_enum_equality Sample.helpers _ expr.EQ Sample.cityRef "XYZ"
           expr.UnknownType Sample.cityDict (or_introl eq_refl) eq_refl).
Defined.

(** C6 (as amended): for an IN node whose right side is a call without
    arguments and whose left side is neither nil nor a string literal, the
    rewriter returns the boolean literal false; for the NOT_IN node it
    returns that literal under a NOT, which it does not fold. *)
Theorem Rewrite_empty_in (H : Helpers) (qc : QueryContext) (LHS : expr.Expr)
    (Name : string) (ty ty' : expr.Type_) :
  LHS <> expr.Nil -> isStringLiteral LHS = false ->
  Rewrite H (expr.BinaryExpr expr.IN LHS (expr.Call Name [] ty') ty) qc
  = Ok (expr.BooleanLiteral false, afterExpandIN LHS qc)
  /\ Rewrite H (expr.BinaryExpr expr.NOT_IN LHS (expr.Call Name [] ty') ty) qc
     = Ok (expr.UnaryExpr expr.NOT (expr.BooleanLiteral false) expr.UnknownType,
           afterExpandIN LHS qc).
Proof.
  intros Hnil Hstr.
  unfold Rewrite, RewriteNode, rewriteBinary, blockNumericOpsForColumnOverFourBytes.
  destruct LHS; try done; split; reflexivity.
Qed.

Lemma Rewrite_empty_in_witness :
  Rewrite Sample.helpers
    (expr.BinaryExpr expr.IN (expr.VarRefE Sample.cityRef)
       (expr.Call "list" [] expr.UnknownType) expr.UnknownType)
    (Sample.bound (Sample.query "trips" "count(*)" [] []))
  = Ok (expr.BooleanLiteral false,
        Sample.bound (Sample.query "trips" "count(*)" [] [])).
Proof.
  refine (proj1 (Rewrite_empty_in Sample.helpers _ (expr.VarRefE Sample.cityRef)
                   "list" expr.UnknownType expr.UnknownType _ _));
    [ discriminate | reflexivity ].
Defined.

(** C6 as stated fails on NOT_IN: the rewriter answers NOT(false), not the
    boolean literal true. *)
Lemma Rewrite_empty_not_in_is_not_true :
  exists e, Rewrite Sample.helpers
              (expr.BinaryExpr expr.NOT_IN (expr.VarRefE Sample.cityRef)
                 (expr.Call "list" [] expr.UnknownType) expr.UnknownType)
              (Sample.bound (Sample.query "trips" "count(*)" [] []))
            = Ok (e, Sample.bound (Sample.query "trips" "count(*)" [] []))
            /\ e = expr.UnaryExpr expr.NOT (expr.BooleanLiteral false)
                     expr.UnknownType
            /\ e <> expr.BooleanLiteral true.
Proof.
  exists (expr.UnaryExpr expr.NOT (expr.BooleanLiteral false) expr.UnknownType).
  split; [reflexivity |]. split; [reflexivity | discriminate].
Qed.

(** C2: the rewriter panics on an EQ or NEQ node with a string literal on
    the right and a number literal on the left (the nil column reference is
    asked for its data type), and on an IN node over a column whose list
    holds a boolean literal (the rewritten comparison is a unary node, which
    the type assertion to a binary node rejects). *)
Theorem Rewrite_panics (H : Helpers) (qc : QueryContext) :
  (forall Op n text nty val ty,
     Op ∈ [expr.EQ; expr.NEQ] ->
     Rewrite H (expr.BinaryExpr Op (expr.NumberLiteral n text nty)
                  (expr.StringLiteral val) ty) qc = Panic)
  /\ (forall column Name val lty ty,
        Rewrite H (expr.BinaryExpr expr.IN (expr.VarRefE column)
                     (expr.Call Name [expr.BooleanLiteral val] lty) ty) qc
        = Panic).
Proof.
  split.
  - intros Op n text nty val ty HOp.
    unfold Rewrite, RewriteNode, rewriteBinary,
      blockNumericOpsForColumnOverFourBytes.
    apply elem_of_cons in HOp as [-> | HOp];
      [| apply elem_of_cons in HOp as [-> | HOp];
         [| by apply elem_of_nil in HOp]];
      by destruct nty.
  - intros column Name val lty ty.
    unfold Rewrite, RewriteNode, rewriteBinary,
      blockNumericOpsForColumnOverFourBytes.
    cbn. unfold bind, expandINop, expandINopWith. cbn.
    by destruct val.
Qed.

(** The two panics, met while compiling a query on the sample table. *)
Example Compile_panics_on_string_equality :
  Compile Sample.helpers Sample.reader
    (Sample.newContext (Sample.query "trips" "count(*)" [] ["1 = 'abc'"]) false)
  = Panic.
Proof. reflexivity. Qed.

Example Compile_panics_on_boolean_in_list :
  Compile Sample.helpers Sample.reader
    (Sample.newContext (Sample.query "trips" "count(*)" [] ["city IN (true)"]) false)
  = Panic.
Proof. reflexivity. Qed.

(** ** Induction on expressions *)

(** The induction principle of expressions, with the hypotheses for the
    arguments of a call and for the branches of a case. *)
Lemma Expr_nested_ind (P : expr.Expr -> Prop) :
  P expr.Nil ->
  (forall n text ty, P (expr.NumberLiteral n text ty)) ->
  (forall val, P (expr.StringLiteral val)) ->
  (forall val, P (expr.BooleanLiteral val)) ->
  (forall val, P (expr.GeopointLiteral val)) ->
  (forall v, P (expr.VarRefE v)) ->
  (forall Op e ty, P e -> P (expr.UnaryExpr Op e ty)) ->
  (forall Op LHS RHS ty, P LHS -> P RHS -> P (expr.BinaryExpr Op LHS RHS ty)) ->
  (forall Name Args ty, Forall P Args -> P (expr.Call Name Args ty)) ->
  (forall WhenThens Else ty,
     Forall (fun whenThen => P (fst whenThen) /\ P (snd whenThen)) WhenThens ->
     P Else -> P (expr.Case WhenThens Else ty)) ->
  (forall e ty, P e -> P (expr.ParenExpr e ty)) ->
  P expr.Wildcard ->
  forall e, P e.
Proof.
  intros HNil HNum HStr HBool HGeo HVar HUn HBin HCall HCase HParen HWild.
  fix IH 1. intros e. destruct e as
    [| n text ty | val | val | val | v | Op e ty | Op LHS RHS ty
     | Name Args ty | WhenThens Else ty | e ty |].
  - exact HNil.
  - apply HNum.
  - apply HStr.
  - apply HBool.
  - apply HGeo.
  - apply HVar.
  - apply HUn, IH.
  - apply HBin; apply IH.
  - apply HCall. induction Args as [| a Args IHArgs]; constructor;
      [apply IH | exact IHArgs].
  - apply HCase; [| apply IH].
    induction WhenThens as [| [w t] WhenThens IHwts]; constructor;
      [split; apply IH | exact IHwts].
  - apply HParen, IH.
  - exact HWild.
Qed.

(** ** The rewriter touches the error slot only *)

Lemma withError_withError e1 e2 qc : withError e2 (withError e1 qc) = withError e2 qc.
Proof. reflexivity. Qed.

Lemma errorOnly_ret {A} (a : A) : errorOnly (ret a).
Proof. intros qc a' qc' [= _ <-]. by left. Qed.

Lemma errorOnly_panic {A} : errorOnly (@panic A).
Proof. intros qc a qc' Hp. discriminate. Qed.

Lemma errorOnly_setError err : errorOnly (setError err).
Proof. intros qc a qc' [= _ <-]. right. by exists err. Qed.

Lemma errorOnly_getContext : errorOnly getContext.
Proof. intros qc a qc' [= _ <-]. by left. Qed.

Lemma errorOnly_bind {A B} (m : M A) (k : A -> M B) :
  errorOnly m -> (forall a, errorOnly (k a)) -> errorOnly (bind m k).
Proof.
  intros Hm Hk qc b qc'. unfold bind.
  destruct (m qc) as [| [a qc1]] eqn:Hmq; [done |]. intros Hkq.
  apply Hm in Hmq. apply Hk in Hkq.
  destruct Hmq as [-> | [e1 ->]]; [done |].
  destruct Hkq as [-> | [e2 ->]]; right; eauto.
Qed.

Lemma errorOnly_index {A} (l : list A) i : errorOnly (index l i).
Proof.
  unfold index. destruct (0 <=? i); [| apply errorOnly_panic].
  destruct (l !! Z.to_nat i); [apply errorOnly_ret | apply errorOnly_panic].
Qed.

Lemma errorOnly_TypeOf e : errorOnly (TypeOf e).
Proof. destruct e; first [apply errorOnly_panic | apply errorOnly_ret]. Qed.

Lemma errorOnly_CastM H e t : errorOnly (CastM H e t).
Proof.
  unfold CastM.
  destruct e; try apply errorOnly_panic;
    (destruct (castFails _ t); [apply errorOnly_panic | apply errorOnly_ret]).
Qed.

Lemma errorOnly_foldM {A B} (f : B -> A -> M B) (l : list A) :
  (forall b a, errorOnly (f b a)) -> forall b, errorOnly (foldM f l b).
Proof.
  intros Hf. induction l as [| a l IH]; intros b; simpl.
  - apply errorOnly_ret.
  - apply errorOnly_bind; [apply Hf | apply IH].
Qed.

Lemma errorOnly_mapM {A B} (f : A -> M B) (l : list A) :
  (forall a, errorOnly (f a)) -> errorOnly (mapM f l).
Proof.
  intros Hf. induction l as [| a l IH]; simpl.
  - apply errorOnly_ret.
  - apply errorOnly_bind; [apply Hf |]. intros b.
    apply errorOnly_bind; [apply IH |]. intros bs. apply errorOnly_ret.
Qed.

(** Splits a computation along its binds, its matches and its tests. *)
Ltac errorOnly_step :=
  lazymatch goal with
  | |- errorOnly (bind _ _) => apply errorOnly_bind; [| intros ?]
  | |- errorOnly (ret _) => apply errorOnly_ret
  | |- errorOnly panic => apply errorOnly_panic
  | |- errorOnly (setError _) => apply errorOnly_setError
  | |- errorOnly getContext => apply errorOnly_getContext
  | |- errorOnly (index _ _) => apply errorOnly_index
  | |- errorOnly (TypeOf _) => apply errorOnly_TypeOf
  | |- errorOnly (CastM _ _ _) => apply errorOnly_CastM
  | |- errorOnly (foldM _ _ _) => apply errorOnly_foldM; intros ? ?
  | |- errorOnly (mapM _ _) => apply errorOnly_mapM; intros ?
  | |- errorOnly (match ?x with _ => _ end) => destruct x
  | |- errorOnly (let '(_, _) := ?x in _) => destruct x
  end.

Ltac errorOnly_solve := repeat (errorOnly_step; try eassumption).

Lemma errorOnly_getTable tableID : errorOnly (getTable tableID).
Proof. unfold getTable. errorOnly_solve. Qed.

Lemma errorOnly_resolveColumn identifier : errorOnly (resolveColumn identifier).
Proof.
  unfold resolveColumn. apply errorOnly_bind; [apply errorOnly_getContext |].
  intros qc. destruct (match splitAtDot identifier with
                       | Some segments => segments
                       | None => (common.Table (AQLQuery qc), identifier)
                       end) as [tableAlias column].
  destruct (TableIDByAlias qc !! tableAlias); [| apply errorOnly_ret].
  apply errorOnly_bind; [apply errorOnly_getTable |]. intros table.
  errorOnly_solve.
Qed.

Lemma errorOnly_rewriteVarRef H e : errorOnly (rewriteVarRef H e).
Proof.
  unfold rewriteVarRef. apply errorOnly_bind; [apply errorOnly_resolveColumn |].
  intros [err | [tableID columnID]]; [errorOnly_solve |].
  apply errorOnly_bind; [apply errorOnly_getTable |]. intros table.
  errorOnly_solve.
Qed.

Lemma errorOnly_rewriteUnary H Op e ty : errorOnly (rewriteUnary H Op e ty).
Proof. unfold rewriteUnary. cbv zeta. errorOnly_solve. Qed.

Lemma errorOnly_rewriteEquality H Op LHS RHS highestType :
  errorOnly (rewriteEquality H Op LHS RHS highestType).
Proof. unfold rewriteEquality. cbv zeta. errorOnly_solve. Qed.

Lemma errorOnly_rewriteBinary H expandIN Op LHS RHS ty :
  (forall l r, errorOnly (expandIN l r)) ->
  errorOnly (rewriteBinary H expandIN Op LHS RHS ty).
Proof.
  intros HIN. unfold rewriteBinary. cbv zeta.
  destruct (blockNumericOpsForColumnOverFourBytes H Op [LHS; RHS]);
    [errorOnly_solve |].
  destruct (_ && _); [errorOnly_solve |].
  do 2 (apply errorOnly_bind; [apply errorOnly_TypeOf |]; intros ?).
  destruct Op; errorOnly_solve;
    first [apply errorOnly_rewriteEquality | apply HIN].
Qed.

Lemma errorOnly_rewriteCall H Name Args ty : errorOnly (rewriteCall H Name Args ty).
Proof. unfold rewriteCall. cbv zeta. errorOnly_solve. Qed.

Lemma errorOnly_rewriteCase H WhenThens Else ty :
  errorOnly (rewriteCase H WhenThens Else ty).
Proof. unfold rewriteCase. errorOnly_solve. Qed.

Lemma errorOnly_RewriteNode H expandIN expression :
  (forall l r, errorOnly (expandIN l r)) ->
  errorOnly (RewriteNode H expandIN expression).
Proof.
  intros HIN. destruct expression; simpl; try apply errorOnly_ret.
  - apply errorOnly_rewriteVarRef.
  - apply errorOnly_rewriteUnary.
  - by apply errorOnly_rewriteBinary.
  - apply errorOnly_rewriteCall.
  - apply errorOnly_rewriteCase.
Qed.

Lemma errorOnly_expandINop H LHS RHS : errorOnly (expandINop H LHS RHS).
Proof.
  unfold expandINop, expandINopWith. cbv zeta.
  assert (Hrw : forall e, errorOnly (rewriteComparison H e)).
  { intros e. apply errorOnly_RewriteNode. intros l r. apply errorOnly_panic. }
  assert (Hassert : forall e, errorOnly (assertBinaryExpr e)).
  { intros e. destruct e; first [apply errorOnly_panic | apply errorOnly_ret]. }
  apply errorOnly_bind; [errorOnly_solve |]. intros _.
  destruct RHS; try (errorOnly_solve; fail).
  apply errorOnly_foldM. intros expanded value.
  destruct (asVarRef LHS); [| apply errorOnly_panic].
  destruct expanded; errorOnly_solve; first [apply Hrw | apply Hassert].
Qed.

Lemma errorOnly_Rewrite H expression : errorOnly (Rewrite H expression).
Proof. apply errorOnly_RewriteNode, errorOnly_expandINop. Qed.

Lemma errorOnly_exprRewrite H e : errorOnly (exprRewrite H e).
Proof.
  induction e as
    [| n text ty | val | val | val | v | Op e ty IHe | Op LHS RHS ty IHl IHr
     | Name Args ty IHArgs | WhenThens Else ty IHwts IHElse | e ty IHe |]
    using Expr_nested_ind;
    try apply errorOnly_Rewrite; cbn [exprRewrite].
  - apply errorOnly_bind; [exact IHe |]. intros ?. apply errorOnly_Rewrite.
  - apply errorOnly_bind; [exact IHl |]. intros ?.
    apply errorOnly_bind; [exact IHr |]. intros ?. apply errorOnly_Rewrite.
  - apply errorOnly_bind; [| intros ?; apply errorOnly_Rewrite].
    induction IHArgs as [| a Args Ha _ IH]; [apply errorOnly_ret |].
    apply errorOnly_bind; [exact Ha |]. intros ?.
    apply errorOnly_bind; [exact IH |]. intros ?. apply errorOnly_ret.
  - apply errorOnly_bind.
    + induction IHwts as [| [w t] WhenThens [Hw Ht] _ IH]; [apply errorOnly_ret |].
      apply errorOnly_bind; [exact Hw |]. intros ?.
      apply errorOnly_bind; [exact Ht |]. intros ?.
      apply errorOnly_bind; [exact IH |]. intros ?. apply errorOnly_ret.
    + intros ?. apply errorOnly_bind; [exact IHElse |]. intros ?.
      apply errorOnly_Rewrite.
  - apply errorOnly_bind; [exact IHe |]. intros ?. apply errorOnly_Rewrite.
Qed.

(** ** The measure stage *)

Lemma errorOnly_parseAndRewrite H kind texts :
  errorOnly (parseAndRewrite H kind texts).
Proof.
  induction texts as [| text rest IH]; cbn [parseAndRewrite];
    [apply errorOnly_ret |].
  destruct (ParseExpr H text) as [parsed |]; [| errorOnly_solve].
  apply errorOnly_bind; [apply errorOnly_exprRewrite |]. intros e.
  apply errorOnly_bind; [apply errorOnly_getContext |]. intros qc.
  destruct (Error_ qc); [apply errorOnly_ret |].
  apply errorOnly_bind; [exact IH |]. intros [es ok]. apply errorOnly_ret.
Qed.

(** A loop that ran to its end met no error. *)
Lemma parseAndRewrite_ok H kind texts : forall qc es qc',
  parseAndRewrite H kind texts qc = Ok ((es, true), qc') ->
  Error_ qc = None -> Error_ qc' = None.
Proof.
  induction texts as [| text rest IH]; intros qc es qc'; cbn [parseAndRewrite].
  - by intros [= _ <-].
  - destruct (ParseExpr H text) as [parsed |]; [| done].
    unfold bind at 1. destruct (exprRewrite H parsed qc) as [| [e' qc1]]; [done |].
    unfold bind at 1, getContext at 1.
    destruct (Error_ qc1) eqn:Herr; [done |].
    unfold bind at 1.
    destruct (parseAndRewrite H kind rest qc1) as [| [[es' ok] qc2]] eqn:Hrest;
      [done |].
    intros [= _ -> <-] _. by eapply IH.
Qed.

(** A loop that stopped early stored an error. *)
Lemma parseAndRewrite_failed H kind texts : forall qc es qc',
  parseAndRewrite H kind texts qc = Ok ((es, false), qc') -> Error_ qc' <> None.
Proof.
  induction texts as [| text rest IH]; intros qc es qc'; cbn [parseAndRewrite].
  - done.
  - destruct (ParseExpr H text) as [parsed |].
    + unfold bind at 1.
      destruct (exprRewrite H parsed qc) as [| [e qc1]]; [done |].
      unfold bind at 1, getContext at 1.
      destruct (Error_ qc1) eqn:Herr.
      * intros [= _ <-]. by rewrite Herr.
      * unfold bind at 1.
        destruct (parseAndRewrite H kind rest qc1) as [| [[es' ok'] qc2]] eqn:Hrec;
          [done |].
        intros [= _ -> <-]. by eapply IH.
    + unfold bind, setError. by intros [= _ <-].
Qed.

Lemma errorOnly_processMeasure H measure : errorOnly (processMeasure H measure).
Proof.
  unfold processMeasure. destruct (ParseExpr H _) as [parsed |]; [| errorOnly_solve].
  apply errorOnly_bind; [apply errorOnly_exprRewrite |]. intros e.
  apply errorOnly_bind; [apply errorOnly_getContext |]. intros qc.
  destruct (Error_ qc); [apply errorOnly_ret |].
  apply errorOnly_bind; [apply errorOnly_parseAndRewrite |].
  intros [filters ok]. destruct ok; apply errorOnly_ret.
Qed.

Lemma processMeasure_ok H measure qc measure' qc' :
  processMeasure H measure qc = Ok (Some measure', qc') -> Error_ qc' = None.
Proof.
  unfold processMeasure. destruct (ParseExpr H _) as [parsed |]; [| done].
  unfold bind at 1. destruct (exprRewrite H parsed qc) as [| [e' qc1]]; [done |].
  unfold bind at 1, getContext at 1.
  destruct (Error_ qc1) eqn:Herr; [done |].
  unfold bind at 1.
  destruct (parseAndRewrite H _ _ qc1) as [| [[fs ok] qc2]] eqn:Hfs; [done |].
  destruct ok; [| done]. intros [= _ <-]. by eapply parseAndRewrite_ok.
Qed.

Lemma errorOnly_measuresLoop H measures : errorOnly (measuresLoop H measures).
Proof.
  induction measures as [| measure rest IH]; cbn [measuresLoop];
    [apply errorOnly_ret |].
  apply errorOnly_bind; [apply errorOnly_processMeasure |].
  intros [measure' |]; [| apply errorOnly_ret].
  apply errorOnly_bind; [exact IH |]. intros [rest' ok]. apply errorOnly_ret.
Qed.

Lemma measuresLoop_ok H measures : forall qc measures' qc',
  measuresLoop H measures qc = Ok ((measures', true), qc') ->
  length measures' = length measures
  /\ (measures <> [] -> Error_ qc' = None).
Proof.
  induction measures as [| measure rest IH]; intros qc measures' qc';
    cbn [measuresLoop].
  - by intros [= <- _].
  - unfold bind at 1.
    destruct (processMeasure H measure qc) as [| [[measure' |] qc1]] eqn:Hm;
      [done | | done].
    unfold bind at 1.
    destruct (measuresLoop H rest qc1) as [| [[rest' ok] qc2]] eqn:Hrest;
      [done |].
    intros [= <- -> <-]. pose proof (IH _ _ _ Hrest) as [Hlen Herr]. split.
    + simpl. by rewrite Hlen.
    + intros _. destruct rest as [| m rest]; [| by apply Herr].
      cbn [measuresLoop] in Hrest. injection Hrest as _ <-.
      by eapply processMeasure_ok.
Qed.

Lemma checkMeasures_spec (qc : QueryContext) :
  Error_ qc = None \/ length (common.Measures (AQLQuery qc)) <> 1%nat ->
  exists qc', checkMeasures qc = Ok (tt, qc')
    /\ (Error_ qc' <> None
        <-> measuresRejected (ReturnHLLBinary qc) (common.Measures (AQLQuery qc)))
    /\ (forall measure n text ty,
          common.Measures (AQLQuery qc) = [measure] ->
          common.ExprParsed measure = expr.NumberLiteral n text ty ->
          IsNonAggregationQuery qc' = true
          /\ common.Limit (AQLQuery qc')
             = (if decide (common.Limit (AQLQuery qc) = 0)
                then nonAggregationQueryLimit
                else common.Limit (AQLQuery qc))).
Proof.
  intros Hentry. unfold checkMeasures, bind, getContext, measuresRejected.
  destruct (common.Measures (AQLQuery qc)) as [| measure [| second rest]] eqn:Hms.
  - eexists. split; [reflexivity |]. split; [| done].
    split; [intros _; left; simpl; lia | done].
  - destruct Hentry as [Hnone | Hlen]; [| done].
    assert (Hone : forall m : common.Measure, [measure] = [m] -> m = measure)
      by (intros m [= <-]; done).
    destruct (common.ExprParsed measure) as
      [| n text nty | val | val | val | v | Op e ty | Op LHS RHS ty
       | Name Args ty | WhenThens Else ty | e ty |] eqn:Hparsed;
      try (eexists; split; [reflexivity |]; split;
           [ split; [| done]; intros _; right; left; exists measure;
             split; [done |]; split; intros; congruence
           | intros m ? ? ? Hm; apply Hone in Hm; subst m; congruence ]).
    + (* a number literal *)
      destruct (decide (common.Limit (AQLQuery qc) = 0)) as [Hlimit | Hlimit];
        (eexists; split; [reflexivity |]; split; [| by intros m ? ? ? Hm _]);
        (split; [by cbn |]);
        intros [Hlen | [(m & Hm & Hnum & _) | (_ & m & ? & ? & ? & Hm & Hcall & _)]];
        first [ done
              | apply Hone in Hm; subst m; by destruct (Hnum n text nty)
              | apply Hone in Hm; subst m; congruence ].
    + (* a call *)
      destruct (decide (length Args = 1%nat)) as [Hargs | Hargs].
      * destruct Args as [| arg [| ? ?]]; try done.
        destruct (ReturnHLLBinary qc) eqn:Hhll; cbn [andb].
        -- destruct (bool_decide (Name = expr.HllCallName)) eqn:Hname; cbn [negb].
           ++ apply bool_decide_eq_true in Hname.
              eexists. split; [reflexivity |]. split.
              ** split; [done |].
                 intros [Hlen | [(m & Hm & _ & Hcall) | (_ & m & ? & ? & ? & Hm & Hcall & Hne)]].
                 --- done.
                 --- apply Hone in Hm. subst m. by destruct (Hcall Name arg ty).
                 --- apply Hone in Hm. subst m. congruence.
              ** intros m ? ? ? Hm; apply Hone in Hm; subst m; congruence.
           ++ apply bool_decide_eq_false in Hname.
              eexists. split; [reflexivity |]. split.
              ** split; [| done]. intros _. right. right. split; [done |].
                 by exists measure, Name, [arg], ty.
              ** intros m ? ? ? Hm; apply Hone in Hm; subst m; congruence.
        -- eexists. split; [reflexivity |]. split.
           ** split; [done |].
              intros [Hlen | [(m & Hm & _ & Hcall) | (Hfalse & _)]].
              --- done.
              --- apply Hone in Hm. subst m. by destruct (Hcall Name arg ty).
              --- done.
           ** intros m ? ? ? Hm; apply Hone in Hm; subst m; congruence.
      * eexists. split; [reflexivity |]. split.
        -- split; [| done]. intros _. right. left. exists measure.
           split; [done |]. split; intros; [congruence |].
           intros Heq. rewrite Hparsed in Heq. injection Heq as _ -> _. done.
        -- intros m ? ? ? Hm; apply Hone in Hm; subst m; congruence.
  - eexists. split; [reflexivity |]. split; [| done].
    split; [intros _; left; simpl; lia | done].
Qed.

Lemma checkMeasures_measures (qc qc' : QueryContext) :
  checkMeasures qc = Ok (tt, qc') ->
  common.Measures (AQLQuery qc') = common.Measures (AQLQuery qc).
Proof.
  unfold checkMeasures, bind, getContext.
  destruct (common.Measures (AQLQuery qc)) as [| m [| m2 rest]] eqn:Hms;
    try by intros [= <-].
  destruct (common.ExprParsed m); try by intros [= <-].
  - destruct (decide (common.Limit _ = 0)); cbn; by intros [= <-].
  - destruct (decide (length _ = 1%nat)); cbn; [| by intros [= <-]].
    destruct (_ && _); cbn; by intros [= <-].
Qed.

(** A loop that stopped early stored an error, and left the measure it
    stopped at, and those after it, as they were. *)
Lemma processMeasure_failed H measure qc qc' :
  processMeasure H measure qc = Ok (None, qc') -> Error_ qc' <> None.
Proof.
  unfold processMeasure.
  destruct (ParseExpr H (common.Expr measure)) as [parsed |].
  - unfold bind at 1.
    destruct (exprRewrite H parsed qc) as [| [e qc1]]; [done |].
    unfold bind at 1, getContext at 1.
    destruct (Error_ qc1) eqn:Herr.
    + intros [= <-]. by rewrite Herr.
    + unfold bind at 1.
      destruct (parseAndRewrite H ErrParseMeasureFilter (common.Filters measure) qc1)
        as [| [[filters ok] qc2]] eqn:Hparse; [done |].
      destruct ok; [done |]. intros [= <-]. by eapply parseAndRewrite_failed.
  - unfold bind, setError. by intros [= <-].
Qed.

Lemma measuresLoop_failed H measures : forall qc measures' qc',
  measuresLoop H measures qc = Ok ((measures', false), qc') ->
  Error_ qc' <> None
  /\ length measures' = length measures
  /\ (forall measure, measures = [measure] -> measures' = [measure]).
Proof.
  induction measures as [| measure rest IH]; intros qc measures' qc';
    cbn [measuresLoop]; [done |].
  unfold bind at 1.
  destruct (processMeasure H measure qc) as [| [[measure' |] qc1]] eqn:Hm; [done | |].
  - unfold bind at 1.
    destruct (measuresLoop H rest qc1) as [| [[rest' ok] qc2]] eqn:Hrest; [done |].
    intros [= <- -> <-]. destruct (IH _ _ _ Hrest) as (Herr & Hlen & _).
    split; [done |]. split; [simpl; by rewrite Hlen |].
    intros m [= -> ->]. done.
  - intros [= <- <-]. split; [by eapply processMeasure_failed |].
    split; [done |]. by intros m [= -> ->].
Qed.




(** ** Wildcard dimensions *)

Lemma allColumnsDimension_filter (columns : list memCom.Column) :
  allColumnsDimension columns
  = columnDimension
      <$> List.filter
            (fun column =>
               negb (memCom.Deleted column)
               && negb (bool_decide (memCom.Type_ column = memCom.GeoShape)))
            columns.
Proof.
  induction columns as [| column rest IH]; [done |].
  cbn [allColumnsDimension List.filter].
  destruct (negb (memCom.Deleted column) && _); [| exact IH].
  rewrite fmap_cons. by rewrite IH.
Qed.

Lemma getAllColumnsDimension_main (qc : QueryContext) (table : memCom.TableSchema) :
  Tables qc !! 0%nat = Some (Some table) ->
  getAllColumnsDimension qc = Ok (columnDimension <$> wildcardColumns table, qc).
Proof.
  intros Hmain. unfold getAllColumnsDimension, getTable, bind, getContext, index.
  change (Z.to_nat 0) with 0%nat. cbn. rewrite Hmain. cbn.
  by rewrite allColumnsDimension_filter.
Qed.

(** C7: in a non-aggregation query whose dimensions all parse, the first
    loop of [processDimensions] replaces every wildcard dimension by one
    column reference per column of the main table that is neither deleted
    nor a geo shape, in the order of the schema, and keeps every other
    dimension in its place. *)
Theorem expandDimensions_wildcard (H : Helpers) (qc : QueryContext)
    (table : memCom.TableSchema) (rawDims dimensions : list common.Dimension) :
  IsNonAggregationQuery qc = true ->
  Tables qc !! 0%nat = Some (Some table) ->
  Forall (fun dim => is_Some (ParseExpr H (common.DimExpr dim))) rawDims ->
  expandDimensions H rawDims dimensions qc
  = Ok ((dimensions ++ concat (expandedDimension H table <$> rawDims), true), qc).
Proof.
  intros Hnon Hmain Hparse. revert dimensions.
  induction Hparse as [| dim rest [parsed Hdim] _ IH]; intros dimensions.
  - cbn. by rewrite app_nil_r.
  - cbn [expandDimensions fmap list_fmap concat]. unfold expandedDimension at 1.
    rewrite Hdim. unfold bind at 1, getContext at 1.
    assert (Hkeep :
      expandDimensions H rest
        (dimensions ++ [common.mkDimension (common.DimExpr dim) parsed]) qc
      = Ok ((dimensions
             ++ [common.mkDimension (common.DimExpr dim) parsed]
             ++ concat (expandedDimension H table <$> rest), true), qc))
      by (rewrite IH; by rewrite <- app_assoc).
    destruct parsed; try exact Hkeep.
    rewrite Hnon. unfold bind at 1.
    rewrite (getAllColumnsDimension_main qc table Hmain).
    rewrite IH. by rewrite <- app_assoc.
Qed.

Lemma expandDimensions_wildcard_witness :
  expandDimensions Sample.helpers [common.mkDimension "*" expr.Nil] []
    (Sample.boundShapes (Sample.query "shapes" "1" ["*"] []))
  = Ok (([common.mkDimension "a" (Sample.ref "a");
          common.mkDimension "c" (Sample.ref "c")], true),
        Sample.boundShapes (Sample.query "shapes" "1" ["*"] [])).
Proof.
  refine (expandDimensions_wildcard Sample.helpers
            (Sample.boundShapes (Sample.query "shapes" "1" ["*"] []))
            Sample.shapes [common.mkDimension "*" expr.Nil] []
            eq_refl eq_refl _).
  constructor; [| constructor]. by eexists.
Defined.

(** The fourth scenario of the specification, from end to end: the
    wildcard of a query with the measure 1 on a table with the columns a, b
    (a deleted geo shape), c and d (a geo shape). *)
Example Compile_wildcard_scenario :
  match Compile Sample.helpers Sample.reader
          (Sample.newContext (Sample.query "shapes" "1" ["*"] []) false) with
  | Ok (_, qc') =>
      Error_ qc' = None /\ IsNonAggregationQuery qc' = true
      /\ common.Limit (AQLQuery qc') = 1000
      /\ common.DimExpr <$> common.Dimensions (AQLQuery qc') = ["a"; "c"]
      /\ DimensionVectorIndex qc' = [0; 1]
      /\ DimRowBytes qc' = 7
  | Panic => False
  end.
Proof. vm_compute. repeat split. Qed.

(** ** The dimension layout *)

Lemma bucketLoop_spec (H : Helpers) (byteWidth : Z) (byteIndex : nat)
    (dimensions : list common.Dimension) : forall originIndex st,
  let hits := bucketHits H byteWidth dimensions originIndex in
  let st' := bucketLoop H byteWidth byteIndex dimensions originIndex st in
  vectorIndex st' = assignFrom hits (orderedIndex st) (vectorIndex st)
  /\ orderedIndex st' = orderedIndex st + Z.of_nat (length hits)
  /\ rowBytes st' = rowBytes st + byteWidth * Z.of_nat (length hits).
Proof.
  induction dimensions as [| dim rest IH]; intros originIndex st; cbn zeta.
  - cbn. repeat split; lia.
  - cbn [bucketLoop bucketHits].
    change (widthOf H dim) with (GetDimensionDataBytes H (common.DimExprParsed dim)).
    destruct (decide (GetDimensionDataBytes H (common.DimExprParsed dim) = byteWidth))
      as [Hw | Hw].
    + destruct (IH (S originIndex)
                  (mkLayout (<[originIndex := orderedIndex st]> (vectorIndex st))
                     (alter Z.succ byteIndex (dimCounts st))
                     (rowBytes st + GetDimensionDataBytes H (common.DimExprParsed dim))
                     (orderedIndex st + 1)))
        as (Hv & Ho & Hr).
      cbn [vectorIndex orderedIndex rowBytes] in Hv, Ho, Hr.
      rewrite Hv, Ho, Hr, Hw. cbn [assignFrom length].
      repeat split; lia.
    + apply IH.
Qed.

Lemma assignFrom_length positions : forall next index,
  length (assignFrom positions next index) = length index.
Proof.
  induction positions as [| k rest IH]; intros next index; cbn; [done |].
  by rewrite IH, length_insert.
Qed.

Lemma assignFrom_other positions : forall next index k,
  k ∉ positions -> assignFrom positions next index !! k = index !! k.
Proof.
  induction positions as [| k0 rest IH]; intros next index k Hk; cbn; [done |].
  apply not_elem_of_cons in Hk as [Hne Hk].
  rewrite IH by done. by apply list_lookup_insert_ne.
Qed.

(** The [j]-th position receives the [j]-th number. *)
Lemma assignFrom_lookup positions : forall next index j k,
  NoDup positions -> positions !! j = Some k -> (k < length index)%nat ->
  assignFrom positions next index !! k = Some (next + Z.of_nat j).
Proof.
  induction positions as [| k0 rest IH]; intros next index j k Hnd Hj Hk;
    [done |].
  apply NoDup_cons in Hnd as [Hk0 Hnd]. cbn [assignFrom].
  destruct j as [| j]; cbn in Hj.
  - injection Hj as ->. rewrite assignFrom_other by done.
    rewrite list_lookup_insert_eq by done. f_equal. lia.
  - rewrite (IH _ _ j k) by (rewrite ?length_insert; done). f_equal. lia.
Qed.

(** The hits of a bucket are the positions of its width, in ascending
    order. *)
Lemma bucketHits_filter (H : Helpers) (byteWidth : Z) (all : list common.Dimension) :
  forall dimensions originIndex,
  drop originIndex all = dimensions ->
  bucketHits H byteWidth dimensions originIndex
  = filter (fun k => widthAt H all k = byteWidth) (seq originIndex (length dimensions)).
Proof.
  induction dimensions as [| dim rest IH]; intros originIndex Hdrop; [done |].
  assert (Hlook : all !! originIndex = Some dim).
  { rewrite <- (Nat.add_0_r originIndex), <- lookup_drop, Hdrop. done. }
  assert (Hrest : drop (S originIndex) all = rest).
  { by rewrite (drop_S _ _ _ Hlook) in Hdrop; injection Hdrop. }
  assert (Hwidth : widthAt H all originIndex = widthOf H dim)
    by (unfold widthAt; by rewrite Hlook).
  cbn [bucketHits length seq]. rewrite (IH _ Hrest).
  destruct (decide (widthOf H dim = byteWidth)) as [Hw | Hw].
  - by rewrite filter_cons_True by congruence.
  - by rewrite filter_cons_False by congruence.
Qed.

Lemma layoutOrder_filter (H : Helpers) (dimensions : list common.Dimension) :
  layoutOrder H dimensions
  = filter (fun k => widthAt H dimensions k = 8) (seq 0 (length dimensions))
    ++ filter (fun k => widthAt H dimensions k = 4) (seq 0 (length dimensions))
    ++ filter (fun k => widthAt H dimensions k = 2) (seq 0 (length dimensions))
    ++ filter (fun k => widthAt H dimensions k = 1) (seq 0 (length dimensions)).
Proof.
  unfold layoutOrder. by rewrite !(bucketHits_filter H _ dimensions dimensions 0).
Qed.

(** Four buckets that every element falls into partition a list. *)
Lemma filter_buckets_permutation (f : nat -> Z) (l : list nat) :
  Forall (fun k => f k ∈ [8; 4; 2; 1]) l ->
  filter (fun k => f k = 8) l ++ filter (fun k => f k = 4) l
  ++ filter (fun k => f k = 2) l ++ filter (fun k => f k = 1) l ≡ₚ l.
Proof.
  induction 1 as [| k l Hk _ IH]; [done |].
  assert (Hcases : f k = 8 \/ f k = 4 \/ f k = 2 \/ f k = 1).
  { repeat (apply elem_of_cons in Hk as [Hk | Hk]; [tauto |]).
    by apply elem_of_nil in Hk. }
  destruct Hcases as [Hk' | [Hk' | [Hk' | Hk']]].
  - rewrite (filter_cons_True (fun k => f k = 8)) by done.
    rewrite !filter_cons_False by lia. cbn [app]. by rewrite IH.
  - rewrite (filter_cons_True (fun k => f k = 4)) by done.
    rewrite !filter_cons_False by lia. cbn [app].
    rewrite <- Permutation_middle. by rewrite IH.
  - rewrite (filter_cons_True (fun k => f k = 2)) by done.
    rewrite !filter_cons_False by lia. cbn [app].
    rewrite app_assoc, <- Permutation_middle, <- app_assoc. by rewrite IH.
  - rewrite (filter_cons_True (fun k => f k = 1)) by done.
    rewrite !filter_cons_False by lia. cbn [app].
    rewrite 2!app_assoc, <- Permutation_middle, <- 2!app_assoc. by rewrite IH.
Qed.

Lemma sumZ_app (l1 l2 : list Z) : sumZ (l1 ++ l2) = sumZ l1 + sumZ l2.
Proof. induction l1 as [| x l1 IH]; cbn; [done |]. fold (sumZ (l1 ++ l2)) (sumZ l1). lia. Qed.

Lemma sumZ_permutation (l1 l2 : list Z) : l1 ≡ₚ l2 -> sumZ l1 = sumZ l2.
Proof.
  induction 1 as [| x l1 l2 _ IH | x y l | l1 l2 l3 _ IH1 _ IH2]; cbn.
  - done.
  - fold (sumZ l1) (sumZ l2). lia.
  - lia.
  - congruence.
Qed.

Lemma sumZ_filter_width (f : nat -> Z) (w : Z) (l : list nat) :
  sumZ (f <$> filter (fun k => f k = w) l)
  = w * Z.of_nat (length (filter (fun k => f k = w) l)).
Proof.
  induction l as [| k l IH]; [cbn; lia |].
  destruct (decide (f k = w)) as [Hk | Hk].
  - rewrite filter_cons_True by done. cbn [fmap list_fmap length].
    change (sumZ (f k :: (f <$> filter (fun k => f k = w) l)))
      with (f k + sumZ (f <$> filter (fun k => f k = w) l)).
    rewrite IH. lia.
  - by rewrite filter_cons_False by done.
Qed.

Lemma widthAt_seq (H : Helpers) (dimensions : list common.Dimension) :
  widthAt H dimensions <$> seq 0 (length dimensions) = widthOf H <$> dimensions.
Proof.
  apply list_eq. intros k. rewrite !list_lookup_fmap.
  destruct (decide (k < length dimensions)%nat) as [Hk | Hk].
  - rewrite lookup_seq_lt by done. cbn. unfold widthAt.
    destruct (dimensions !! k) eqn:Hd; [done |].
    apply lookup_ge_None in Hd. lia.
  - rewrite lookup_seq_ge by lia. by rewrite lookup_ge_None_2 by lia.
Qed.

Section Layout.

Variable H : Helpers.
Variable dimensions : list common.Dimension.
Hypothesis Hwidths : Forall (fun dim => widthOf H dim ∈ [8; 4; 2; 1]) dimensions.

Lemma widthAt_bucket (k : nat) :
  (k < length dimensions)%nat -> widthAt H dimensions k ∈ [8; 4; 2; 1].
Proof.
  intros Hk. unfold widthAt. destruct (dimensions !! k) as [dim |] eqn:Hd.
  - by eapply (proj1 (Forall_lookup _ _) Hwidths).
  - apply lookup_ge_None in Hd. lia.
Qed.

(** Every dimension is taken by exactly one bucket. *)
Lemma layoutOrder_permutation :
  layoutOrder H dimensions ≡ₚ seq 0 (length dimensions).
Proof.
  rewrite layoutOrder_filter. apply filter_buckets_permutation.
  apply Forall_seq. intros k Hk. apply widthAt_bucket. lia.
Qed.

Lemma layoutOrder_NoDup : NoDup (layoutOrder H dimensions).
Proof. rewrite layoutOrder_permutation. apply NoDup_seq. Qed.

Lemma layoutOrder_bytes :
  8 * Z.of_nat (length (bucketHits H 8 dimensions 0))
  + 4 * Z.of_nat (length (bucketHits H 4 dimensions 0))
  + 2 * Z.of_nat (length (bucketHits H 2 dimensions 0))
  + 1 * Z.of_nat (length (bucketHits H 1 dimensions 0))
  = sumZ (widthOf H <$> dimensions).
Proof.
  rewrite <- widthAt_seq.
  rewrite <- (sumZ_permutation _ _
               (fmap_Permutation (widthAt H dimensions) _ _ layoutOrder_permutation)).
  rewrite layoutOrder_filter, !fmap_app, !sumZ_app, !sumZ_filter_width.
  rewrite !(bucketHits_filter H _ dimensions dimensions 0) by done. lia.
Qed.

(** The order of the buckets: wider dimensions first, and within a bucket
    the order of the query. *)
Lemma layoutOrder_sorted :
  StronglySorted (widerFirst H dimensions) (layoutOrder H dimensions).
Proof.
  rewrite layoutOrder_filter.
  assert (Hbucket : forall w n start,
    StronglySorted (widerFirst H dimensions)
      (filter (fun k => widthAt H dimensions k = w) (seq start n))).
  { intros w. induction n as [| n IH]; intros start; [constructor |].
    cbn [seq]. destruct (decide (widthAt H dimensions start = w)) as [Hw | Hw].
    - rewrite filter_cons_True by done. constructor; [apply IH |].
      apply Forall_forall. intros k Hk.
      apply list_elem_of_filter in Hk as [Hkw Hk]. apply elem_of_seq in Hk.
      right. split; [congruence | lia].
    - rewrite filter_cons_False by done. apply IH. }
  assert (Hcross : forall w1 w2 k1 k2, w2 < w1 ->
    k1 ∈ filter (fun k => widthAt H dimensions k = w1) (seq 0 (length dimensions)) ->
    k2 ∈ filter (fun k => widthAt H dimensions k = w2) (seq 0 (length dimensions)) ->
    widerFirst H dimensions k1 k2).
  { intros w1 w2 k1 k2 Hlt Hk1 Hk2.
    apply list_elem_of_filter in Hk1 as [Hk1 _].
    apply list_elem_of_filter in Hk2 as [Hk2 _]. left. lia. }
  repeat (apply StronglySorted_app_2; [| apply Hbucket |]); try apply Hbucket;
    intros k1 k2 Hk1 Hk2;
    repeat (apply elem_of_app in Hk2 as [Hk2 | Hk2]);
    (eapply Hcross; [| exact Hk1 | exact Hk2]; lia).
Qed.

End Layout.

Lemma assignFrom_app (l1 l2 : list nat) : forall next index,
  assignFrom (l1 ++ l2) next index
  = assignFrom l2 (next + Z.of_nat (length l1)) (assignFrom l1 next index).
Proof.
  induction l1 as [| k l1 IH]; intros next index; cbn [app assignFrom length].
  - f_equal. lia.
  - rewrite IH. f_equal. lia.
Qed.

Lemma StronglySorted_lookup {A} (R : relation A) (l : list A) (a b : nat) (x y : A) :
  StronglySorted R l -> l !! a = Some x -> l !! b = Some y -> (a < b)%nat -> R x y.
Proof.
  intros Hsorted Ha Hb Hab. rewrite <- (take_drop b l) in Hsorted.
  eapply StronglySorted_app_1_elem_of; [exact Hsorted | |].
  - apply list_elem_of_lookup. exists a. by rewrite lookup_take_lt.
  - apply list_elem_of_lookup. exists 0%nat. rewrite lookup_drop.
    by rewrite Nat.add_0_r.
Qed.

(** With four buckets the planner writes, in the order of the buckets, the
    numbers from 0 on, and adds the widths it meets and one byte per
    dimension to the row bytes. *)
Lemma sortDimensionColumns_four (H : Helpers) (qc : QueryContext) :
  length (NumDimsPerDimWidth qc) = 4%nat ->
  exists qc',
    sortDimensionColumns H qc = Ok (tt, qc')
    /\ AQLQuery qc' = AQLQuery qc
    /\ Error_ qc' = Error_ qc
    /\ DimensionVectorIndex qc'
       = assignFrom (layoutOrder H (common.Dimensions (AQLQuery qc))) 0
           (replicate (length (common.Dimensions (AQLQuery qc))) 0)
    /\ DimRowBytes qc'
       = DimRowBytes qc
         + (8 * Z.of_nat (length (bucketHits H 8 (common.Dimensions (AQLQuery qc)) 0))
            + 4 * Z.of_nat (length (bucketHits H 4 (common.Dimensions (AQLQuery qc)) 0))
            + 2 * Z.of_nat (length (bucketHits H 2 (common.Dimensions (AQLQuery qc)) 0))
            + 1 * Z.of_nat (length (bucketHits H 1 (common.Dimensions (AQLQuery qc)) 0)))
         + Z.of_nat (length (common.Dimensions (AQLQuery qc))).
Proof.
  intros Hlen. unfold sortDimensionColumns, modifyContext.
  eexists. split; [reflexivity |]. rewrite Hlen.
  change (seq 0 4) with [0; 1; 2; 3]%nat. change (firstByteWidth 4) with 8.
  cbn [widthLoop]. change (Z.shiftr 8 1) with 4. change (Z.shiftr 4 1) with 2.
  change (Z.shiftr 2 1) with 1.
  set (dims := common.Dimensions (AQLQuery qc)).
  set (st0 := mkLayout (replicate (length dims) 0) (NumDimsPerDimWidth qc)
                (DimRowBytes qc) 0).
  destruct (bucketLoop_spec H 8 0 dims 0 st0) as (Hv1 & Ho1 & Hr1).
  set (st1 := bucketLoop H 8 0 dims 0 st0) in *.
  destruct (bucketLoop_spec H 4 1 dims 0 st1) as (Hv2 & Ho2 & Hr2).
  set (st2 := bucketLoop H 4 1 dims 0 st1) in *.
  destruct (bucketLoop_spec H 2 2 dims 0 st2) as (Hv3 & Ho3 & Hr3).
  set (st3 := bucketLoop H 2 2 dims 0 st2) in *.
  destruct (bucketLoop_spec H 1 3 dims 0 st3) as (Hv4 & Ho4 & Hr4).
  set (st4 := bucketLoop H 1 3 dims 0 st3) in *.
  cbn [withLayout AQLQuery Error_ DimensionVectorIndex DimRowBytes].
  split; [done |]. split; [done |]. split.
  - unfold layoutOrder. rewrite !assignFrom_app.
    rewrite Hv4, Hv3, Hv2, Hv1, Ho3, Ho2, Ho1. cbn [st0 orderedIndex vectorIndex].
    repeat f_equal; lia.
  - rewrite Hr4, Hr3, Hr2, Hr1. cbn [st0 rowBytes]. lia.
Qed.




(** ** Expression types after rewriting *)


Lemma clean_ret {A} (x a : A) qc : clean (ret x) qc a -> a = x.
Proof. by intros [[= ->] _]. Qed.

Lemma clean_panic {A} qc (a : A) : clean panic qc a -> False.
Proof. by intros [Hp _]. Qed.

Lemma clean_setError err qc a : clean (setError err) qc a -> False.
Proof.
  intros [Hset Herr]. unfold setError in Hset.
  assert (Hqc : withError (Some err) qc = qc) by congruence.
  rewrite <- Hqc in Herr. done.
Qed.

Lemma clean_getContext qc a : clean getContext qc a -> a = qc.
Proof. by intros [[= ->] _]. Qed.

Lemma clean_bind {A B} (m : M A) (k : A -> M B) qc b :
  (forall a, errorOnly (k a)) ->
  clean (bind m k) qc b -> exists a, clean m qc a /\ clean (k a) qc b.
Proof.
  intros Hk [Hrun Herr]. unfold bind in Hrun.
  destruct (m qc) as [| [a qc1]] eqn:Hm; [done |].
  destruct (Hk a _ _ _ Hrun) as [-> | [err ->]]; [by exists a |].
  done.
Qed.

Lemma clean_TypeOf e qc t : clean (TypeOf e) qc t -> e <> expr.Nil /\ t = expr.typeOf e.
Proof. destruct e; intros [Hrun _]; try done; by injection Hrun as <-. Qed.

Lemma clean_CastM H e t qc e' :
  clean (CastM H e t) qc e' -> e <> expr.Nil /\ e' = Cast H e t.
Proof.
  unfold CastM. destruct e; intros [Hrun _]; try done;
    (destruct (castFails _ t); [done |]); by injection Hrun as <-.
Qed.

Lemma clean_index {A} (l : list A) i qc a :
  clean (index l i) qc a -> l !! Z.to_nat i = Some a.
Proof.
  unfold index. intros [Hrun _]. destruct (0 <=? i); [| done].
  destruct (l !! Z.to_nat i); [| done]. by injection Hrun as ->.
Qed.

Lemma errorOnly_assertBinaryExpr e : errorOnly (assertBinaryExpr e).
Proof. destruct e; first [apply errorOnly_panic | apply errorOnly_ret]. Qed.

(** As [errorOnly_solve], with the lemmas on the parts of the rewriter. *)
Ltac errorOnly_auto :=
  repeat first
    [ eassumption
    | apply errorOnly_getTable
    | apply errorOnly_resolveColumn
    | apply errorOnly_rewriteVarRef
    | apply errorOnly_rewriteUnary
    | apply errorOnly_rewriteEquality
    | apply errorOnly_rewriteCall
    | apply errorOnly_rewriteCase
    | apply errorOnly_expandINop
    | apply errorOnly_Rewrite
    | apply errorOnly_exprRewrite
    | apply errorOnly_assertBinaryExpr
    | errorOnly_step ].

(** Takes a clean run apart, along the code that ran. *)
Ltac clean_step :=
  match goal with
  | Hc : clean (ret _) _ _ |- _ => apply clean_ret in Hc; try subst
  | Hc : clean panic _ _ |- _ => by apply clean_panic in Hc
  | Hc : clean (setError _) _ _ |- _ => by apply clean_setError in Hc
  | Hc : clean getContext _ _ |- _ => apply clean_getContext in Hc; try subst
  | Hc : clean (TypeOf _) _ _ |- _ => apply clean_TypeOf in Hc as [? ->]
  | Hc : clean (CastM _ _ _) _ _ |- _ => apply clean_CastM in Hc as [? ->]
  | Hc : clean (bind _ _) _ _ |- _ =>
      apply clean_bind in Hc as (? & ? & ?); [| intros ?; errorOnly_auto; fail]
  | Hc : clean (match ?x with _ => _ end) _ _ |- _ => destruct x eqn:?
  end.

Ltac clean_inv := repeat clean_step.

Lemma allTyped_typeOf e : allTyped e = true -> expr.typeOf e <> expr.UnknownType.
Proof.
  destruct e; cbn [allTyped]; intros Ht; apply andb_true_iff in Ht as [Ht _];
    by apply negb_true_iff, bool_decide_eq_false in Ht.
Qed.

Lemma allTyped_not_Nil e : allTyped e = true -> e <> expr.Nil.
Proof. by destruct e. Qed.

Lemma higherType_known a b :
  a <> expr.UnknownType -> higherType a b <> expr.UnknownType.
Proof. unfold higherType. destruct a, b; cbn; done. Qed.

Lemma rewriteUnary_typed H Op child ty qc e' :
  castTyped H -> allTyped child = true ->
  clean (rewriteUnary H Op child ty) qc e' -> allTyped e' = true.
Proof.
  intros Hcast Hchild Hrun. unfold rewriteUnary in Hrun. cbv zeta in Hrun.
  pose proof (allTyped_typeOf _ Hchild) as Hty.
  assert (HB : allTyped (Cast H child expr.Boolean) = true) by (by apply Hcast).
  assert (HU : allTyped (Cast H child expr.Unsigned) = true) by (by apply Hcast).
  clean_inv; cbn [allTyped expr.typeOf]; rewrite ?Hchild, ?HB, ?HU; try done.
  all: destruct (expr.typeOf child); try done.
Qed.

Lemma asVarRef_Some e v : asVarRef e = Some v -> e = expr.VarRefE v.
Proof. destruct e; cbn; congruence. Qed.

Lemma asStringLiteral_Some e s : asStringLiteral e = Some s -> e = expr.StringLiteral s.
Proof. destruct e; cbn; congruence. Qed.

Lemma rewriteEquality_typed H Op LHS RHS highestType qc e' :
  castTyped H -> highestType <> expr.UnknownType ->
  allTyped LHS = true -> allTyped RHS = true ->
  clean (rewriteEquality H Op LHS RHS highestType) qc e' -> allTyped e' = true.
Proof.
  intros Hcast Hhigh Hl Hr Hrun. unfold rewriteEquality in Hrun.
  assert (Hswap : exists l r,
            (if isVarRef LHS then (LHS, RHS)
             else if isVarRef RHS then (RHS, LHS) else (LHS, RHS)) = (l, r)
            /\ allTyped l = true /\ allTyped r = true).
  { destruct (isVarRef LHS); [by eexists _, _ |].
    destruct (isVarRef RHS); by eexists _, _. }
  destruct Hswap as (l & r & Hswap & Hl' & Hr'). rewrite Hswap in Hrun.
  cbv zeta in Hrun.
  assert (HCl : allTyped (Cast H l highestType) = true) by (by apply Hcast).
  assert (HCr : allTyped (Cast H r highestType) = true) by (by apply Hcast).
  clean_inv;
    repeat match goal with
           | Hv : asVarRef _ = Some _ |- _ => apply asVarRef_Some in Hv; subst
           | Hs : asStringLiteral _ = Some _ |- _ =>
               apply asStringLiteral_Some in Hs; subst
           end;
    try discriminate;
    cbn [allTyped expr.typeOf]; rewrite ?HCl, ?HCr, ?Hl'; done.
Qed.

(** Closes a goal on the types of a rewritten node from the facts on its
    parts. *)
Ltac typed_done :=
  cbn [allTyped forallb expr.typeOf fst snd] in *;
  repeat match goal with
         | Hx : _ && _ = true |- _ => apply andb_true_iff in Hx as [? ?]
         end;
  repeat match goal with
         | Hx : ?t <> expr.UnknownType
           |- context [bool_decide (?t = expr.UnknownType)] =>
             rewrite (bool_decide_eq_false_2 _ Hx)
         end;
  repeat match goal with
         | Hx : ?b = true |- context [?b] => rewrite Hx
         end;
  try done.

Lemma rewriteBinary_typed H Op LHS RHS ty qc e' :
  castTyped H -> Op <> expr.IN -> Op <> expr.NOT_IN ->
  allTyped LHS = true -> allTyped RHS = true ->
  clean (rewriteBinary H (expandINop H) Op LHS RHS ty) qc e' ->
  allTyped e' = true.
Proof.
  intros Hcast HIN HNOTIN Hl Hr Hrun. unfold rewriteBinary in Hrun.
  cbv zeta in Hrun.
  destruct (blockNumericOpsForColumnOverFourBytes H Op [LHS; RHS]);
    [by clean_inv |].
  destruct (_ && _); [by clean_inv |].
  apply clean_bind in Hrun as (lhsType & HlT & Hrun); [| intros ?; errorOnly_auto].
  apply clean_TypeOf in HlT as [_ ->].
  apply clean_bind in Hrun as (rhsType & HrT & Hrun); [| intros ?; errorOnly_auto].
  apply clean_TypeOf in HrT as [_ ->].
  fold (higherType (expr.typeOf LHS) (expr.typeOf RHS)) in Hrun.
  pose proof (allTyped_typeOf _ Hl) as HlT.
  pose proof (higherType_known _ (expr.typeOf RHS) HlT) as Hhigh.
  set (h := higherType (expr.typeOf LHS) (expr.typeOf RHS)) in *.
  assert (HlF : allTyped (Cast H LHS expr.Float) = true) by (by apply Hcast).
  assert (HrF : allTyped (Cast H RHS expr.Float) = true) by (by apply Hcast).
  assert (HlU : allTyped (Cast H LHS expr.Unsigned) = true) by (by apply Hcast).
  assert (HrU : allTyped (Cast H RHS expr.Unsigned) = true) by (by apply Hcast).
  assert (HlB : allTyped (Cast H LHS expr.Boolean) = true) by (by apply Hcast).
  assert (HrB : allTyped (Cast H RHS expr.Boolean) = true) by (by apply Hcast).
  assert (Hlh : allTyped (Cast H LHS h) = true) by (by apply Hcast).
  assert (Hrh : allTyped (Cast H RHS h) = true) by (by apply Hcast).
  destruct Op; try done; clean_inv;
    first [ exact (rewriteEquality_typed _ _ _ _ _ _ _ Hcast Hhigh Hl Hr Hrun)
          | typed_done ].
Qed.

Lemma clean_foldM {A B} (P : B -> Prop) (f : B -> A -> M B) (l : list A) qc :
  (forall b a, errorOnly (f b a)) ->
  (forall b a b', a ∈ l -> P b -> clean (f b a) qc b' -> P b') ->
  forall b r, P b -> clean (foldM f l b) qc r -> P r.
Proof.
  intros Hf. induction l as [| a l IH]; intros Hstep b r Hb Hrun; cbn in Hrun.
  - apply clean_ret in Hrun. by subst.
  - apply clean_bind in Hrun as (b' & Hb' & Hrun);
      [| intros ?; by apply errorOnly_foldM].
    eapply IH; [| | exact Hrun].
    + intros ? ? ? Hin. apply Hstep. by right.
    + eapply Hstep; [by left | exact Hb | exact Hb'].
Qed.

Lemma clean_mapM {A B} (f : A -> M B) (l : list A) qc :
  (forall a, errorOnly (f a)) ->
  forall r, clean (mapM f l) qc r -> Forall2 (fun a b => clean (f a) qc b) l r.
Proof.
  intros Hf. induction l as [| a l IH]; intros r Hrun; cbn in Hrun.
  - apply clean_ret in Hrun. subst. constructor.
  - apply clean_bind in Hrun as (b & Hb & Hrun);
      [| intros ?; errorOnly_auto; apply Hf].
    apply clean_bind in Hrun as (bs & Hbs & Hrun); [| intros ?; errorOnly_auto].
    apply clean_ret in Hrun. subst. constructor; [done | by apply IH].
Qed.

Lemma rewriteCase_typed H WhenThens Else ty qc e' :
  castTyped H -> allTyped Else = true ->
  Forall (fun whenThen => allTyped (fst whenThen) = true
                          /\ allTyped (snd whenThen) = true) WhenThens ->
  clean (rewriteCase H WhenThens Else ty) qc e' -> allTyped e' = true.
Proof.
  intros Hcast HElse Hwts Hrun. unfold rewriteCase in Hrun.
  apply clean_bind in Hrun as (elseType & HeT & Hrun); [| intros ?; errorOnly_auto].
  apply clean_TypeOf in HeT as [_ ->].
  apply clean_bind in Hrun as (h & Hh & Hrun); [| intros ?; errorOnly_auto].
  assert (Hhigh : h <> expr.UnknownType).
  { revert Hh. apply (clean_foldM (fun t => t <> expr.UnknownType)).
    - intros ? ?. errorOnly_auto.
    - intros b a b' _ Hb Hstep. clean_inv. by apply higherType_known.
    - by apply allTyped_typeOf. }
  apply clean_bind in Hrun as (Else' & HE & Hrun); [| intros ?; errorOnly_auto].
  apply clean_CastM in HE as [_ ->].
  apply clean_bind in Hrun as (wts' & Hmap & Hrun); [| intros ?; errorOnly_auto].
  apply clean_ret in Hrun. subst e'.
  apply clean_mapM in Hmap; [| intros ?; errorOnly_auto].
  cbn [allTyped expr.typeOf]. rewrite (bool_decide_eq_false_2 _ Hhigh).
  rewrite (Hcast _ _ Hhigh HElse), andb_true_r. cbn [negb andb].
  apply forallb_forall. intros [w t] Hin. apply list_elem_of_In in Hin.
  apply list_elem_of_lookup in Hin as [k Hk].
  destruct (Forall2_lookup_r _ _ _ _ _ Hmap Hk) as ([w0 t0] & Hk0 & Hstep).
  pose proof (proj1 (Forall_lookup _ _) Hwts _ _ Hk0) as [Hw0 Ht0].
  cbn [fst snd] in *. clean_inv.
  match goal with Heq : (w, t) = _ |- _ => injection Heq as -> -> end.
  rewrite !Hcast; done.
Qed.

Lemma clean_getTable tableID qc table :
  clean (getTable tableID) qc table -> Some table ∈ Tables qc.
Proof.
  unfold getTable. intros Hrun.
  apply clean_bind in Hrun as (qc0 & Hqc & Hrun); [| intros ?; errorOnly_auto].
  apply clean_getContext in Hqc. subst qc0.
  apply clean_bind in Hrun as (t & Ht & Hrun); [| intros ?; errorOnly_auto].
  apply clean_index in Ht. destruct t as [t |]; [| by clean_inv].
  apply clean_ret in Hrun. subst. apply list_elem_of_lookup. eauto.
Qed.

Lemma rewriteVarRef_typed H v qc e' :
  typedColumns H qc -> clean (rewriteVarRef H v) qc e' -> allTyped e' = true.
Proof.
  intros Hcolumns Hrun. unfold rewriteVarRef in Hrun.
  apply clean_bind in Hrun as (r & _ & Hrun); [| intros ?; errorOnly_auto].
  destruct r as [err | [tableID columnID]]; [by clean_inv |].
  apply clean_bind in Hrun as (table & Htable & Hrun); [| intros ?; errorOnly_auto].
  apply clean_getTable in Htable.
  apply clean_bind in Hrun as (column & _ & Hrun); [| intros ?; errorOnly_auto].
  destruct (memCom.Deleted column); [by clean_inv |].
  apply clean_bind in Hrun as (dataType & Hdt & Hrun); [| intros ?; errorOnly_auto].
  apply clean_index in Hdt. apply clean_ret in Hrun. subst e'.
  cbn [allTyped expr.typeOf expr.ExprType]. rewrite andb_true_r.
  apply negb_true_iff, bool_decide_eq_false. eapply Hcolumns; [exact Htable |].
  apply list_elem_of_lookup. eauto.
Qed.

(** Collects what is known of the parts of a node. *)
Ltac typed_facts :=
  repeat match goal with
         | Hv : asVarRef _ = Some _ |- _ => apply asVarRef_Some in Hv; subst
         | Hx : allTyped ?e = true |- _ =>
             lazymatch goal with
             | _ : expr.typeOf e <> expr.UnknownType |- _ => fail
             | _ => pose proof (allTyped_typeOf _ Hx)
             end
         end.

Lemma rewriteCall_typed H Name Args ty qc e' :
  castTyped H ->
  ToLower H Name <> expr.HourCallName -> ToLower H Name <> expr.ListCallName ->
  callArgsTyped H Name Args = true ->
  clean (rewriteCall H Name Args ty) qc e' -> allTyped e' = true.
Proof.
  intros Hcast Hhour Hlist Hargs Hrun.
  unfold rewriteCall in Hrun. unfold callArgsTyped in Hargs. cbv zeta in Hrun.
  set (name := ToLower H Name) in *.
  destruct (decide (name = expr.ConvertTzCallName)) as [Htz | Htz].
  - rewrite bool_decide_eq_true_2 in Hargs by done.
    destruct Args as [| ts [| fromArg [| toArg [| ? ?]]]];
      cbn in Hargs; try done;
      repeat match type of Hargs with
             | context [match ?x with _ => _ end] =>
                 destruct x; cbn in Hargs; try done
             end.
    clean_inv; typed_done.
  - rewrite bool_decide_eq_false_2 in Hargs by done.
    clean_inv; cbn [forallb] in Hargs;
      repeat match goal with
             | Hx : _ && _ = true |- _ => apply andb_true_iff in Hx as [? ?]
             end;
      typed_facts;
      try match goal with
          | |- context [Cast H ?e ?t] =>
              assert (allTyped (Cast H e t) = true) by (by apply Hcast);
              assert (expr.typeOf (Cast H e t) <> expr.UnknownType)
                by (by apply allTyped_typeOf)
          end;
      try match goal with
          | Heq : match ?x with _ => _ end = expr.VarRefE _ |- _ =>
              destruct x; simplify_eq
          end;
      repeat match goal with
             | |- context [if ?b then _ else _] => destruct b
             end;
      typed_done.
Qed.

(** The clean runs of the walker on the arguments of a call, and on the
    branches of a case. *)
Lemma clean_walk_args H qc (Args Args' : list expr.Expr) :
  clean ((fix args (l : list expr.Expr) : M (list expr.Expr) :=
            match l with
            | [] => ret []
            | a :: l' =>
                do a' <- exprRewrite H a; do r <- args l'; ret (a' :: r)
            end) Args) qc Args' ->
  Forall2 (fun a a' => clean (exprRewrite H a) qc a') Args Args'.
Proof.
  revert Args'. induction Args as [| a Args IH]; intros Args' Hrun.
  - apply clean_ret in Hrun. subst. constructor.
  - assert (Hrest : forall l, errorOnly
              ((fix args (l : list expr.Expr) : M (list expr.Expr) :=
                  match l with
                  | [] => ret []
                  | a :: l' =>
                      do a' <- exprRewrite H a; do r <- args l'; ret (a' :: r)
                  end) l)).
    { induction l as [| x l IHl]; [apply errorOnly_ret |]. errorOnly_auto. }
    apply clean_bind in Hrun as (a' & Ha & Hrun);
      [| intros ?; apply errorOnly_bind; [apply Hrest | intros ?; apply errorOnly_ret]].
    apply clean_bind in Hrun as (r & Hr & Hrun); [| intros ?; apply errorOnly_ret].
    apply clean_ret in Hrun. subst. constructor; [done | by apply IH].
Qed.

Lemma clean_walk_whenThens H qc (WhenThens WhenThens' : list (expr.Expr * expr.Expr)) :
  clean ((fix whenThens (l : list (expr.Expr * expr.Expr))
            : M (list (expr.Expr * expr.Expr)) :=
            match l with
            | [] => ret []
            | (w, t) :: l' =>
                do w' <- exprRewrite H w;
                do t' <- exprRewrite H t;
                do r <- whenThens l';
                ret ((w', t') :: r)
            end) WhenThens) qc WhenThens' ->
  Forall2 (fun wt wt' => clean (exprRewrite H (fst wt)) qc (fst wt')
                         /\ clean (exprRewrite H (snd wt)) qc (snd wt'))
    WhenThens WhenThens'.
Proof.
  revert WhenThens'. induction WhenThens as [| [w t] WhenThens IH];
    intros WhenThens' Hrun.
  - apply clean_ret in Hrun. subst. constructor.
  - assert (Hrest : forall l, errorOnly
              ((fix whenThens (l : list (expr.Expr * expr.Expr))
                  : M (list (expr.Expr * expr.Expr)) :=
                  match l with
                  | [] => ret []
                  | (w, t) :: l' =>
                      do w' <- exprRewrite H w;
                      do t' <- exprRewrite H t;
                      do r <- whenThens l';
                      ret ((w', t') :: r)
                  end) l)).
    { induction l as [| [x y] l IHl]; [apply errorOnly_ret |]. errorOnly_auto. }
    apply clean_bind in Hrun as (w' & Hw & Hrun);
      [| intros ?; apply errorOnly_bind; [apply errorOnly_exprRewrite |];
         intros ?; apply errorOnly_bind; [apply Hrest | intros ?; apply errorOnly_ret]].
    apply clean_bind in Hrun as (t' & Ht & Hrun);
      [| intros ?; apply errorOnly_bind; [apply Hrest | intros ?; apply errorOnly_ret]].
    apply clean_bind in Hrun as (r & Hr & Hrun); [| intros ?; apply errorOnly_ret].
    apply clean_ret in Hrun. subst. constructor; [done | by apply IH].
Qed.

Lemma exprRewrite_clean_typed H qc :
  castTyped H -> typedColumns H qc ->
  forall e e', plain H e = true -> clean (exprRewrite H e) qc e' ->
               allTyped e' = true.
Proof.
  intros Hcast Hcolumns.
  induction e as
    [| n text ty | val | val | val | v | Op e ty IHe | Op LHS RHS ty IHl IHr
     | Name Args ty IHArgs | WhenThens Else ty IHwts IHElse | e ty IHe |]
    using Expr_nested_ind; intros e' Hplain Hrun; cbn [plain] in Hplain;
    try discriminate; cbn [exprRewrite] in Hrun.
  - apply clean_ret in Hrun. subst. cbn. by rewrite Hplain.
  - apply clean_ret in Hrun. by subst.
  - apply clean_ret in Hrun. by subst.
  - by eapply rewriteVarRef_typed.
  - apply clean_bind in Hrun as (c' & Hc & Hrun); [| intros ?; errorOnly_auto].
    eapply rewriteUnary_typed; [exact Hcast | | exact Hrun]. by apply IHe.
  - apply clean_bind in Hrun as (l' & Hl & Hrun); [| intros ?; errorOnly_auto].
    apply clean_bind in Hrun as (r' & Hr & Hrun); [| intros ?; errorOnly_auto].
    repeat (apply andb_true_iff in Hplain as [Hplain ?]).
    eapply rewriteBinary_typed; [exact Hcast | | | | | exact Hrun].
    + by apply negb_true_iff, bool_decide_eq_false in Hplain.
    + by match goal with
         | Hn : negb (bool_decide (Op = expr.NOT_IN)) = true |- _ =>
             apply negb_true_iff, bool_decide_eq_false in Hn
         end.
    + by apply IHl.
    + by apply IHr.
  - apply clean_bind in Hrun as (Args' & HArgs & Hrun); [| intros ?; errorOnly_auto].
    apply clean_walk_args in HArgs.
    apply andb_true_iff in Hplain as [Hnames Hplain].
    apply andb_true_iff in Hnames as [Hhour Hlist].
    apply negb_true_iff, bool_decide_eq_false in Hhour, Hlist.
    eapply rewriteCall_typed; [exact Hcast | exact Hhour | exact Hlist | | exact Hrun].
    unfold callArgsTyped.
    destruct (bool_decide (ToLower H Name = expr.ConvertTzCallName)).
    + destruct Args as [| ts [| fromArg [| toArg [| ? ?]]]]; try done;
        repeat match type of Hplain with
               | context [match ?x with _ => _ end] => destruct x; try done
               end.
      inversion HArgs as [| ? ts' ? rest1 Hts Hrest1]; subst.
      inversion Hrest1 as [| ? from' ? rest2 Hfrom Hrest2]; subst.
      inversion Hrest2 as [| ? to' ? rest3 Hto Hrest3]; subst.
      inversion Hrest3; subst.
      cbn [exprRewrite] in Hfrom, Hto.
      apply clean_ret in Hfrom, Hto. subst.
      inversion IHArgs as [| ? ? IHts _]; subst. by apply IHts.
    + apply forallb_forall. intros a' Hin. apply list_elem_of_In in Hin.
      apply list_elem_of_lookup in Hin as [k Hk].
      destruct (Forall2_lookup_r _ _ _ _ _ HArgs Hk) as (a & Ha & Hstep).
      eapply (proj1 (Forall_lookup _ _) IHArgs); [exact Ha | | exact Hstep].
      eapply (proj1 (forallb_forall _ _) Hplain).
      apply list_elem_of_In, list_elem_of_lookup. eauto.
  - apply clean_bind in Hrun as (wts' & Hwts & Hrun); [| intros ?; errorOnly_auto].
    apply clean_bind in Hrun as (Else' & HElse & Hrun); [| intros ?; errorOnly_auto].
    apply clean_walk_whenThens in Hwts.
    apply andb_true_iff in Hplain as [Hpw HpE].
    eapply (rewriteCase_typed H wts' Else' ty);
      [exact Hcast | | | exact Hrun]; [by apply IHElse |].
    apply Forall_lookup. intros k [w' t'] Hk.
    destruct (Forall2_lookup_r _ _ _ _ _ Hwts Hk) as ([w t] & Hwt & Hw & Ht).
    pose proof (proj1 (Forall_lookup _ _) IHwts _ _ Hwt) as [IHw IHt].
    assert (Hp : plain H w && plain H t = true).
    { apply (proj1 (forallb_forall _ _) Hpw (w, t)).
      apply list_elem_of_In, list_elem_of_lookup. eauto. }
    apply andb_true_iff in Hp as [Hpw' Hpt']. cbn [fst snd] in *.
    split; [by apply IHw | by apply IHt].
  - apply clean_bind in Hrun as (c' & Hc & Hrun); [| intros ?; errorOnly_auto].
    apply clean_ret in Hrun. subst. by apply IHe.
Qed.

Lemma clean_intro {A} (m : M A) qc a qc' :
  errorOnly m -> m qc = Ok (a, qc') -> Error_ qc' = None -> clean m qc a /\ qc' = qc.
Proof.
  intros Hm Hrun Herr. destruct (Hm _ _ _ Hrun) as [-> | [err ->]]; [| done].
  by repeat split.
Qed.

(** The rewriter alone: on an expression built from typed number literals,
    boolean and geo point literals, column references, parentheses, unary
    operators, binary operators other than IN and NOT_IN, cases and calls
    other than hour and list (a string literal only as a time zone of
    convert_tz, and no wildcard), in a context whose columns all have a data
    type with a known expression type and with casts that keep types known,
    a rewriting that ends without error leaves no reachable node of type
    UnknownType. *)
Theorem exprRewrite_typed (H : Helpers) (qc qc' : QueryContext) (e e' : expr.Expr) :
  castTyped H -> typedColumns H qc -> plain H e = true ->
  exprRewrite H e qc = Ok (e', qc') -> Error_ qc' = None ->
  allTyped e' = true.
Proof.
  intros Hcast Hcolumns Hplain Hrun Herr.
  destruct (clean_intro _ _ _ _ (errorOnly_exprRewrite H e) Hrun Herr) as [Hclean _].
  by eapply exprRewrite_clean_typed.
Qed.

Lemma Sample_castTyped : castTyped Sample.helpers.
Proof.
  intros e t Ht He. cbn [Cast Sample.helpers]. unfold Sample.Cast.
  destruct (decide (expr.typeOf e = t)); [done |].
  destruct e; cbn [allTyped expr.typeOf] in *;
    rewrite ?(bool_decide_eq_false_2 _ Ht); cbn [negb andb]; try done.
  all: by apply andb_true_iff in He as [_ He].
Qed.

Lemma Sample_typedColumns (q : common.AQLQuery) :
  typedColumns Sample.helpers (Sample.bound q).
Proof.
  intros table dataType Htable Hdt. cbn [Tables Sample.bound] in Htable.
  apply list_elem_of_singleton in Htable. injection Htable as ->.
  cbn [memCom.ValueTypeByColumn Sample.trips] in Hdt.
  repeat (apply elem_of_cons in Hdt as [-> | Hdt]; [done |]).
  by apply elem_of_nil in Hdt.
Qed.

Lemma exprRewrite_typed_witness :
  exists e',
    exprRewrite Sample.helpers
      (expr.Call "dayofweek" [Sample.ref "ts"] expr.UnknownType)
      (Sample.bound (Sample.query "trips" "count(*)" ["dayofweek(ts)"] []))
    = Ok (e', Sample.bound (Sample.query "trips" "count(*)" ["dayofweek(ts)"] []))
    /\ allTyped e' = true.
Proof.
  eexists. split; [vm_compute; reflexivity |].
  refine (exprRewrite_typed Sample.helpers
            (Sample.bound (Sample.query "trips" "count(*)" ["dayofweek(ts)"] []))
            (Sample.bound (Sample.query "trips" "count(*)" ["dayofweek(ts)"] []))
            (expr.Call "dayofweek" [Sample.ref "ts"] expr.UnknownType) _
            Sample_castTyped (Sample_typedColumns _) eq_refl _ eq_refl).
  vm_compute. reflexivity.
Defined.

(** ** Expression types after the whole compilation *)

Lemma allTyped_and Op LHS RHS ty :
  allTyped (expr.BinaryExpr Op LHS RHS ty) = true ->
  allTyped LHS = true /\ allTyped RHS = true.
Proof.
  cbn [allTyped]. intros Ht. apply andb_true_iff in Ht as [_ Ht].
  by apply andb_true_iff in Ht.
Qed.

Lemma normalizeLoop_typed fuel : forall i (filters r : list expr.Expr),
  normalizeLoop fuel i filters = Some r ->
  Forall (fun f => allTyped f = true) filters ->
  Forall (fun f => allTyped f = true) r.
Proof.
  induction fuel as [| fuel IH]; intros i filters r Hloop Hall; [done |].
  destruct (filters !! i) as [f |] eqn:Hi.
  - destruct (isTopAnd f) eqn:Hf.
    + apply isTopAnd_true in Hf as (LHS & RHS & ty & ->).
      rewrite (normalizeLoop_and _ _ _ _ _ _ Hi) in Hloop.
      apply IH in Hloop; [done |].
      pose proof (proj1 (Forall_lookup _ _) Hall _ _ Hi) as Hand.
      apply allTyped_and in Hand as [Hl Hr].
      apply Forall_app. split; [by apply Forall_insert | by constructor].
    + rewrite (normalizeLoop_other _ _ _ _ Hi Hf) in Hloop. by eapply IH.
  - rewrite normalizeLoop_end in Hloop by done. by injection Hloop as <-.
Qed.

Lemma normalizeAndFilters_typed (filters : list expr.Expr) :
  Forall (fun f => allTyped f = true) filters ->
  Forall (fun f => allTyped f = true) (normalizeAndFilters filters).
Proof.
  intros Hall. eapply normalizeLoop_typed; [apply normalizeAndFilters_loop | done].
Qed.

(** The loop over the texts of a slice, when it leaves no error behind. *)
Lemma parseAndRewrite_typed H kind texts : forall qc es ok qc',
  castTyped H -> typedColumns H qc -> Forall (plainText H) texts ->
  parseAndRewrite H kind texts qc = Ok ((es, ok), qc') -> Error_ qc' = None ->
  qc' = qc /\ ok = true /\ Forall (fun e => allTyped e = true) es.
Proof.
  induction texts as [| text rest IH]; intros qc es ok qc' Hcast Hcolumns Hplain;
    cbn [parseAndRewrite].
  - by intros [= <- <- <-] _.
  - apply Forall_cons in Hplain as [Htext Hrest].
    destruct (ParseExpr H text) as [parsed |] eqn:Hparse.
    + unfold bind at 1.
      destruct (exprRewrite H parsed qc) as [| [e qc1]] eqn:Hrw; [done |].
      unfold bind at 1, getContext at 1.
      destruct (Error_ qc1) eqn:Herr1.
      * intros [= _ _ <-] Hnone. congruence.
      * unfold bind at 1.
        destruct (parseAndRewrite H kind rest qc1) as [| [[es' ok'] qc2]] eqn:Hrec;
          [done |].
        intros [= <- <- <-] Hnone.
        destruct (clean_intro _ _ _ _ (errorOnly_exprRewrite H parsed) Hrw Herr1)
          as [_ ->].
        destruct (IH _ _ _ _ Hcast Hcolumns Hrest Hrec Hnone) as (-> & -> & Hes).
        repeat split. constructor; [| done].
        eapply exprRewrite_clean_typed; [done | exact Hcolumns | by apply Htext |].
        by split.
    + unfold bind, setError. intros [= _ _ <-] Hnone. done.
Qed.

Lemma joinsLoop_typed H joins : forall qc joins' ok qc',
  castTyped H -> typedColumns H qc -> Error_ qc = None ->
  Forall (fun join => Forall (plainText H) (common.Conditions join)) joins ->
  joinsLoop H joins qc = Ok ((joins', ok), qc') -> Error_ qc' = None ->
  qc' = qc
  /\ Forall (fun join => Forall (fun e => allTyped e = true)
                           (common.ConditionsParsed join)) joins'.
Proof.
  induction joins as [| join rest IH];
    intros qc joins' ok qc' Hcast Hcolumns Hentry Hplain; cbn [joinsLoop].
  - by intros [= <- _ <-] _.
  - apply Forall_cons in Hplain as [Hjoin Hrest]. unfold bind at 1.
    destruct (parseAndRewrite H ErrParseJoin (common.Conditions join) qc)
      as [| [[parsed ok1] qc1]] eqn:Hpar; [done |].
    destruct ok1.
    + unfold bind at 1.
      destruct (joinsLoop H rest qc1) as [| [[rest' ok2] qc2]] eqn:Hrec; [done |].
      intros [= <- <- <-] Hnone.
      pose proof (parseAndRewrite_ok _ _ _ _ _ _ Hpar Hentry) as Herr1.
      destruct (parseAndRewrite_typed _ _ _ _ _ _ _ Hcast Hcolumns Hjoin Hpar Herr1)
        as (-> & _ & Hparsed).
      destruct (IH _ _ _ _ Hcast Hcolumns Hentry Hrest Hrec Hnone) as (-> & Hrest').
      split; [done |]. by constructor.
    + intros [= <- <- <-] Hnone.
      by destruct (parseAndRewrite_typed _ _ _ _ _ _ _ Hcast Hcolumns Hjoin Hpar Hnone)
        as (_ & ? & _).
Qed.

Lemma processMeasure_typed H measure qc r qc' :
  castTyped H -> typedColumns H qc -> Error_ qc = None ->
  plainText H (common.Expr measure) ->
  Forall (plainText H) (common.Filters measure) ->
  processMeasure H measure qc = Ok (r, qc') -> Error_ qc' = None ->
  qc' = qc
  /\ exists measure',
       r = Some measure'
       /\ allTyped (common.ExprParsed measure') = true
       /\ Forall (fun e => allTyped e = true) (common.FiltersParsed measure')
       /\ (forall n text ty,
             ParseExpr H (common.Expr measure) = Some (expr.NumberLiteral n text ty) ->
             common.ExprParsed measure' = expr.NumberLiteral n text ty).
Proof.
  intros Hcast Hcolumns Hentry Hexpr Hfilters. unfold processMeasure.
  destruct (ParseExpr H (common.Expr measure)) as [parsed |] eqn:Hparse.
  - unfold bind at 1.
    destruct (exprRewrite H parsed qc) as [| [e qc1]] eqn:Hrw; [done |].
    unfold bind at 1, getContext at 1.
    destruct (Error_ qc1) eqn:Herr1; [intros [= _ <-] Hnone; congruence |].
    destruct (clean_intro _ _ _ _ (errorOnly_exprRewrite H parsed) Hrw Herr1)
      as [Hclean ->].
    unfold bind at 1.
    destruct (parseAndRewrite H ErrParseMeasureFilter (common.Filters measure) qc)
      as [| [[filters ok] qc2]] eqn:Hpar; [done |].
    destruct ok; intros [= <- <-] Hnone;
      destruct (parseAndRewrite_typed _ _ _ _ _ _ _ Hcast Hcolumns Hfilters Hpar Hnone)
        as (-> & Hok & Htyped); [| done].
    split; [done |]. eexists. split; [reflexivity |].
    cbn [common.ExprParsed common.FiltersParsed].
    split; [by eapply exprRewrite_clean_typed; [| | apply Hexpr |] |].
    split; [by apply normalizeAndFilters_typed |].
    intros n text ty [= ->]. cbn [exprRewrite] in Hclean.
    destruct Hclean as [Hret _]. by injection Hret as <-.
  - unfold bind, setError. by intros [= _ <-] Hnone.
Qed.

Lemma measuresLoop_typed H measures : forall qc measures' ok qc',
  castTyped H -> typedColumns H qc -> Error_ qc = None ->
  Forall (fun measure => plainText H (common.Expr measure)
                         /\ Forall (plainText H) (common.Filters measure))
    measures ->
  measuresLoop H measures qc = Ok ((measures', ok), qc') -> Error_ qc' = None ->
  qc' = qc /\ ok = true
  /\ Forall2 (fun measure measure' =>
                allTyped (common.ExprParsed measure') = true
                /\ Forall (fun e => allTyped e = true) (common.FiltersParsed measure')
                /\ (forall n text ty,
                      ParseExpr H (common.Expr measure)
                      = Some (expr.NumberLiteral n text ty) ->
                      common.ExprParsed measure' = expr.NumberLiteral n text ty))
       measures measures'.
Proof.
  induction measures as [| measure rest IH];
    intros qc measures' ok qc' Hcast Hcolumns Hentry Hplain; cbn [measuresLoop].
  - intros [= <- <- <-] _. repeat split. constructor.
  - apply Forall_cons in Hplain as [[Hexpr Hfilters] Hrest]. unfold bind at 1.
    destruct (processMeasure H measure qc) as [| [r qc1]] eqn:Hm; [done |].
    destruct r as [measure' |].
    + unfold bind at 1.
      destruct (measuresLoop H rest qc1) as [| [[rest' ok'] qc2]] eqn:Hrec; [done |].
      intros [= <- <- <-] Hnone.
      pose proof (processMeasure_ok _ _ _ _ _ Hm) as Herr1.
      destruct (processMeasure_typed _ _ _ _ _ Hcast Hcolumns Hentry Hexpr Hfilters
                  Hm Herr1) as (-> & m' & [= <-] & Hm').
      destruct (IH _ _ _ _ Hcast Hcolumns Hentry Hrest Hrec Hnone)
        as (-> & -> & Hrest').
      repeat split. by constructor.
    + intros [= <- <- <-] Hnone.
      by destruct (processMeasure_typed _ _ _ _ _ Hcast Hcolumns Hentry Hexpr Hfilters
                     Hm Hnone) as (_ & ? & ? & _).
Qed.

Lemma processJoins_typed H qc qc' :
  castTyped H -> typedColumns H qc -> Error_ qc = None ->
  Forall (fun join => Forall (plainText H) (common.Conditions join))
    (common.Joins (AQLQuery qc)) ->
  processJoins H qc = Ok (tt, qc') -> Error_ qc' = None ->
  exists joins,
    qc' = withAQLQuery (withJoins joins (AQLQuery qc)) qc
    /\ Forall (fun join => Forall (fun e => allTyped e = true)
                             (common.ConditionsParsed join)) joins.
Proof.
  intros Hcast Hcolumns Hentry Hplain. unfold processJoins.
  unfold bind at 1, getContext at 1. unfold bind at 1.
  destruct (joinsLoop H (common.Joins (AQLQuery qc)) qc)
    as [| [[joins ok] qc1]] eqn:Hloop; [done |].
  cbn [modifyQuery modifyContext]. intros [= <-] Hnone.
  destruct (joinsLoop_typed _ _ _ _ _ _ Hcast Hcolumns Hentry Hplain Hloop Hnone)
    as (-> & Htyped).
  by exists joins.
Qed.

Lemma checkMeasures_frame qc qc' :
  checkMeasures qc = Ok (tt, qc') ->
  sameButMeasures qc qc'
  /\ common.Measures (AQLQuery qc') = common.Measures (AQLQuery qc)
  /\ (Error_ qc' = None ->
      forall measure n text ty,
        common.Measures (AQLQuery qc) = [measure] ->
        common.ExprParsed measure = expr.NumberLiteral n text ty ->
        IsNonAggregationQuery qc' = true).
Proof.
  unfold checkMeasures, bind, getContext, sameButMeasures.
  destruct (common.Measures (AQLQuery qc)) as [| m [| m2 rest]] eqn:Hms;
    try (intros [= <-]; cbn; by rewrite Hms).
  destruct (common.ExprParsed m) eqn:Hparsed;
    try (intros [= <-]; cbn; rewrite Hms; repeat split; try done;
         intros ? ? ? ? ? [= <-]; congruence).
  - destruct (decide (common.Limit _ = 0)); cbn; intros [= <-]; cbn;
      by rewrite ?Hms.
  - destruct (decide (length _ = 1%nat)); cbn;
      [destruct (_ && _); cbn |];
      intros [= <-]; cbn; rewrite Hms; repeat split; try done;
      intros ? ? ? ? ? [= <-]; congruence.
Qed.

Lemma processMeasures_typed H qc qc' :
  castTyped H -> typedColumns H qc -> Error_ qc = None ->
  Forall (fun measure => plainText H (common.Expr measure)
                         /\ Forall (plainText H) (common.Filters measure))
    (common.Measures (AQLQuery qc)) ->
  processMeasures H qc = Ok (tt, qc') -> Error_ qc' = None ->
  sameButMeasures qc qc'
  /\ Forall (fun measure =>
               allTyped (common.ExprParsed measure) = true
               /\ Forall (fun e => allTyped e = true) (common.FiltersParsed measure))
       (common.Measures (AQLQuery qc'))
  /\ (numberMeasure H (AQLQuery qc) -> IsNonAggregationQuery qc' = true).
Proof.
  intros Hcast Hcolumns Hentry Hplain. unfold processMeasures.
  unfold bind at 1, getContext at 1. unfold bind at 1.
  destruct (measuresLoop H (common.Measures (AQLQuery qc)) qc)
    as [| [[measures ok] qc1]] eqn:Hloop; [done |].
  unfold bind at 1. cbn [modifyQuery modifyContext].
  destruct ok.
  - intros Hcheck Hnone.
    destruct (checkMeasures_frame _ _ Hcheck) as (Hsame & Hms & Hnon).
    assert (Herr1 : Error_ qc1 = None).
    { destruct (common.Measures (AQLQuery qc)) eqn:Hq.
      - cbn in Hloop. by injection Hloop as _ <-.
      - by apply (measuresLoop_ok _ _ _ _ _ Hloop). }
    destruct (measuresLoop_typed _ _ _ _ _ _ Hcast Hcolumns Hentry Hplain Hloop Herr1)
      as (-> & _ & Htyped).
    cbn [AQLQuery withAQLQuery common.Measures withMeasures] in Hms.
    unfold sameButMeasures in *.
    cbn [AQLQuery withAQLQuery Tables common.Joins common.Dimensions
           common.QueryFilters common.QueryFiltersParsed withMeasures] in Hsame.
    split; [exact Hsame |]. rewrite Hms. split.
    + apply Forall_lookup. intros k m' Hk.
      destruct (Forall2_lookup_r _ _ _ _ _ Htyped Hk) as (m & _ & Hm1 & Hm2 & _).
      by split.
    + intros (m & n & text & ty & Hone & Hparse). rewrite Hone in Htyped.
      inversion Htyped as [| ? m' ? rest' Hm Hrest]; subst.
      inversion Hrest; subst. destruct Hm as (_ & _ & Hnum).
      eapply (Hnon Hnone m' n text ty); [done | by apply Hnum].
  - intros [= <-] Hnone. cbn [Error_ withAQLQuery] in Hnone.
    by destruct (measuresLoop_typed _ _ _ _ _ _ Hcast Hcolumns Hentry Hplain Hloop Hnone)
      as (_ & ? & _).
Qed.

Lemma getTable_state tableID qc table qc' :
  getTable tableID qc = Ok (table, qc') -> qc' = qc.
Proof.
  unfold getTable, bind, getContext, index.
  destruct (0 <=? tableID); [| done].
  destruct (Tables qc !! Z.to_nat tableID) as [[t |] |]; try done.
  by intros [= _ <-].
Qed.

Lemma allColumnsDimension_plain H columns :
  Forall (fun dim => plain H (common.DimExprParsed dim) = true)
    (allColumnsDimension columns).
Proof.
  induction columns as [| column rest IH]; cbn [allColumnsDimension]; [constructor |].
  destruct (_ && _); [by constructor | done].
Qed.

Lemma expandDimensions_plain H rawDims : forall dimensions qc dimensions' ok qc',
  Forall (fun dim =>
            forall e, ParseExpr H (common.DimExpr dim) = Some e ->
              plain H e = true
              \/ (e = expr.Wildcard /\ IsNonAggregationQuery qc = true)) rawDims ->
  Forall (fun dim => plain H (common.DimExprParsed dim) = true) dimensions ->
  expandDimensions H rawDims dimensions qc = Ok ((dimensions', ok), qc') ->
  Error_ qc' = None ->
  qc' = qc /\ ok = true
  /\ Forall (fun dim => plain H (common.DimExprParsed dim) = true) dimensions'.
Proof.
  induction rawDims as [| dim rest IH]; intros dimensions qc dimensions' ok qc' Hraw Hacc;
    cbn [expandDimensions].
  - by intros [= <- <- <-] _.
  - apply Forall_cons in Hraw as [Hdim Hrest].
    destruct (ParseExpr H (common.DimExpr dim)) as [parsed |] eqn:Hparse.
    + unfold bind at 1, getContext at 1.
      assert (Hkeep : plain H parsed = true ->
        expandDimensions H rest
          (dimensions ++ [common.mkDimension (common.DimExpr dim) parsed]) qc
        = Ok ((dimensions', ok), qc') ->
        Error_ qc' = None ->
        qc' = qc /\ ok = true
        /\ Forall (fun dim => plain H (common.DimExprParsed dim) = true) dimensions').
      { intros Hp. apply IH; [done |]. apply Forall_app. split; [done |].
        by constructor. }
      destruct (Hdim parsed eq_refl) as [Hp | [-> Hnon]].
      * destruct parsed; first [by apply Hkeep | discriminate Hp].
      * rewrite Hnon. unfold bind at 1, getAllColumnsDimension at 1.
        unfold bind at 1.
        destruct (getTable 0 qc) as [| [table qc1]] eqn:Htable; [done |].
        apply getTable_state in Htable as ->.
        cbn [ret]. apply IH; [done |]. apply Forall_app. split; [done |].
        apply allColumnsDimension_plain.
    + unfold bind, setError. by intros [= _ _ <-] Hnone.
Qed.

(** What one iteration of the second loop of [processDimensions] does to the
    context besides rewriting: it may record a reverse dictionary. *)
Lemma rewriteDimensions_step H dimensions : forall idx qc dimensions' qc',
  rewriteDimensions H dimensions idx qc = Ok (dimensions', qc') ->
  Tables qc' = Tables qc /\ AQLQuery qc' = AQLQuery qc
  /\ (Error_ qc <> None -> Error_ qc' <> None).
Proof.
  induction dimensions as [| dim rest IH]; intros idx qc dimensions' qc';
    cbn [rewriteDimensions].
  - by intros [= _ <-].
  - unfold bind at 1.
    destruct (exprRewrite H (common.DimExprParsed dim) qc) as [| [e qc1]] eqn:Hrw;
      [done |].
    unfold bind at 1.
    set (record := match e with
                   | expr.VarRefE vr =>
                       if decide (0 < length (expr.EnumReverseDict vr))%nat
                       then modifyContext
                              (fun qc => withDimensionEnumReverseDicts
                                           (<[idx := expr.EnumReverseDict vr]>
                                              (DimensionEnumReverseDicts qc)) qc)
                       else ret tt
                   | _ => ret tt
                   end).
    assert (Hrecord : exists qc2, record qc1 = Ok (tt, qc2)
              /\ Tables qc2 = Tables qc1 /\ AQLQuery qc2 = AQLQuery qc1
              /\ Error_ qc2 = Error_ qc1).
    { subst record. destruct e; try by eexists.
      destruct (decide _); by eexists. }
    destruct Hrecord as (qc2 & -> & Ht2 & Hq2 & He2).
    unfold bind at 1.
    destruct (rewriteDimensions H rest (idx + 1) qc2) as [| [rest' qc3]] eqn:Hrec;
      [done |].
    intros [= _ <-]. destruct (IH _ _ _ _ Hrec) as (Ht3 & Hq3 & He3).
    destruct (errorOnly_exprRewrite _ _ _ _ _ Hrw) as [-> | [err ->]];
      cbn [Tables AQLQuery Error_ withError] in *;
      (split; [congruence |]; split; [congruence |]);
      intros Hq; apply He3; rewrite He2; done.
Qed.

Lemma rewriteDimensions_typed H dimensions : forall idx qc dimensions' qc',
  castTyped H -> typedColumns H qc ->
  Forall (fun dim => plain H (common.DimExprParsed dim) = true) dimensions ->
  rewriteDimensions H dimensions idx qc = Ok (dimensions', qc') ->
  Error_ qc' = None ->
  Forall (fun dim => allTyped (common.DimExprParsed dim) = true) dimensions'.
Proof.
  induction dimensions as [| dim rest IH];
    intros idx qc dimensions' qc' Hcast Hcolumns Hplain; cbn [rewriteDimensions].
  - intros [= <- _] _. constructor.
  - apply Forall_cons in Hplain as [Hdim Hrest]. unfold bind at 1.
    destruct (exprRewrite H (common.DimExprParsed dim) qc) as [| [e qc1]] eqn:Hrw;
      [done |].
    unfold bind at 1.
    set (record := match e with
                   | expr.VarRefE vr =>
                       if decide (0 < length (expr.EnumReverseDict vr))%nat
                       then modifyContext
                              (fun qc => withDimensionEnumReverseDicts
                                           (<[idx := expr.EnumReverseDict vr]>
                                              (DimensionEnumReverseDicts qc)) qc)
                       else ret tt
                   | _ => ret tt
                   end).
    assert (Hrecord : exists qc2, record qc1 = Ok (tt, qc2)
              /\ Tables qc2 = Tables qc1 /\ Error_ qc2 = Error_ qc1).
    { subst record. destruct e; try by eexists.
      destruct (decide _); by eexists. }
    destruct Hrecord as (qc2 & -> & Ht2 & He2).
    unfold bind at 1.
    destruct (rewriteDimensions H rest (idx + 1) qc2) as [| [rest' qc3]] eqn:Hrec;
      [done |].
    intros [= <- <-] Hnone.
    destruct (rewriteDimensions_step _ _ _ _ _ _ Hrec) as (_ & _ & Hsticky).
    assert (Herr1 : Error_ qc1 = None).
    { destruct (Error_ qc1) eqn:He1; [| done]. exfalso. apply Hsticky; [| done].
      by rewrite He2. }
    destruct (clean_intro _ _ _ _ (errorOnly_exprRewrite H _) Hrw Herr1)
      as [Hclean ->].
    constructor.
    + by eapply exprRewrite_clean_typed.
    + eapply (IH _ qc2); [done | | done | exact Hrec | done].
      intros table dataType Htable. apply Hcolumns. by rewrite <- Ht2.
Qed.

Lemma processDimensions_typed H qc qc' :
  castTyped H -> typedColumns H qc ->
  Forall (fun dim =>
            forall e, ParseExpr H (common.DimExpr dim) = Some e ->
              plain H e = true
              \/ (e = expr.Wildcard /\ IsNonAggregationQuery qc = true))
    (common.Dimensions (AQLQuery qc)) ->
  processDimensions H qc = Ok (tt, qc') -> Error_ qc' = None ->
  Tables qc' = Tables qc
  /\ common.Joins (AQLQuery qc') = common.Joins (AQLQuery qc)
  /\ common.Measures (AQLQuery qc') = common.Measures (AQLQuery qc)
  /\ common.QueryFilters (AQLQuery qc') = common.QueryFilters (AQLQuery qc)
  /\ Forall (fun dim => allTyped (common.DimExprParsed dim) = true)
       (common.Dimensions (AQLQuery qc')).
Proof.
  intros Hcast Hcolumns Hplain. unfold processDimensions.
  unfold bind, getContext, modifyQuery, modifyContext. cbv zeta beta.
  match goal with
  | |- context [expandDimensions H _ [] ?q] => set (qc0 := q)
  end.
  destruct (expandDimensions H (common.Dimensions (AQLQuery qc)) [] qc0)
    as [| [[dimensions ok] qc1]] eqn:Hexpand; [done |].
  destruct ok.
  - match goal with
    | |- context [rewriteDimensions H dimensions 0 ?q] => set (qc2 := q)
    end.
    destruct (rewriteDimensions H dimensions 0 qc2) as [| [dimensions' qc3]] eqn:Hrw;
      [done |].
    intros [= <-] Hnone. cbn [Error_ withAQLQuery] in Hnone.
    destruct (rewriteDimensions_step _ _ _ _ _ _ Hrw) as (Ht3 & Hq3 & Hsticky).
    assert (Herr1 : Error_ qc1 = None).
    { destruct (Error_ qc1) eqn:He1; [| done]. exfalso. apply Hsticky; [| done].
      subst qc2. cbn. by rewrite He1. }
    destruct (expandDimensions_plain H _ [] qc0 _ _ _ Hplain (Forall_nil_2 _)
                Hexpand Herr1) as (-> & _ & Hdims).
    cbn [AQLQuery withAQLQuery Tables common.Joins common.Measures
           common.QueryFilters common.Dimensions withDimensions].
    rewrite Ht3, Hq3. subst qc2 qc0. cbn. repeat split.
    eapply rewriteDimensions_typed; [done | | exact Hdims | exact Hrw | done].
    exact Hcolumns.
  - intros [= <-] Hnone. cbn [Error_ withAQLQuery] in Hnone.
    by destruct (expandDimensions_plain H _ [] qc0 _ _ _ Hplain (Forall_nil_2 _)
                   Hexpand Hnone) as (_ & ? & _).
Qed.

Lemma processFilters_typed H qc qc' :
  castTyped H -> typedColumns H qc ->
  Forall (plainText H) (common.QueryFilters (AQLQuery qc)) ->
  processFilters H qc = Ok (tt, qc') -> Error_ qc' = None ->
  exists filters,
    qc' = withAQLQuery (withFiltersParsed filters (AQLQuery qc)) qc
    /\ Forall (fun e => allTyped e = true) filters.
Proof.
  intros Hcast Hcolumns Hplain. unfold processFilters.
  unfold bind at 1, getContext at 1. unfold bind at 1.
  destruct (parseAndRewrite H ErrParseFilter (common.QueryFilters (AQLQuery qc)) qc)
    as [| [[filters ok] qc1]] eqn:Hpar; [done |].
  cbn [modifyQuery modifyContext]. intros [= <-] Hnone.
  cbn [Error_ withAQLQuery] in Hnone.
  destruct (parseAndRewrite_typed _ _ _ _ _ _ _ Hcast Hcolumns Hplain Hpar Hnone)
    as (-> & -> & Htyped).
  eexists. split; [reflexivity |]. by apply normalizeAndFilters_typed.
Qed.

Lemma elem_of_list_insert_inv {A} (l : list A) (i : nat) (x y : A) :
  x ∈ <[i:=y]> l -> x = y \/ x ∈ l.
Proof.
  intros Hin. apply list_elem_of_lookup in Hin as [k Hk].
  apply list_lookup_insert_Some in Hk as [(_ & -> & _) | (_ & Hk)]; [by left |].
  right. apply list_elem_of_lookup. eauto.
Qed.

(** Binding the schemas leaves the query alone and fills [Tables] from the
    schema reader. *)
Lemma readJoinSchemas_tables reader joins : forall i qc qc',
  readJoinSchemas reader joins i qc = Ok (tt, qc') ->
  (forall table, Some table ∈ Tables qc -> exists name, reader name = Some table) ->
  AQLQuery qc' = AQLQuery qc
  /\ (forall table, Some table ∈ Tables qc' -> exists name, reader name = Some table).
Proof.
  induction joins as [| join rest IH]; intros i qc qc'; cbn [readJoinSchemas].
  - by intros [= <-].
  - destruct (reader (common.JoinTable join)) as [schema |] eqn:Hschema;
      [| by intros [= <-]].
    unfold bind at 1, getContext at 1.
    assert (Htables : (forall table, Some table ∈ Tables qc ->
                         exists name, reader name = Some table) ->
              forall table, Some table ∈ <[S i := Some schema]> (Tables qc) ->
                exists name, reader name = Some table).
    { intros Hqc table Hin. apply elem_of_list_insert_inv in Hin as [[= ->] | Hin];
        [eauto | by apply Hqc]. }
    destruct (TableIDByAlias qc !! _).
    + intros [= <-] Hqc. split; [done |]. by apply Htables.
    + unfold bind at 1. cbn [modifyContext]. intros Hrec Hqc.
      apply IH in Hrec as [Hq Ht]; [by split |]. by apply Htables.
Qed.

Lemma readSchema_tables reader qc qc' :
  readSchema reader qc = Ok (tt, qc') ->
  AQLQuery qc' = AQLQuery qc
  /\ (forall table, Some table ∈ Tables qc' -> exists name, reader name = Some table).
Proof.
  assert (Hnil : forall n (table : memCom.TableSchema),
            Some table ∈ replicate n (@None memCom.TableSchema) -> False).
  { intros n table Hin. by apply elem_of_replicate_inv in Hin. }
  unfold readSchema. unfold bind at 1, getContext at 1.
  unfold bind at 1. unfold modifyContext at 1.
  destruct (reader (common.Table (AQLQuery qc))) as [schema |] eqn:Hschema.
  - unfold bind at 1. unfold modifyContext at 1. intros Hrec.
    apply readJoinSchemas_tables in Hrec as [Hq Ht]; [by split |].
    intros table Hin. unfold withSchemas at 1 in Hin. cbn [Tables] in Hin.
    apply elem_of_list_insert_inv in Hin as [[= ->] | Hin]; [eauto |].
    destruct (Hnil (S _) _ Hin).
  - intros [= <-]. split; [done |]. intros table Hin.
    unfold withError, withSchemas in Hin. cbn [Tables] in Hin.
    destruct (Hnil (S _) _ Hin).
Qed.

Lemma sortDimensionColumns_frame H qc qc' :
  sortDimensionColumns H qc = Ok (tt, qc') ->
  AQLQuery qc' = AQLQuery qc /\ Error_ qc' = Error_ qc.
Proof. unfold sortDimensionColumns, modifyContext. by intros [= <-]. Qed.

(** A guarded stage that ends without error started without error, and
    ran. *)
Lemma unlessError_inv (stage : M unit) qc qc' :
  unlessError stage qc = Ok (tt, qc') -> Error_ qc' = None ->
  Error_ qc = None /\ stage qc = Ok (tt, qc').
Proof.
  unfold unlessError, bind, getContext.
  destruct (Error_ qc) eqn:Herr; [| done].
  intros [= <-]. congruence.
Qed.

Lemma typedSchemas_columns H reader qc :
  typedSchemas H reader ->
  (forall table, Some table ∈ Tables qc -> exists name, reader name = Some table) ->
  typedColumns H qc.
Proof.
  intros Hschemas Htables table dataType Htable Hdt.
  destruct (Htables _ Htable) as [name Hname]. by eapply Hschemas.
Qed.

Lemma typedColumns_tables H qc qc' :
  Tables qc' = Tables qc -> typedColumns H qc -> typedColumns H qc'.
Proof. intros Ht Hcolumns table dataType. rewrite Ht. apply Hcolumns. Qed.

Lemma Forall_forallb {A} (f : A -> bool) (l : list A) :
  Forall (fun x => f x = true) l -> forallb f l = true.
Proof. intros Hl. apply forallb_forall. intros x Hx. by apply (proj1 (Forall_forall _ _) Hl), list_elem_of_In. Qed.


Lemma Sample_typedSchemas : typedSchemas Sample.helpers Sample.reader.
Proof.
  intros name table dataType Hname Hdt. unfold Sample.reader in Hname.
  repeat case_decide; simplify_eq; cbn in Hdt;
    repeat (apply elem_of_cons in Hdt as [-> | Hdt]; [done |]);
    by apply elem_of_nil in Hdt.
Qed.

Lemma Sample_plainQuery :
  plainQuery Sample.helpers
    (Sample.query "trips" "sum(fare)" ["dayofweek(ts)"; "city"] ["ts >= 1"]).
Proof.
  unfold plainQuery, Sample.query.
  cbn [common.Joins common.Measures common.Dimensions common.QueryFilters
         common.Expr common.Filters common.DimExpr map].
  split; [by apply Forall_nil_2 |].
  split; [apply Forall_cons_2; [split |]; try by apply Forall_nil_2 |].
  - intros e He. vm_compute in He. by injection He as <-.
  - split; repeat apply Forall_cons_2; try (by apply Forall_nil_2);
      intros e He; vm_compute in He; injection He as <-; try left; reflexivity.
Qed.


(** * Further properties *)

(** ** The conjuncts of the filters *)

Lemma conjuncts_other (f : expr.Expr) : isTopAnd f = false -> conjuncts f = [f].
Proof. by destruct f as [| | | | | | | [] | | | |]. Qed.

Lemma conjuncts_flat (filters : list expr.Expr) :
  Forall (fun f => isTopAnd f = false) filters -> filters ≫= conjuncts = filters.
Proof.
  induction 1 as [| f filters Hf _ IH]; [done |].
  rewrite bind_cons, IH, (conjuncts_other _ Hf). done.
Qed.

Lemma conjuncts_split (filters : list expr.Expr) i LHS RHS ty :
  filters !! i = Some (expr.BinaryExpr expr.AND LHS RHS ty) ->
  (<[i:=LHS]> filters ++ [RHS]) ≫= conjuncts ≡ₚ filters ≫= conjuncts.
Proof.
  revert i. induction filters as [| f filters IH]; intros [| i] Hi; try done.
  - injection Hi as ->. cbn [list_insert insert]. rewrite !bind_app, !bind_cons. cbn [mbind list_bind].
    cbn [conjuncts]. rewrite app_nil_r.
    rewrite <- !(assoc_L (++)). f_equiv. apply (comm (++)).
  - cbn in Hi. change (<[S i:=LHS]> (f :: filters)) with (f :: <[i:=LHS]> filters).
    rewrite <- app_comm_cons, !bind_cons. f_equiv. by apply IH.
Qed.

Lemma normalizeLoop_conjuncts fuel : forall i (filters r : list expr.Expr),
  normalizeLoop fuel i filters = Some r ->
  r ≫= conjuncts ≡ₚ filters ≫= conjuncts.
Proof.
  induction fuel as [| fuel IH]; intros i filters r; [done |].
  destruct (filters !! i) as [f |] eqn:Hi.
  - destruct (isTopAnd f) eqn:Hf.
    + apply isTopAnd_true in Hf as (LHS & RHS & ty & ->).
      rewrite (normalizeLoop_and _ _ _ _ _ _ Hi). intros Hr.
      rewrite (IH _ _ _ Hr). by eapply conjuncts_split.
    + rewrite (normalizeLoop_other _ _ _ _ Hi Hf). apply IH.
  - rewrite (normalizeLoop_end _ _ _ Hi). by intros [= <-].
Qed.

(** X1: the normaliser neither drops nor repeats a conjunct. *)
Theorem normalizeAndFilters_conjuncts (filters : list expr.Expr) :
  normalizeAndFilters filters ≡ₚ filters ≫= conjuncts.
Proof.
  rewrite <- (normalizeLoop_conjuncts _ _ _ _ (normalizeAndFilters_loop filters)).
  by rewrite (conjuncts_flat _ (normalizeAndFilters_flat filters)).
Qed.

(** ** Binding the schemas *)

Lemma readJoinSchemas_error reader joins : forall i qc,
  exists qc', readJoinSchemas reader joins i qc = Ok (tt, qc')
    /\ ((Forall (fun join => is_Some (reader (common.JoinTable join))) joins
         /\ NoDup (joinAlias <$> joins)
         /\ (forall join, join ∈ joins -> TableIDByAlias qc !! joinAlias join = None))
        -> Error_ qc' = Error_ qc)
    /\ (~ (Forall (fun join => is_Some (reader (common.JoinTable join))) joins
           /\ NoDup (joinAlias <$> joins)
           /\ (forall join, join ∈ joins -> TableIDByAlias qc !! joinAlias join = None))
        -> Error_ qc' <> None).
Proof.
  induction joins as [| join rest IH]; intros i qc; cbn [readJoinSchemas].
  - exists qc. split; [done |]. split; [done |]. intros Hnot. destruct Hnot.
    split; [constructor |]. split; [constructor |]. intros join Hin.
    by apply elem_of_nil in Hin.
  - destruct (reader (common.JoinTable join)) as [schema |] eqn:Hschema.
    + unfold bind at 1, getContext at 1. fold (joinAlias join).
      destruct (TableIDByAlias qc !! joinAlias join) as [tableID |] eqn:Halias.
      * eexists. split; [reflexivity |]. cbn. split; [| done].
        intros (_ & _ & Hfresh). rewrite Hfresh in Halias; [done | by left].
      * unfold bind at 1. cbn [modifyContext].
        match goal with
        | |- context [readJoinSchemas reader rest (S i) ?q] => set (qc1 := q)
        end.
        destruct (IH (S i) qc1) as (qc' & Hrun & Hok & Hbad).
        exists qc'. split; [exact Hrun |].
        assert (Hiff :
          (Forall (fun join => is_Some (reader (common.JoinTable join))) rest
           /\ NoDup (joinAlias <$> rest)
           /\ (forall j, j ∈ rest -> TableIDByAlias qc1 !! joinAlias j = None))
          <-> (Forall (fun join => is_Some (reader (common.JoinTable join)))
                 (join :: rest)
               /\ NoDup (joinAlias <$> join :: rest)
               /\ (forall j, j ∈ join :: rest ->
                     TableIDByAlias qc !! joinAlias j = None))).
        { subst qc1. cbn [TableIDByAlias withSchemas]. rewrite fmap_cons, NoDup_cons.
          rewrite Forall_cons. split.
          - intros (Hknown & Hnodup & Hfresh). split; [by rewrite Hschema |].
            split.
            + split; [| done]. intros Hin. apply list_elem_of_fmap in Hin as (j & Hj & Hin).
              specialize (Hfresh j Hin). rewrite <- Hj in Hfresh.
              by rewrite lookup_insert_eq in Hfresh.
            + intros j Hin. apply elem_of_cons in Hin as [-> | Hin]; [done |].
              specialize (Hfresh j Hin).
              apply lookup_insert_None in Hfresh. tauto.
          - intros ((_ & Hknown) & (Hnotin & Hnodup) & Hfresh).
            split; [done |]. split; [done |]. intros j Hin.
            apply lookup_insert_None. split; [apply Hfresh; by right |].
            intros Heq. apply Hnotin. rewrite Heq.
            apply list_elem_of_fmap. eauto. }
        split.
        -- intros Hall. apply Hiff in Hall. by rewrite (Hok Hall).
        -- intros Hnot. apply Hbad. by rewrite Hiff.
    + eexists. split; [reflexivity |]. cbn. split; [| done].
      intros (Hknown & _). apply Forall_cons in Hknown as [[? Hk] _]. congruence.
Qed.

Lemma readSchema_error_iff (reader : string -> option memCom.TableSchema)
    (qc : QueryContext) :
  Error_ qc = None ->
  exists qc',
    readSchema reader qc = Ok (tt, qc')
    /\ (Error_ qc' = None <-> schemasBindable reader (AQLQuery qc)).
Proof.
  intros Hentry. unfold readSchema, schemasBindable.
  unfold bind at 1, getContext at 1. unfold bind at 1. unfold modifyContext at 1.
  destruct (reader (common.Table (AQLQuery qc))) as [schema |] eqn:Hschema.
  - unfold bind at 1. unfold modifyContext at 1.
    match goal with
    | |- context [readJoinSchemas reader _ 0 ?q] => set (qc1 := q)
    end.
    destruct (readJoinSchemas_error reader (common.Joins (AQLQuery qc)) 0 qc1)
      as (qc' & Hrun & Hok & Hbad).
    exists qc'. split; [exact Hrun |].
    assert (Hfresh : forall alias,
              TableIDByAlias qc1 !! alias = None
              <-> alias <> common.Table (AQLQuery qc)).
    { intros alias. subst qc1. cbn. rewrite lookup_singleton_None. naive_solver. }
    rewrite NoDup_cons. split.
    + intros Hnone. split; [done |].
      destruct (decide (Forall (fun join => is_Some (reader (common.JoinTable join)))
                          (common.Joins (AQLQuery qc)))) as [Hknown | Hknown];
        [| exfalso; apply Hbad; [tauto | done]].
      split; [done |].
      destruct (decide (NoDup (joinAlias <$> common.Joins (AQLQuery qc))))
        as [Hnodup | Hnodup]; [| exfalso; apply Hbad; [tauto | done]].
      split; [| done]. intros Hin. apply Hbad; [| done].
      intros (_ & _ & Hf). apply list_elem_of_fmap in Hin as (j & Hj & Hin).
      specialize (Hf j Hin). apply Hfresh in Hf. congruence.
    + intros (_ & Hknown & Hnotin & Hnodup). rewrite Hok; [done |].
      split; [done |]. split; [done |]. intros j Hin. apply Hfresh.
      intros Heq. apply Hnotin. rewrite <- Heq. apply list_elem_of_fmap. eauto.
  - eexists. split; [reflexivity |]. cbn. split; [done |].
    intros ([? Hk] & _). congruence.
Qed.

Lemma readJoinSchemas_binds reader joins : forall tables i qc,
  Forall2 (fun join table => reader (common.JoinTable join) = Some table) joins tables ->
  NoDup (joinAlias <$> joins) ->
  (forall join, join ∈ joins -> TableIDByAlias qc !! joinAlias join = None) ->
  (i + length joins < length (Tables qc))%nat ->
  exists qc',
    readJoinSchemas reader joins i qc = Ok (tt, qc')
    /\ Tables qc'
       = take (S i) (Tables qc) ++ (Some <$> tables)
         ++ drop (S i + length joins) (Tables qc)
    /\ (forall k join, joins !! k = Some join ->
          TableIDByAlias qc' !! joinAlias join = Some (1 + Z.of_nat (i + k)))
    /\ (forall alias, alias ∉ joinAlias <$> joins ->
          TableIDByAlias qc' !! alias = TableIDByAlias qc !! alias).
Proof.
  induction joins as [| join rest IH]; intros tables i qc Hknown Hnodup Hfresh Hlen;
    cbn [readJoinSchemas].
  - apply Forall2_nil_inv_l in Hknown as ->. exists qc. split; [done |].
    cbn [length fmap list_fmap app]. rewrite Nat.add_0_r, take_drop.
    split; [done |]. split; [| done]. intros k join Hk. by rewrite lookup_nil in Hk.
  - apply Forall2_cons_inv_l in Hknown as (table & tables' & Htable & Hknown & ->).
    rewrite Htable. unfold bind at 1, getContext at 1. fold (joinAlias join).
    rewrite (Hfresh join) by (by left).
    unfold bind at 1. cbn [modifyContext].
    match goal with
    | |- context [readJoinSchemas reader rest (S i) ?q] => set (qc1 := q)
    end.
    rewrite fmap_cons in Hnodup. apply NoDup_cons in Hnodup as [Hnotin Hnodup].
    cbn [length] in Hlen.
    destruct (IH tables' (S i) qc1 Hknown Hnodup) as (qc' & Hrun & Ht & Ha & Hother).
    { intros j Hin. subst qc1. cbn. apply lookup_insert_None.
      split; [apply Hfresh; by right |]. intros Heq. apply Hnotin.
      rewrite Heq. apply list_elem_of_fmap. eauto. }
    { subst qc1. cbn [Tables withSchemas]. rewrite length_insert. lia. }
    exists qc'. split; [exact Hrun |]. split; [| split].
    + rewrite Ht. subst qc1. cbn [Tables withSchemas length].
      rewrite (take_S_r (<[S i:=Some table]> (Tables qc)) (S i) (Some table))
        by (apply list_lookup_insert_eq; lia).
      rewrite take_insert_ge by lia. rewrite drop_insert_lt by lia.
      rewrite fmap_cons. rewrite <- (assoc_L (++)). cbn [app].
      by replace (S (S i) + length rest)%nat with (S i + S (length rest))%nat by lia.
    + intros [| k] j Hk.
      * injection Hk as ->. rewrite Hother by done. subst qc1. cbn.
        rewrite lookup_insert_eq. f_equal. lia.
      * cbn in Hk. rewrite (Ha k j Hk). f_equal. lia.
    + intros alias Halias. rewrite fmap_cons in Halias.
      apply not_elem_of_cons in Halias as [Hne Halias].
      rewrite (Hother alias Halias). subst qc1. cbn. by rewrite lookup_insert_ne.
Qed.

(** X2: what binding the schemas leaves when it succeeds: the table of the
    query followed by the tables of its joins, in their order; the main
    table under its own name as table 0; join [k] under its alias as table
    [k + 1]; and no other alias. *)
Theorem readSchema_binds (reader : string -> option memCom.TableSchema)
    (qc : QueryContext) (main : memCom.TableSchema) (tables : list memCom.TableSchema) :
  reader (common.Table (AQLQuery qc)) = Some main ->
  Forall2 (fun join table => reader (common.JoinTable join) = Some table)
    (common.Joins (AQLQuery qc)) tables ->
  NoDup (common.Table (AQLQuery qc) :: (joinAlias <$> common.Joins (AQLQuery qc))) ->
  exists qc',
    readSchema reader qc = Ok (tt, qc')
    /\ Tables qc' = Some main :: (Some <$> tables)
    /\ TableIDByAlias qc' !! common.Table (AQLQuery qc) = Some 0
    /\ (forall k join, common.Joins (AQLQuery qc) !! k = Some join ->
          TableIDByAlias qc' !! joinAlias join = Some (1 + Z.of_nat k))
    /\ (forall alias, is_Some (TableIDByAlias qc' !! alias) ->
          alias = common.Table (AQLQuery qc)
          \/ alias ∈ joinAlias <$> common.Joins (AQLQuery qc)).
Proof.
  intros Hmain Hknown Hnodup. apply NoDup_cons in Hnodup as [Hnotin Hnodup].
  unfold readSchema. unfold bind at 1, getContext at 1. unfold bind at 1.
  unfold modifyContext at 1. rewrite Hmain. unfold bind at 1.
  unfold modifyContext at 1.
  match goal with
  | |- context [readJoinSchemas reader _ 0 ?q] => set (qc1 := q)
  end.
  destruct (readJoinSchemas_binds reader _ tables 0 qc1 Hknown Hnodup)
    as (qc' & Hrun & Ht & Ha & Hother).
  { intros j Hin. subst qc1. cbn. apply lookup_singleton_None.
    intros Heq. apply Hnotin. rewrite Heq. apply list_elem_of_fmap. eauto. }
  { subst qc1. cbn. rewrite length_replicate. lia. }
  exists qc'. split; [exact Hrun |]. split; [| split; [| split]].
  - rewrite Ht. subst qc1. cbn [Tables withSchemas list_insert insert replicate take].
    cbn [app]. f_equal. rewrite drop_ge; [by rewrite app_nil_r |].
    cbn. rewrite length_replicate. lia.
  - rewrite Hother by done. subst qc1. cbn. by rewrite lookup_singleton_eq.
  - intros k j Hk. by rewrite (Ha k j Hk).
  - intros alias Hsome.
    destruct (decide (alias ∈ joinAlias <$> common.Joins (AQLQuery qc)))
      as [Hin | Hin]; [by right |].
    rewrite (Hother alias Hin) in Hsome. subst qc1. cbn in Hsome.
    destruct Hsome as [tableID Hsome].
    apply lookup_singleton_Some in Hsome as [-> _]. by left.
Qed.

Lemma readSchema_binds_witness :
  exists qc',
    readSchema Sample.reader SampleJoin.fresh = Ok (tt, qc')
    /\ Tables qc' = [Some Sample.trips; Some Sample.shapes]
    /\ TableIDByAlias qc' !! "trips" = Some 0
    /\ TableIDByAlias qc' !! "s" = Some 1.
Proof.
  destruct (readSchema_binds Sample.reader SampleJoin.fresh Sample.trips
              [Sample.shapes]) as (qc' & Hrun & Ht & Hmain & Hjoins & _).
  - reflexivity.
  - by repeat constructor.
  - cbn. apply NoDup_cons. split; [| apply NoDup_singleton].
    intros Hin. apply list_elem_of_singleton in Hin. discriminate.
  - exists qc'. split; [exact Hrun |]. split; [exact Ht |]. split; [exact Hmain |].
    exact (Hjoins 0%nat _ eq_refl).
Defined.

(** Whatever binding the schemas ends in, every alias it leaves stands for
    a bound table. *)
Lemma readJoinSchemas_aliasesBound reader joins : forall i qc qc',
  readJoinSchemas reader joins i qc = Ok (tt, qc') ->
  (i + length joins < length (Tables qc))%nat ->
  aliasesBound qc -> aliasesBound qc'.
Proof.
  induction joins as [| join rest IH]; intros i qc qc'; cbn [readJoinSchemas].
  - by intros [= <-].
  - destruct (reader (common.JoinTable join)) as [schema |] eqn:Hschema.
    2: { intros [= <-] _ Hb. exact Hb. }
    unfold bind at 1, getContext at 1. fold (joinAlias join).
    cbn [length]. intros Hrun Hlen Hbound.
    assert (Hkeep : forall tableID,
              0 <= tableID ->
              (exists table, Tables qc !! Z.to_nat tableID = Some (Some table)) ->
              exists table,
                <[S i:=Some schema]> (Tables qc) !! Z.to_nat tableID = Some (Some table)).
    { intros tableID Hpos [table Htable].
      destruct (decide (Z.to_nat tableID = S i)) as [-> | Hne].
      - exists schema. apply list_lookup_insert_eq. lia.
      - exists table. by rewrite list_lookup_insert_ne. }
    destruct (TableIDByAlias qc !! joinAlias join) as [tableID |] eqn:Halias.
    + injection Hrun as <-. intros alias id Hid. cbn in Hid |- *.
      destruct (Hbound alias id Hid) as [Hpos Htable]. split; [done |].
      by apply Hkeep.
    + unfold bind at 1 in Hrun. cbn [modifyContext] in Hrun.
      eapply IH; [exact Hrun | cbn; rewrite length_insert; lia |].
      intros alias id Hid. cbn in Hid |- *.
      apply lookup_insert_Some in Hid as [[<- <-] | [_ Hid]].
      * split; [lia |]. exists schema.
        replace (Z.to_nat (1 + Z.of_nat i)) with (S i) by lia.
        apply list_lookup_insert_eq. lia.
      * destruct (Hbound alias id Hid) as [Hpos Htable]. split; [done |].
        by apply Hkeep.
Qed.

Lemma readSchema_aliasesBound reader qc qc' :
  readSchema reader qc = Ok (tt, qc') -> aliasesBound qc'.
Proof.
  unfold readSchema. unfold bind at 1, getContext at 1. unfold bind at 1.
  unfold modifyContext at 1.
  destruct (reader (common.Table (AQLQuery qc))) as [schema |] eqn:Hschema.
  - unfold bind at 1. unfold modifyContext at 1. intros Hrun.
    eapply readJoinSchemas_aliasesBound; [exact Hrun | |].
    + cbn. rewrite length_replicate. lia.
    + intros alias id Hid. cbn in Hid |- *.
      apply lookup_singleton_Some in Hid as [_ <-]. split; [done |]. by exists schema.
  - intros [= <-]. intros alias id Hid. cbn in Hid. by rewrite lookup_empty in Hid.
Qed.

Lemma resolveColumn_total identifier qc :
  aliasesBound qc -> exists r, resolveColumn identifier qc = Ok (r, qc).
Proof.
  intros Hbound. unfold resolveColumn. unfold bind at 1, getContext at 1.
  destruct (match splitAtDot identifier with
            | Some segments => segments
            | None => (common.Table (AQLQuery qc), identifier)
            end) as [tableAlias column].
  destruct (TableIDByAlias qc !! tableAlias) as [tableID |] eqn:Halias; [| by eexists].
  destruct (Hbound _ _ Halias) as [Hpos [table Htable]].
  unfold bind at 1, getTable, bind, getContext, index.
  rewrite (proj2 (Z.leb_le 0 tableID) Hpos), Htable. cbn.
  destruct (memCom.ColumnIDs table !! column); by eexists.
Qed.

(** X3: after the schemas are bound, with or without error, resolving an
    identifier never panics and leaves the context alone. *)
Theorem resolveColumn_after_readSchema (reader : string -> option memCom.TableSchema)
    (qc qc' : QueryContext) (identifier : string) :
  readSchema reader qc = Ok (tt, qc') ->
  exists r, resolveColumn identifier qc' = Ok (r, qc').
Proof.
  intros Hrun. apply resolveColumn_total. by eapply readSchema_aliasesBound.
Qed.

Lemma resolveColumn_after_readSchema_witness :
  exists qc' r,
    readSchema Sample.reader SampleJoin.fresh = Ok (tt, qc')
    /\ resolveColumn "s.nosuchcolumn" qc' = Ok (r, qc').
Proof.
  destruct (readSchema Sample.reader SampleJoin.fresh) as [| [[] qc']] eqn:Hrun;
    [vm_compute in Hrun; discriminate |].
  destruct (resolveColumn_after_readSchema Sample.reader SampleJoin.fresh qc'
              "s.nosuchcolumn" Hrun) as [r Hr].
  by exists qc', r.
Defined.

(** ** Column references *)

Lemma resolveColumn_cases identifier qc :
  aliasesBound qc ->
  exists r,
    resolveColumn identifier qc = Ok (r, qc)
    /\ match r with
       | inl err => err = ErrUnknownTableAlias \/ err = ErrUnknownColumn
       | inr (tableID, columnID) =>
           0 <= tableID
           /\ exists table column,
                Tables qc !! Z.to_nat tableID = Some (Some table)
                /\ memCom.ColumnIDs table !! column = Some columnID
       end.
Proof.
  intros Hbound. unfold resolveColumn. unfold bind at 1, getContext at 1.
  destruct (match splitAtDot identifier with
            | Some segments => segments
            | None => (common.Table (AQLQuery qc), identifier)
            end) as [tableAlias column].
  destruct (TableIDByAlias qc !! tableAlias) as [tableID |] eqn:Halias.
  2: { eexists. split; [reflexivity |]. by left. }
  destruct (Hbound _ _ Halias) as [Hpos [table Htable]].
  unfold bind at 1, getTable, bind, getContext, index.
  rewrite (proj2 (Z.leb_le 0 tableID) Hpos), Htable. cbn.
  destruct (memCom.ColumnIDs table !! column) as [columnID |] eqn:Hcolumn.
  2: { eexists. split; [reflexivity |]. by right. }
  eexists. split; [reflexivity |]. split; [done |]. by exists table, column.
Qed.

(** X4: on a context whose aliases stand for bound tables with consistent
    schemas, rewriting a column reference never panics: it either stores an
    error and gives the reference back as it was, or leaves the context
    alone and gives a reference bound to a live column. *)
Theorem Rewrite_VarRef_bound (H : Helpers) (qc : QueryContext) (e : expr.VarRef) :
  aliasesBound qc ->
  (forall table, Some table ∈ Tables qc -> schemaConsistent table) ->
  exists e' qc',
    Rewrite H (expr.VarRefE e) qc = Ok (e', qc')
    /\ ((exists err,
           e' = expr.VarRefE e /\ qc' = withError (Some err) qc
           /\ err ∈ [ErrUnknownTableAlias; ErrUnknownColumn; ErrColumnDeleted])
        \/ (exists bound,
              e' = expr.VarRefE bound /\ qc' = qc /\ boundTo H qc e bound)).
Proof.
  intros Hbound Hconsistent.
  unfold Rewrite, RewriteNode, rewriteVarRef. unfold bind at 1.
  destruct (resolveColumn_cases (expr.Val e) qc Hbound) as (r & -> & Hr).
  destruct r as [err | [tableID columnID]].
  { do 2 eexists. split; [reflexivity |]. left. exists err.
    do 2 (split; [done |]). destruct Hr as [-> | ->]; set_solver. }
  destruct Hr as (Hpos & table & column & Htable & Hcolumn).
  assert (Hget : getTable tableID qc = Ok (table, qc)).
  { unfold getTable, bind, getContext, index.
    by rewrite (proj2 (Z.leb_le 0 tableID) Hpos), Htable. }
  unfold bind at 1. rewrite Hget.
  destruct (Hconsistent table (list_elem_of_lookup_2 _ _ _ Htable) _ _ Hcolumn)
    as (Hcpos & [col Hcol] & [dataType Hdt]).
  unfold bind at 1, index at 1.
  rewrite (proj2 (Z.leb_le 0 columnID) Hcpos), Hcol. cbn [ret].
  destruct (memCom.Deleted col) eqn:Hdeleted.
  { do 2 eexists. split; [reflexivity |]. left. exists ErrColumnDeleted.
    do 2 (split; [done |]). set_solver. }
  unfold bind at 1, index at 1.
  rewrite (proj2 (Z.leb_le 0 columnID) Hcpos), Hdt. cbn [ret].
  do 2 eexists. split; [reflexivity |]. right. eexists.
  do 2 (split; [reflexivity |]).
  split; [done |]. split; [done |].
  exists table, col. cbn. by repeat split.
Qed.

Lemma Sample_aliasesBound : aliasesBound SampleJoin.bound.
Proof.
  intros alias tableID Hid. cbn in Hid.
  apply lookup_insert_Some in Hid as [[<- <-] | [_ Hid]];
    [split; [done | by eexists] |].
  apply lookup_singleton_Some in Hid as [<- <-]. split; [done | by eexists].
Qed.

Lemma Sample_schemaConsistent (table : memCom.TableSchema) :
  Some table ∈ Tables SampleJoin.bound -> schemaConsistent table.
Proof.
  intros Hin. cbn in Hin.
  assert (Hcases : table = Sample.trips \/ table = Sample.shapes).
  { apply elem_of_cons in Hin as [[= ->] | Hin]; [by left |].
    apply list_elem_of_singleton in Hin as [= ->]. by right. }
  intros name columnID Hid.
  destruct Hcases as [-> | ->]; cbn in Hid;
    repeat (apply lookup_insert_Some in Hid as [[<- <-] | [_ Hid]];
            [split; [done | split; by eexists] |]);
    apply lookup_singleton_Some in Hid as [<- <-];
    (split; [done | split; by eexists]).
Qed.

Lemma Rewrite_VarRef_bound_witness :
  exists e' qc',
    Rewrite Sample.helpers (expr.VarRefE (expr.newVarRef "s.c")) SampleJoin.bound
    = Ok (e', qc')
    /\ ((exists err,
           e' = expr.VarRefE (expr.newVarRef "s.c")
           /\ qc' = withError (Some err) SampleJoin.bound
           /\ err ∈ [ErrUnknownTableAlias; ErrUnknownColumn; ErrColumnDeleted])
        \/ (exists bound,
              e' = expr.VarRefE bound /\ qc' = SampleJoin.bound
              /\ boundTo Sample.helpers SampleJoin.bound (expr.newVarRef "s.c") bound)).
Proof.
  exact (Rewrite_VarRef_bound Sample.helpers SampleJoin.bound (expr.newVarRef "s.c")
           Sample_aliasesBound Sample_schemaConsistent).
Defined.

Lemma splitAtDot_dotFree (s : string) : dotFree s = true -> splitAtDot s = None.
Proof.
  induction s as [| c rest IH]; [done |]. cbn.
  destruct (Ascii.eqb c "."); [done |]. cbn. intros Hrest. by rewrite IH.
Qed.

Lemma splitAtDot_app (a b : string) :
  dotFree a = true -> splitAtDot (a +:+ String "."%char b) = Some (a, b).
Proof.
  induction a as [| c rest IH]; [done |].
  change (String c rest +:+ String "."%char b)
    with (String c (rest +:+ String "."%char b)).
  cbn [dotFree splitAtDot].
  destruct (Ascii.eqb c "."); [done |]. cbn [negb andb]. intros Hrest. by rewrite IH.
Qed.

Lemma resolveColumn_split (qc : QueryContext) (alias column : string) :
  dotFree alias = true ->
  resolveColumn (alias +:+ "." +:+ column) qc
  = match TableIDByAlias qc !! alias with
    | None => Ok (inl ErrUnknownTableAlias, qc)
    | Some tableID =>
        match getTable tableID qc with
        | Panic => Panic
        | Ok (table, _) =>
            match memCom.ColumnIDs table !! column with
            | None => Ok (inl ErrUnknownColumn, qc)
            | Some columnID => Ok (inr (tableID, columnID), qc)
            end
        end
    end
  /\ resolveColumn alias qc
     = match TableIDByAlias qc !! common.Table (AQLQuery qc) with
       | None => Ok (inl ErrUnknownTableAlias, qc)
       | Some tableID =>
           match getTable tableID qc with
           | Panic => Panic
           | Ok (table, _) =>
               match memCom.ColumnIDs table !! alias with
               | None => Ok (inl ErrUnknownColumn, qc)
               | Some columnID => Ok (inr (tableID, columnID), qc)
               end
           end
       end.
Proof.
  intros Hfree. unfold resolveColumn, bind, getContext.
  change ("." +:+ column) with (String "."%char column).
  rewrite (splitAtDot_app _ column Hfree), (splitAtDot_dotFree _ Hfree).
  split.
  - destruct (TableIDByAlias qc !! alias) as [tableID |]; [| done].
    destruct (getTable tableID qc) as [| [table qc1]] eqn:Hget; [done |].
    apply getTable_state in Hget as ->.
    by destruct (memCom.ColumnIDs table !! column).
  - destruct (TableIDByAlias qc !! common.Table (AQLQuery qc)) as [tableID |]; [| done].
    destruct (getTable tableID qc) as [| [table qc1]] eqn:Hget; [done |].
    apply getTable_state in Hget as ->.
    by destruct (memCom.ColumnIDs table !! alias).
Qed.

(** X5: in an identifier with dots, the text before the first dot is the alias
    of a table and all the text after it, further dots included, is the
    column; an identifier without dot names a column of the main table, so
    that putting the name of the main table before such a column changes
    nothing. *)
Theorem resolveColumn_identifier (qc : QueryContext) (alias column : string)
    (tableID : Z) (table : memCom.TableSchema) :
  dotFree alias = true ->
  TableIDByAlias qc !! alias = Some tableID ->
  0 <= tableID ->
  Tables qc !! Z.to_nat tableID = Some (Some table) ->
  resolveColumn (alias +:+ "." +:+ column) qc
  = Ok (match memCom.ColumnIDs table !! column with
        | Some columnID => inr (tableID, columnID)
        | None => inl ErrUnknownColumn
        end, qc)
  /\ (alias = common.Table (AQLQuery qc) -> dotFree column = true ->
      resolveColumn column qc = resolveColumn (alias +:+ "." +:+ column) qc).
Proof.
  intros Hfree Halias Hpos Htable.
  assert (Hget : getTable tableID qc = Ok (table, qc)).
  { unfold getTable, bind, getContext, index.
    by rewrite (proj2 (Z.leb_le 0 tableID) Hpos), Htable. }
  destruct (resolveColumn_split qc alias column Hfree) as [-> _].
  rewrite Halias, Hget. split; [by destruct (memCom.ColumnIDs table !! column) |].
  intros -> Hcolumn.
  destruct (resolveColumn_split qc column EmptyString Hcolumn) as [_ ->].
  by rewrite Halias, Hget.
Qed.

Lemma resolveColumn_identifier_witness :
  resolveColumn "s.c" SampleJoin.bound = Ok (inr (1, 2), SampleJoin.bound).
Proof.
  exact (proj1 (resolveColumn_identifier SampleJoin.bound "s" "c" 1 Sample.shapes
                  eq_refl eq_refl ltac:(done) eq_refl)).
Defined.

(** ** Unary operators *)

(** X6: among the unary operators, a UUID column takes GET_HLL_VALUE only:
    under it the column is cast to Unsigned; under any other operator the
    node comes back as it was, with an error. *)
Theorem Rewrite_unary_uuid (H : Helpers) (qc : QueryContext) (Op : expr.Token)
    (v : expr.VarRef) (ty : expr.Type_) :
  expr.DataType v = memCom.UUID ->
  Rewrite H (expr.UnaryExpr Op (expr.VarRefE v) ty) qc
  = if decide (Op = expr.GET_HLL_VALUE)
    then Ok (expr.UnaryExpr expr.GET_HLL_VALUE
               (Cast H (expr.VarRefE v) expr.Unsigned) expr.Unsigned, qc)
    else Ok (expr.UnaryExpr Op (expr.VarRefE v) ty,
             withError (Some ErrUUIDUnary) qc).
Proof.
  intros Huuid. unfold Rewrite, RewriteNode, rewriteUnary.
  cbn [expr.IsUUIDColumn]. rewrite (bool_decide_eq_true_2 _ Huuid).
  destruct (decide (Op = expr.GET_HLL_VALUE)) as [-> | Hop].
  - done.
  - by rewrite (bool_decide_eq_false_2 _ Hop).
Qed.

Lemma Rewrite_unary_uuid_witness :
  Rewrite Sample.helpers
    (expr.UnaryExpr expr.NOT (expr.VarRefE SampleJoin.idRef) expr.UnknownType)
    SampleJoin.bound
  = Ok (expr.UnaryExpr expr.NOT (expr.VarRefE SampleJoin.idRef) expr.UnknownType,
        withError (Some ErrUUIDUnary) SampleJoin.bound).
Proof.
  exact (Rewrite_unary_uuid Sample.helpers SampleJoin.bound expr.NOT SampleJoin.idRef
           expr.UnknownType eq_refl).
Defined.

(** X7: EXCLAMATION and IS_FALSE are rewritten as NOT is: on a child that is no
    UUID column, the three operators give the same result, whatever type
    the node carried. *)
Theorem Rewrite_unary_not_forms (H : Helpers) (qc : QueryContext) (Op : expr.Token)
    (child : expr.Expr) (ty ty' : expr.Type_) :
  Op = expr.EXCLAMATION \/ Op = expr.IS_FALSE ->
  expr.IsUUIDColumn child = false ->
  Rewrite H (expr.UnaryExpr Op child ty) qc
  = Rewrite H (expr.UnaryExpr expr.NOT child ty') qc.
Proof.
  intros Hop Huuid. unfold Rewrite, RewriteNode, rewriteUnary. rewrite Huuid.
  by destruct Hop as [-> | ->].
Qed.

Lemma Rewrite_unary_not_forms_witness :
  Rewrite Sample.helpers
    (expr.UnaryExpr expr.IS_FALSE (expr.VarRefE SampleJoin.tsRef) expr.UnknownType)
    SampleJoin.bound
  = Rewrite Sample.helpers
      (expr.UnaryExpr expr.NOT (expr.VarRefE SampleJoin.tsRef) expr.Boolean)
      SampleJoin.bound.
Proof.
  exact (Rewrite_unary_not_forms Sample.helpers SampleJoin.bound expr.IS_FALSE
           (expr.VarRefE SampleJoin.tsRef) expr.UnknownType expr.Boolean
           (or_intror eq_refl) eq_refl).
Defined.

(** X8: a unary minus that goes through is typed Signed at least: the type of
    its child when that is Signed or above, and Signed otherwise. *)
Theorem Rewrite_unary_minus (H : Helpers) (qc qc' : QueryContext)
    (child e' : expr.Expr) (ty : expr.Type_) :
  Rewrite H (expr.UnaryExpr expr.UNARY_MINUS child ty) qc = Ok (e', qc') ->
  Error_ qc' = None ->
  qc' = qc
  /\ e' = expr.UnaryExpr expr.UNARY_MINUS child
            (higherType expr.Signed (expr.typeOf child))
  /\ expr.Type_code expr.Signed <= expr.Type_code (expr.typeOf e').
Proof.
  unfold Rewrite, RewriteNode, rewriteUnary.
  destruct (expr.IsUUIDColumn child && _); [by intros [= <- <-] |].
  destruct (blockNumericOpsForColumnOverFourBytes H expr.UNARY_MINUS [child]);
    [by intros [= <- <-] |].
  assert (Htype : child = expr.Nil \/ TypeOf child = ret (expr.typeOf child))
    by (destruct child; auto).
  destruct Htype as [-> | Htype]; [done |].
  unfold bind. rewrite Htype. cbn [ret]. intros [= <- <-] _. split; [done |].
  unfold higherType. cbn [expr.typeOf]. by destruct (expr.typeOf child).
Qed.

Lemma Rewrite_unary_minus_witness :
  Rewrite Sample.helpers
    (expr.UnaryExpr expr.UNARY_MINUS (expr.VarRefE SampleJoin.tsRef) expr.UnknownType)
    SampleJoin.bound
  = Ok (expr.UnaryExpr expr.UNARY_MINUS (expr.VarRefE SampleJoin.tsRef) expr.Signed,
        SampleJoin.bound)
  /\ expr.Type_code expr.Signed
     <= expr.Type_code
          (expr.typeOf (expr.UnaryExpr expr.UNARY_MINUS
                          (expr.VarRefE SampleJoin.tsRef) expr.Signed)).
Proof.
  assert (Hrun : Rewrite Sample.helpers
                   (expr.UnaryExpr expr.UNARY_MINUS (expr.VarRefE SampleJoin.tsRef)
                      expr.UnknownType) SampleJoin.bound
                 = Ok (expr.UnaryExpr expr.UNARY_MINUS
                         (expr.VarRefE SampleJoin.tsRef) expr.Signed,
                       SampleJoin.bound)) by reflexivity.
  split; [exact Hrun |].
  exact (proj2 (proj2 (Rewrite_unary_minus Sample.helpers _ _ _ _ _ Hrun eq_refl))).
Defined.

(** ** Binary operators *)

Lemma TypeOf_Ok e t qc qc' :
  TypeOf e qc = Ok (t, qc') -> qc' = qc /\ t = expr.typeOf e /\ e <> expr.Nil.
Proof. destruct e; try done; by intros [= <- <-]. Qed.

(** A cast either ends the rewriting or gives the cast expression and
    leaves the context alone. *)
Lemma CastM_cases (H : Helpers) e t qc :
  CastM H e t qc = Panic \/ CastM H e t qc = Ok (Cast H e t, qc).
Proof.
  unfold CastM. destruct e; auto; destruct (castFails _ t); auto.
Qed.

(** The cast that goes through: of an expression that is not nil, and not
    to Boolean from a geo type. *)
Lemma CastM_Ok (H : Helpers) e t qc :
  e <> expr.Nil -> castFails e t = false ->
  CastM H e t qc = Ok (Cast H e t, qc).
Proof. intros He Hf. unfold CastM. rewrite Hf. by destruct e. Qed.

(** No cast fails to a type that is at least the type of the expression. *)
Lemma castFails_higher e t :
  expr.Type_code (expr.typeOf e) <= expr.Type_code t -> castFails e t = false.
Proof.
  unfold castFails, geoTyped.
  destruct t; try done; destruct (expr.typeOf e); try done; cbn; lia.
Qed.

Lemma castFails_not_Boolean e t : t <> expr.Boolean -> castFails e t = false.
Proof. intros Ht. unfold castFails. by rewrite (bool_decide_eq_false_2 _ Ht). Qed.

Lemma castFails_Boolean e : castFails e expr.Boolean = geoTyped e.
Proof. done. Qed.

(** Runs the casts of a rewriting that is known to have gone through. *)
Ltac cast_run Hrun :=
  unfold bind in Hrun;
  repeat match type of Hrun with
         | context [CastM ?H ?e ?t ?q] =>
             let Hc := fresh "Hc" in
             destruct (CastM_cases H e t q) as [Hc | Hc]; rewrite Hc in Hrun; clear Hc;
             [by cbn in Hrun |]
         end.

Lemma rewriteEquality_Boolean (H : Helpers) Op LHS RHS highestType qc e' qc' :
  rewriteEquality H Op LHS RHS highestType qc = Ok (e', qc') ->
  expr.typeOf e' = expr.Boolean.
Proof.
  unfold rewriteEquality, bind, CastM, setError, ret, panic. intros Hrun.
  repeat (case_match; simplify_eq; try done).
Qed.

(** X9: the type a binary node gets when its rewriting goes through, by
    operator: Boolean for the logical operators and the comparisons; Float
    for a division; Unsigned for the bitwise operators, FLOOR and
    CONVERT_TZ; the higher of the operand types for ADD, MUL and MOD; and
    for SUB Float when that is the higher operand type, and Signed
    otherwise. *)
Theorem Rewrite_binary_types (H : Helpers) (qc qc' : QueryContext) (Op : expr.Token)
    (LHS RHS e' : expr.Expr) (ty : expr.Type_) :
  Rewrite H (expr.BinaryExpr Op LHS RHS ty) qc = Ok (e', qc') ->
  Error_ qc' = None ->
  (Op ∈ [expr.AND; expr.OR; expr.LT; expr.LTE; expr.GT; expr.GTE; expr.EQ; expr.NEQ]
   -> expr.typeOf e' = expr.Boolean)
  /\ (Op = expr.DIV -> expr.typeOf e' = expr.Float)
  /\ (Op ∈ [expr.BITWISE_AND; expr.BITWISE_OR; expr.BITWISE_XOR;
            expr.BITWISE_LEFT_SHIFT; expr.BITWISE_RIGHT_SHIFT;
            expr.FLOOR; expr.CONVERT_TZ]
      -> expr.typeOf e' = expr.Unsigned)
  /\ (Op ∈ [expr.ADD; expr.MUL; expr.MOD]
      -> expr.typeOf e' = higherType (expr.typeOf LHS) (expr.typeOf RHS))
  /\ (Op = expr.SUB
      -> expr.typeOf e'
         = if decide (higherType (expr.typeOf LHS) (expr.typeOf RHS) = expr.Float)
           then expr.Float else expr.Signed).
Proof.
  unfold Rewrite, RewriteNode, rewriteBinary.
  destruct (blockNumericOpsForColumnOverFourBytes H Op [LHS; RHS]);
    [by intros [= <- <-] |].
  destruct (negb _ && negb _ && _); [by intros [= <- <-] |].
  unfold bind at 1.
  destruct (TypeOf LHS qc) as [| [lhsType qc1]] eqn:Hl; [done |].
  apply TypeOf_Ok in Hl as (-> & -> & _).
  unfold bind at 1.
  destruct (TypeOf RHS qc) as [| [rhsType qc1]] eqn:Hr; [done |].
  apply TypeOf_Ok in Hr as (-> & -> & _).
  fold (higherType (expr.typeOf LHS) (expr.typeOf RHS)).
  intros Hrun Hnone.
  repeat split; intros Hop.
  - repeat (apply elem_of_cons in Hop as [-> | Hop]); try (by apply elem_of_nil in Hop);
      try (cast_run Hrun; by injection Hrun as <- _).
    all: by eapply rewriteEquality_Boolean.
  - subst Op. cast_run Hrun. by injection Hrun as <- _.
  - repeat (apply elem_of_cons in Hop as [-> | Hop]); try (by apply elem_of_nil in Hop);
      cast_run Hrun; by injection Hrun as <- _.
  - repeat (apply elem_of_cons in Hop as [-> | Hop]); try (by apply elem_of_nil in Hop).
    + destruct (decide _) as [Hf | Hf].
      * cast_run Hrun. by injection Hrun as <- _.
      * cbn in Hrun. by injection Hrun as <- _.
    + cast_run Hrun; by injection Hrun as <- _.
    + cast_run Hrun; by injection Hrun as <- _.
  - subst Op. destruct (decide _) as [Hf | Hf].
    + cast_run Hrun. injection Hrun as <- _.
      cbn. by rewrite Hf.
    + cbn in Hrun. by injection Hrun as <- _.
Qed.

Lemma Rewrite_binary_types_witness :
  exists e',
    Rewrite Sample.helpers
      (expr.BinaryExpr expr.GTE (expr.VarRefE SampleJoin.tsRef)
         (expr.NumberLiteral 1 "1" expr.Unsigned) expr.UnknownType)
      SampleJoin.bound
    = Ok (e', SampleJoin.bound)
    /\ expr.typeOf e' = expr.Boolean.
Proof.
  eexists. split; [vm_compute; reflexivity |].
  refine (proj1 (Rewrite_binary_types Sample.helpers SampleJoin.bound SampleJoin.bound
                   expr.GTE (expr.VarRefE SampleJoin.tsRef)
                   (expr.NumberLiteral 1 "1" expr.Unsigned) _ expr.UnknownType
                   eq_refl eq_refl) _).
  repeat constructor.
Defined.

(** X10: a string literal is an operand of EQ and NEQ only: under any other
    binary operator the node comes back as it was, with an error, and the
    rewriter does not panic, whatever the other operand. *)
Theorem Rewrite_binary_string_operand (H : Helpers) (qc : QueryContext)
    (Op : expr.Token) (LHS RHS : expr.Expr) (ty : expr.Type_) :
  Op <> expr.EQ -> Op <> expr.NEQ ->
  isStringLiteral LHS = true \/ isStringLiteral RHS = true ->
  exists err,
    Rewrite H (expr.BinaryExpr Op LHS RHS ty) qc
    = Ok (expr.BinaryExpr Op LHS RHS ty, withError (Some err) qc)
    /\ (err = ErrStringOnlyEqNeq \/ err = ErrOversizeNumericOp).
Proof.
  intros Heq Hneq Hstring. unfold Rewrite, RewriteNode, rewriteBinary.
  destruct (blockNumericOpsForColumnOverFourBytes H Op [LHS; RHS]) as [err |] eqn:Hblock.
  - exists err. split; [done |]. right.
    unfold blockNumericOpsForColumnOverFourBytes in Hblock.
    destruct (isBlockedToken Op); [| done].
    by eapply firstOversizeColumn_error.
  - exists ErrStringOnlyEqNeq. split; [| by left].
    rewrite (bool_decide_eq_false_2 _ Heq), (bool_decide_eq_false_2 _ Hneq).
    by destruct Hstring as [-> | ->]; rewrite ?orb_true_r.
Qed.

Lemma Rewrite_binary_string_operand_witness :
  exists err,
    Rewrite Sample.helpers
      (expr.BinaryExpr expr.LT (expr.VarRefE SampleJoin.tsRef)
         (expr.StringLiteral "noon") expr.UnknownType)
      SampleJoin.bound
    = Ok (expr.BinaryExpr expr.LT (expr.VarRefE SampleJoin.tsRef)
            (expr.StringLiteral "noon") expr.UnknownType,
          withError (Some err) SampleJoin.bound)
    /\ (err = ErrStringOnlyEqNeq \/ err = ErrOversizeNumericOp).
Proof.
  refine (Rewrite_binary_string_operand Sample.helpers SampleJoin.bound expr.LT
            (expr.VarRefE SampleJoin.tsRef) (expr.StringLiteral "noon")
            expr.UnknownType _ _ (or_intror eq_refl)); discriminate.
Defined.

Lemma higherType_comm (a b : expr.Type_) : higherType a b = higherType b a.
Proof. by destruct a, b. Qed.

(** X11: an equality between a column and something that is no column is
    rewritten the same way whichever side the column is on. *)
Theorem Rewrite_equality_swap (H : Helpers) (qc : QueryContext) (Op : expr.Token)
    (v : expr.VarRef) (other : expr.Expr) (ty ty' : expr.Type_) :
  Op = expr.EQ \/ Op = expr.NEQ ->
  isVarRef other = false ->
  Rewrite H (expr.BinaryExpr Op other (expr.VarRefE v) ty) qc
  = Rewrite H (expr.BinaryExpr Op (expr.VarRefE v) other ty') qc.
Proof.
  intros Hop Hother. unfold Rewrite, RewriteNode, rewriteBinary.
  assert (Hblock : forall l, blockNumericOpsForColumnOverFourBytes H Op l = None)
    by (by destruct Hop as [-> | ->]).
  rewrite !Hblock.
  assert (Hguard : negb (bool_decide (Op = expr.EQ)) && negb (bool_decide (Op = expr.NEQ))
                   = false) by (by destruct Hop as [-> | ->]).
  rewrite Hguard. cbn [andb].
  unfold bind. cbn [TypeOf ret].
  destruct other; try done; cbn [TypeOf ret expr.typeOf];
    match goal with
    | |- context [expr.Type_code ?a <? expr.Type_code ?b] =>
        fold (higherType a b); fold (higherType b a);
        rewrite (higherType_comm b a)
    end;
    by destruct Hop as [-> | ->].
Qed.

Lemma Rewrite_equality_swap_witness :
  Rewrite Sample.helpers
    (expr.BinaryExpr expr.EQ (expr.StringLiteral "SF") (expr.VarRefE Sample.cityRef)
       expr.UnknownType)
    SampleJoin.bound
  = Rewrite Sample.helpers
      (expr.BinaryExpr expr.EQ (expr.VarRefE Sample.cityRef) (expr.StringLiteral "SF")
         expr.UnknownType)
      SampleJoin.bound.
Proof.
  exact (Rewrite_equality_swap Sample.helpers SampleJoin.bound expr.EQ Sample.cityRef
           (expr.StringLiteral "SF") expr.UnknownType expr.UnknownType
           (or_introl eq_refl) eq_refl).
Defined.

(** X12: comparing a column with a boolean literal leaves a unary test of the
    column: IS_TRUE for [= true] and [!= false], NOT for [= false] and
    [!= true]; the context is not touched. *)
Theorem Rewrite_equality_boolean_literal (H : Helpers) (qc : QueryContext)
    (v : expr.VarRef) (val : bool) (ty : expr.Type_) :
  Rewrite H (expr.BinaryExpr expr.EQ (expr.VarRefE v) (expr.BooleanLiteral val) ty) qc
  = Ok (expr.UnaryExpr (if val then expr.IS_TRUE else expr.NOT) (expr.VarRefE v)
          expr.Boolean, qc)
  /\ Rewrite H (expr.BinaryExpr expr.NEQ (expr.VarRefE v) (expr.BooleanLiteral val) ty) qc
     = Rewrite H (expr.BinaryExpr expr.EQ (expr.VarRefE v)
                    (expr.BooleanLiteral (negb val)) ty) qc.
Proof. by destruct val. Qed.

(** ** The IN expansion over an enum column *)

Lemma expandIN_enum_loop (H : Helpers) (lhs : expr.VarRef) (dict : gmap string Z)
    (qc : QueryContext) (vals : list string) : forall chain,
  expr.EnumDict lhs = Some dict ->
  (forall val, chain <> expr.BooleanLiteral val) ->
  foldM (fun expandedExpr value =>
           let comparison :=
             expr.BinaryExpr expr.EQ (expr.VarRefE lhs) value expr.UnknownType in
           match expandedExpr with
           | expr.BooleanLiteral _ =>
               do rewritten <- rewriteComparison H comparison;
               assertBinaryExpr rewritten
           | lastExpr =>
               do rewritten <- rewriteComparison H comparison;
               do rewritten' <- assertBinaryExpr rewritten;
               ret (expr.BinaryExpr expr.OR lastExpr rewritten' expr.UnknownType)
           end)
        (expr.StringLiteral <$> vals) chain qc
  = Ok (foldl (fun chain comparison =>
                 expr.BinaryExpr expr.OR chain comparison expr.UnknownType)
              chain (enumComparison lhs dict <$> vals), qc).
Proof.
  intros chain Hdict. revert chain.
  induction vals as [| val rest IH]; intros chain Hchain; [done |].
  cbn [fmap list_fmap foldM foldl]. unfold bind at 1.
  assert (Hcmp : rewriteComparison H
                   (expr.BinaryExpr expr.EQ (expr.VarRefE lhs)
                      (expr.StringLiteral val) expr.UnknownType) qc
                 = Ok (enumComparison lhs dict val, qc)).
  { unfold rewriteComparison, RewriteNode, rewriteBinary. cbn.
    unfold rewriteEquality. cbn. by rewrite Hdict. }
  destruct chain; try (by destruct (Hchain val0));
    unfold bind at 1; rewrite Hcmp; cbn [assertBinaryExpr enumComparison ret bind];
    apply IH; done.
Qed.

(** X13: IN over an enum column and a list of strings is rewritten to the
    disjunction of the equalities of the column with the codes its
    dictionary gives the strings, in the order of the list; a string the
    dictionary does not have is compared as -1; NOT_IN gives the untyped
    negation of that disjunction.  The context is not touched. *)
Theorem Rewrite_in_enum_strings (H : Helpers) (qc : QueryContext) (lhs : expr.VarRef)
    (dict : gmap string Z) (Name : string) (vals : list string)
    (ty ty' : expr.Type_) :
  expr.EnumDict lhs = Some dict ->
  Rewrite H (expr.BinaryExpr expr.IN (expr.VarRefE lhs)
               (expr.Call Name (expr.StringLiteral <$> vals) ty') ty) qc
  = Ok (orChain (enumComparison lhs dict <$> vals), qc)
  /\ Rewrite H (expr.BinaryExpr expr.NOT_IN (expr.VarRefE lhs)
                  (expr.Call Name (expr.StringLiteral <$> vals) ty') ty) qc
     = Ok (expr.UnaryExpr expr.NOT (orChain (enumComparison lhs dict <$> vals))
             expr.UnknownType, qc).
Proof.
  intros Hdict.
  assert (Hexpand : expandINop H (expr.VarRefE lhs)
                      (expr.Call Name (expr.StringLiteral <$> vals) ty') qc
                    = Ok (orChain (enumComparison lhs dict <$> vals), qc)).
  { unfold expandINop, expandINopWith. cbn [asVarRef]. unfold bind at 1. cbn [ret].
    destruct vals as [| val rest]; [done |].
    cbn [fmap list_fmap foldM orChain]. unfold bind at 1. unfold bind at 1.
    assert (Hcmp : rewriteComparison H
                     (expr.BinaryExpr expr.EQ (expr.VarRefE lhs)
                        (expr.StringLiteral val) expr.UnknownType) qc
                   = Ok (enumComparison lhs dict val, qc)).
    { unfold rewriteComparison, RewriteNode, rewriteBinary. cbn.
      unfold rewriteEquality. cbn. by rewrite Hdict. }
    rewrite Hcmp. cbn [assertBinaryExpr enumComparison ret].
    by apply (expandIN_enum_loop H lhs dict qc rest). }
  unfold Rewrite. set (expand := expandINop H) in *. clearbody expand.
  set (args := expr.StringLiteral <$> vals) in *. clearbody args.
  unfold RewriteNode, rewriteBinary, blockNumericOpsForColumnOverFourBytes, bind.
  cbn. change (isBlockedToken expr.IN) with false.
  change (isBlockedToken expr.NOT_IN) with false.
  rewrite !andb_false_r. by rewrite Hexpand.
Qed.

Lemma Rewrite_in_enum_strings_witness :
  Rewrite Sample.helpers
    (expr.BinaryExpr expr.IN (expr.VarRefE Sample.cityRef)
       (expr.Call "list" [expr.StringLiteral "NYC"; expr.StringLiteral "LA"]
          expr.UnknownType)
       expr.UnknownType)
    SampleJoin.bound
  = Ok (expr.BinaryExpr expr.OR
          (expr.BinaryExpr expr.EQ (expr.VarRefE Sample.cityRef)
             (expr.NumberLiteral 1 EmptyString expr.Unsigned) expr.Boolean)
          (expr.BinaryExpr expr.EQ (expr.VarRefE Sample.cityRef)
             (expr.NumberLiteral (-1) EmptyString expr.Unsigned) expr.Boolean)
          expr.UnknownType,
        SampleJoin.bound).
Proof.
  exact (proj1 (Rewrite_in_enum_strings Sample.helpers SampleJoin.bound Sample.cityRef
                  Sample.cityDict "list" ["NYC"; "LA"] expr.UnknownType
                  expr.UnknownType eq_refl)).
Defined.

(** ** Calls *)



(** X15: [countdistincthll] over a column is rewritten to [hll], over the column
    itself when that is an HLL column and over its GET_HLL_VALUE
    otherwise; so rewritten, it passes the checks of the measures whether
    the binary HLL form is asked for or not. *)
Theorem Rewrite_countdistincthll (H : Helpers) (qc : QueryContext) (Name : string)
    (v : expr.VarRef) (ty : expr.Type_) :
  ToLower H Name = expr.CountDistinctHllCallName ->
  exists e',
    Rewrite H (expr.Call Name [expr.VarRefE v] ty) qc = Ok (e', qc)
    /\ e' = expr.Call expr.HllCallName
              [if expr.IsHLLColumn v then expr.VarRefE v
               else expr.UnaryExpr expr.GET_HLL_VALUE (expr.VarRefE v) expr.Unsigned]
              expr.Unsigned
    /\ forall (qc1 : QueryContext) (measure : common.Measure),
         common.Measures (AQLQuery qc1) = [measure] ->
         common.ExprParsed measure = e' ->
         checkMeasures qc1 = Ok (tt, qc1).
Proof.
  intros Hname. eexists. split; [| split; [reflexivity |]].
  - unfold Rewrite, RewriteNode, rewriteCall. by rewrite Hname.
  - intros qc1 measure Hone Hparsed. unfold checkMeasures, bind, getContext.
    rewrite Hone, Hparsed. cbn. by rewrite andb_false_r.
Qed.

Lemma Rewrite_countdistincthll_witness :
  exists e',
    Rewrite Sample.helpers
      (expr.Call "countDistinctHLL" [expr.VarRefE SampleJoin.tsRef] expr.UnknownType)
      SampleJoin.bound
    = Ok (e', SampleJoin.bound)
    /\ e' = expr.Call "hll"
              [expr.UnaryExpr expr.GET_HLL_VALUE (expr.VarRefE SampleJoin.tsRef)
                 expr.Unsigned]
              expr.Unsigned
    /\ forall (qc1 : QueryContext) (measure : common.Measure),
         common.Measures (AQLQuery qc1) = [measure] ->
         common.ExprParsed measure = e' ->
         checkMeasures qc1 = Ok (tt, qc1).
Proof.
  exact (Rewrite_countdistincthll Sample.helpers SampleJoin.bound "countDistinctHLL"
           SampleJoin.tsRef expr.UnknownType eq_refl).
Defined.

(** ** The stages, and the query a compilation leaves *)

Lemma parseAndRewrite_length H kind texts : forall qc es ok qc',
  parseAndRewrite H kind texts qc = Ok ((es, ok), qc') ->
  length es = length texts.
Proof.
  induction texts as [| text rest IH]; intros qc es ok qc'; cbn [parseAndRewrite].
  - by intros [= <- _ _].
  - destruct (ParseExpr H text) as [parsed |].
    + unfold bind at 1.
      destruct (exprRewrite H parsed qc) as [| [e qc1]]; [done |].
      unfold bind at 1, getContext at 1.
      destruct (Error_ qc1).
      * intros [= <- _ _]. cbn. by rewrite length_map.
      * unfold bind at 1.
        destruct (parseAndRewrite H kind rest qc1) as [| [[es' ok'] qc2]] eqn:Hrec;
          [done |].
        intros [= <- _ _]. cbn. f_equal. by eapply IH.
    + unfold bind, setError. intros [= <- _ _]. cbn. by rewrite length_map.
Qed.

Lemma errorOnly_frame {A} (m : M A) qc a qc' :
  errorOnly m -> m qc = Ok (a, qc') ->
  AQLQuery qc' = AQLQuery qc /\ Tables qc' = Tables qc
  /\ TableIDByAlias qc' = TableIDByAlias qc
  /\ ReturnHLLBinary qc' = ReturnHLLBinary qc
  /\ IsNonAggregationQuery qc' = IsNonAggregationQuery qc
  /\ NumDimsPerDimWidth qc' = NumDimsPerDimWidth qc
  /\ DimensionEnumReverseDicts qc' = DimensionEnumReverseDicts qc
  /\ DimensionVectorIndex qc' = DimensionVectorIndex qc
  /\ DimRowBytes qc' = DimRowBytes qc
  /\ (Error_ qc <> None -> Error_ qc' <> None).
Proof.
  intros Hm Hrun. by destruct (Hm _ _ _ Hrun) as [-> | [err ->]].
Qed.

Lemma errorOnly_joinsLoop H joins : errorOnly (joinsLoop H joins).
Proof.
  induction joins as [| join rest IH]; cbn [joinsLoop]; [apply errorOnly_ret |].
  apply errorOnly_bind; [apply errorOnly_parseAndRewrite |].
  intros [parsed ok]. destruct ok; [| apply errorOnly_ret].
  apply errorOnly_bind; [exact IH |]. intros [rest' ok']. apply errorOnly_ret.
Qed.

Lemma errorOnly_expandDimensions H rawDims : forall dimensions,
  errorOnly (expandDimensions H rawDims dimensions).
Proof.
  induction rawDims as [| dim rest IH]; intros dimensions; cbn [expandDimensions];
    [apply errorOnly_ret |].
  destruct (ParseExpr H (common.DimExpr dim)) as [parsed |].
  - apply errorOnly_bind; [apply errorOnly_getContext |]. intros qc.
    destruct parsed; try apply IH.
    destruct (IsNonAggregationQuery qc); [| apply IH].
    apply errorOnly_bind; [| intros ?; apply IH].
    unfold getAllColumnsDimension.
    apply errorOnly_bind; [apply errorOnly_getTable | intros ?; apply errorOnly_ret].
  - apply errorOnly_bind; [apply errorOnly_setError | intros ?; apply errorOnly_ret].
Qed.

Lemma joinsLoop_texts H joins : forall qc joins' ok qc',
  joinsLoop H joins qc = Ok ((joins', ok), qc') ->
  common.JoinTable <$> joins' = common.JoinTable <$> joins
  /\ common.Alias <$> joins' = common.Alias <$> joins
  /\ common.Conditions <$> joins' = common.Conditions <$> joins
  /\ (ok = true ->
      Forall (fun join => length (common.ConditionsParsed join)
                          = length (common.Conditions join)) joins')
  /\ (ok = false -> Error_ qc' <> None).
Proof.
  induction joins as [| join rest IH]; intros qc joins' ok qc'; cbn [joinsLoop].
  - intros [= <- <- _]. by repeat split.
  - unfold bind at 1.
    destruct (parseAndRewrite H ErrParseJoin (common.Conditions join) qc)
      as [| [[parsed ok1] qc1]] eqn:Hparse; [done |].
    destruct ok1.
    + unfold bind at 1.
      destruct (joinsLoop H rest qc1) as [| [[rest' ok'] qc2]] eqn:Hrec; [done |].
      intros [= <- <- <-].
      destruct (IH _ _ _ _ Hrec) as (Ht & Ha & Hc & Hlen & Hfail).
      rewrite !fmap_cons, Ht, Ha, Hc. cbn. repeat split; [| done].
      intros Hok. constructor; [| by apply Hlen]. cbn.
      by eapply parseAndRewrite_length.
    + intros [= <- <- <-]. repeat split; [done |]. intros _.
      by eapply parseAndRewrite_failed.
Qed.

(** X16: [processJoins] leaves the joins their tables, aliases and condition
    texts, in their order, and touches nothing else of the query; when it
    ends without error, every join has as many parsed conditions as
    condition texts. *)
Theorem processJoins_frame (H : Helpers) (qc qc' : QueryContext) :
  processJoins H qc = Ok (tt, qc') ->
  common.JoinTable <$> common.Joins (AQLQuery qc')
  = common.JoinTable <$> common.Joins (AQLQuery qc)
  /\ common.Alias <$> common.Joins (AQLQuery qc')
     = common.Alias <$> common.Joins (AQLQuery qc)
  /\ common.Conditions <$> common.Joins (AQLQuery qc')
     = common.Conditions <$> common.Joins (AQLQuery qc)
  /\ withJoins (common.Joins (AQLQuery qc)) (AQLQuery qc') = AQLQuery qc
  /\ (Error_ qc' = None ->
      Forall (fun join => length (common.ConditionsParsed join)
                          = length (common.Conditions join))
        (common.Joins (AQLQuery qc'))).
Proof.
  unfold processJoins. unfold bind at 1, getContext at 1. unfold bind at 1.
  destruct (joinsLoop H (common.Joins (AQLQuery qc)) qc)
    as [| [[joins ok] qc1]] eqn:Hloop; [done |].
  cbn [modifyQuery modifyContext]. intros [= <-].
  destruct (joinsLoop_texts _ _ _ _ _ _ Hloop) as (Ht & Ha & Hc & Hlen & Hfail).
  destruct (errorOnly_frame _ _ _ _ (errorOnly_joinsLoop H _) Hloop) as (Hq & _).
  cbn [AQLQuery withAQLQuery common.Joins withJoins Error_].
  repeat split; try done.
  - rewrite Hq. by destruct (AQLQuery qc).
  - intros Hnone. destruct ok; [by apply Hlen |]. by destruct Hfail.
Qed.

Lemma processJoins_frame_witness :
  exists qc',
    processJoins Sample.helpers SampleJoin.boundOn = Ok (tt, qc')
    /\ common.JoinTable <$> common.Joins (AQLQuery qc') = ["shapes"]
    /\ common.Alias <$> common.Joins (AQLQuery qc') = ["s"]
    /\ common.Conditions <$> common.Joins (AQLQuery qc') = [["ts >= 1"]]
    /\ Forall (fun join => length (common.ConditionsParsed join)
                           = length (common.Conditions join))
         (common.Joins (AQLQuery qc')).
Proof.
  destruct (processJoins Sample.helpers SampleJoin.boundOn) as [| [[] qc']] eqn:Hrun;
    [vm_compute in Hrun; discriminate |].
  destruct (processJoins_frame Sample.helpers SampleJoin.boundOn qc' Hrun)
    as (Ht & Ha & Hc & _ & Hlen).
  exists qc'. split; [reflexivity |]. split; [exact Ht |]. split; [exact Ha |].
  split; [exact Hc |]. apply Hlen. vm_compute in Hrun. injection Hrun as <-. reflexivity.
Defined.

Lemma processMeasure_shape H measure qc r qc' :
  processMeasure H measure qc = Ok (r, qc') ->
  match r with
  | Some measure' =>
      common.Expr measure' = common.Expr measure
      /\ common.Filters measure' = common.Filters measure
      /\ Forall (fun f => isTopAnd f = false) (common.FiltersParsed measure')
  | None => Error_ qc' <> None
  end.
Proof.
  unfold processMeasure.
  destruct (ParseExpr H (common.Expr measure)) as [parsed |].
  - unfold bind at 1.
    destruct (exprRewrite H parsed qc) as [| [e qc1]]; [done |].
    unfold bind at 1, getContext at 1.
    destruct (Error_ qc1) eqn:Herr.
    + intros [= <- <-]. by rewrite Herr.
    + unfold bind at 1.
      destruct (parseAndRewrite H ErrParseMeasureFilter (common.Filters measure) qc1)
        as [| [[filters ok] qc2]] eqn:Hparse; [done |].
      destruct ok.
      * intros [= <- <-]. cbn. repeat split. apply normalizeAndFilters_flat.
      * intros [= <- <-]. by eapply parseAndRewrite_failed.
  - unfold bind, setError. by intros [= <- <-].
Qed.

Lemma measuresLoop_shape H measures : forall qc measures' ok qc',
  measuresLoop H measures qc = Ok ((measures', ok), qc') ->
  if ok
  then Forall (fun measure =>
                 Forall (fun f => isTopAnd f = false) (common.FiltersParsed measure))
         measures'
  else Error_ qc' <> None.
Proof.
  induction measures as [| measure rest IH]; intros qc measures' ok qc';
    cbn [measuresLoop].
  - intros [= <- <- _]. constructor.
  - unfold bind at 1.
    destruct (processMeasure H measure qc) as [| [r qc1]] eqn:Hm; [done |].
    pose proof (processMeasure_shape _ _ _ _ _ Hm) as Hshape.
    destruct r as [measure' |].
    + unfold bind at 1.
      destruct (measuresLoop H rest qc1) as [| [[rest' ok'] qc2]] eqn:Hrec; [done |].
      intros [= <- <- <-]. specialize (IH _ _ _ _ Hrec).
      destruct ok'; [| done]. constructor; [apply Hshape | done].
    + by intros [= <- <- <-].
Qed.

Lemma checkMeasures_one qc qc' :
  checkMeasures qc = Ok (tt, qc') -> Error_ qc' = None ->
  length (common.Measures (AQLQuery qc)) = 1%nat.
Proof.
  unfold checkMeasures, bind, getContext.
  destruct (common.Measures (AQLQuery qc)) as [| m [| m2 rest]]; [| done |];
    by intros [= <-].
Qed.

Lemma processMeasures_shape H qc qc' :
  processMeasures H qc = Ok (tt, qc') -> Error_ qc' = None ->
  length (common.Measures (AQLQuery qc')) = 1%nat
  /\ Forall (fun measure =>
               Forall (fun f => isTopAnd f = false) (common.FiltersParsed measure))
       (common.Measures (AQLQuery qc')).
Proof.
  unfold processMeasures. unfold bind at 1, getContext at 1. unfold bind at 1.
  destruct (measuresLoop H (common.Measures (AQLQuery qc)) qc)
    as [| [[measures ok] qc1]] eqn:Hloop; [done |].
  unfold bind at 1. cbn [modifyQuery modifyContext].
  pose proof (measuresLoop_shape _ _ _ _ _ _ Hloop) as Hshape.
  destruct ok.
  - intros Hcheck Hnone. rewrite (checkMeasures_measures _ _ Hcheck).
    split; [| done]. rewrite <- (checkMeasures_measures _ _ Hcheck).
    rewrite (checkMeasures_measures _ _ Hcheck).
    by apply (checkMeasures_one _ _ Hcheck Hnone).
  - by intros [= <-].
Qed.

Lemma processDimensions_frame H qc qc' :
  processDimensions H qc = Ok (tt, qc') ->
  withDimensions (common.Dimensions (AQLQuery qc)) (AQLQuery qc') = AQLQuery qc
  /\ Tables qc' = Tables qc.
Proof.
  unfold processDimensions.
  unfold bind, getContext, modifyQuery, modifyContext. cbv zeta beta.
  match goal with
  | |- context [expandDimensions H _ [] ?q] => set (qc0 := q)
  end.
  destruct (expandDimensions H (common.Dimensions (AQLQuery qc)) [] qc0)
    as [| [[dimensions ok] qc1]] eqn:Hexpand; [done |].
  destruct (errorOnly_frame _ _ _ _ (errorOnly_expandDimensions H _ _) Hexpand)
    as (Hq1 & Ht1 & _).
  destruct ok.
  - match goal with
    | |- context [rewriteDimensions H dimensions 0 ?q] => set (qc2 := q)
    end.
    destruct (rewriteDimensions H dimensions 0 qc2) as [| [dimensions' qc3]] eqn:Hrw;
      [done |].
    intros [= <-]. destruct (rewriteDimensions_step _ _ _ _ _ _ Hrw) as (Ht3 & Hq3 & _).
    cbn [AQLQuery withAQLQuery Tables]. rewrite Hq3, Ht3. subst qc2.
    cbn [AQLQuery withAQLQuery Tables]. rewrite Hq1, Ht1. subst qc0. cbn.
    split; [| done]. by destruct (AQLQuery qc).
  - intros [= <-]. cbn [AQLQuery withAQLQuery Tables]. rewrite Hq1, Ht1.
    subst qc0. cbn. split; [| done]. by destruct (AQLQuery qc).
Qed.

Lemma processFilters_shape H qc qc' :
  processFilters H qc = Ok (tt, qc') ->
  withFiltersParsed (common.QueryFiltersParsed (AQLQuery qc)) (AQLQuery qc')
  = AQLQuery qc
  /\ (Error_ qc' = None ->
      Forall (fun f => isTopAnd f = false) (common.QueryFiltersParsed (AQLQuery qc'))).
Proof.
  unfold processFilters. unfold bind at 1, getContext at 1. unfold bind at 1.
  destruct (parseAndRewrite H ErrParseFilter (common.QueryFilters (AQLQuery qc)) qc)
    as [| [[filters ok] qc1]] eqn:Hparse; [done |].
  cbn [modifyQuery modifyContext]. intros [= <-].
  destruct (errorOnly_frame _ _ _ _ (errorOnly_parseAndRewrite H _ _) Hparse)
    as (Hq1 & _).
  cbn [AQLQuery withAQLQuery Error_ common.QueryFiltersParsed withFiltersParsed].
  split.
  - rewrite Hq1. by destruct (AQLQuery qc).
  - intros Hnone. destruct ok; [apply normalizeAndFilters_flat |].
    by destruct (parseAndRewrite_failed _ _ _ _ _ _ Hparse).
Qed.

Lemma bucketLoop_length H byteWidth byteIndex dimensions : forall originIndex st,
  length (vectorIndex (bucketLoop H byteWidth byteIndex dimensions originIndex st))
  = length (vectorIndex st).
Proof.
  induction dimensions as [| dim rest IH]; intros originIndex st; [done |].
  cbn [bucketLoop]. rewrite IH. destruct (decide _); [| done].
  cbn. by rewrite length_insert.
Qed.

Lemma widthLoop_length H byteIndexes : forall byteWidth dimensions st,
  length (vectorIndex (widthLoop H byteIndexes byteWidth dimensions st))
  = length (vectorIndex st).
Proof.
  induction byteIndexes as [| byteIndex rest IH]; intros byteWidth dimensions st;
    [done |].
  cbn [widthLoop]. by rewrite IH, bucketLoop_length.
Qed.

(** X17: what a compilation that ends without error leaves: exactly one measure;
    no AND at the top of a filter of the query or of a measure; and a
    dimension vector index with one entry per dimension. *)
Theorem Compile_shape (H : Helpers) (reader : string -> option memCom.TableSchema)
    (qc qc' : QueryContext) :
  Compile H reader qc = Ok (tt, qc') -> Error_ qc' = None ->
  length (common.Measures (AQLQuery qc')) = 1%nat
  /\ Forall (fun measure =>
               Forall (fun f => isTopAnd f = false) (common.FiltersParsed measure))
       (common.Measures (AQLQuery qc'))
  /\ Forall (fun f => isTopAnd f = false) (common.QueryFiltersParsed (AQLQuery qc'))
  /\ length (DimensionVectorIndex qc') = length (common.Dimensions (AQLQuery qc')).
Proof.
  unfold Compile. unfold bind at 1.
  destruct (readSchema reader qc) as [| [[] qc1]] eqn:Hread; [done |].
  intros Hrun Hnone.
  apply unlessError_inv in Hrun as [Herr1 Hrun]; [| done].
  unfold bind at 1 in Hrun.
  destruct (processJoins H qc1) as [| [[] qc2]] eqn:Hj; [done |].
  apply unlessError_inv in Hrun as [Herr2 Hrun]; [| done].
  unfold bind at 1 in Hrun.
  destruct (processMeasures H qc2) as [| [[] qc3]] eqn:Hm; [done |].
  apply unlessError_inv in Hrun as [Herr3 Hrun]; [| done].
  unfold bind at 1 in Hrun.
  destruct (processDimensions H qc3) as [| [[] qc4]] eqn:Hd; [done |].
  apply unlessError_inv in Hrun as [Herr4 Hrun]; [| done].
  unfold bind at 1 in Hrun.
  destruct (processFilters H qc4) as [| [[] qc5]] eqn:Hf; [done |].
  apply unlessError_inv in Hrun as [Herr5 Hrun]; [| done].
  destruct (processMeasures_shape _ _ _ Hm Herr3) as [Hone Hflat].
  destruct (processDimensions_frame _ _ _ Hd) as [Hq4 _].
  destruct (processFilters_shape _ _ _ Hf) as [Hq5 Hfilters].
  assert (Hm5 : common.Measures (AQLQuery qc5) = common.Measures (AQLQuery qc3)).
  { rewrite <- Hq4, <- Hq5. by destruct (AQLQuery qc5). }
  unfold sortDimensionColumns, modifyContext in Hrun. injection Hrun as <-.
  cbn [AQLQuery withLayout DimensionVectorIndex]. rewrite Hm5.
  repeat split; try done; [by apply Hfilters |].
  rewrite widthLoop_length. cbn [vectorIndex]. by rewrite length_replicate.
Qed.

Lemma Compile_shape_witness :
  exists qc',
    Compile Sample.helpers Sample.reader
      (Sample.newContext
         (Sample.query "trips" "sum(fare)" ["dayofweek(ts)"; "city"] ["ts >= 1"])
         false)
    = Ok (tt, qc')
    /\ Error_ qc' = None
    /\ length (common.Measures (AQLQuery qc')) = 1%nat
    /\ Forall (fun f => isTopAnd f = false) (common.QueryFiltersParsed (AQLQuery qc'))
    /\ length (DimensionVectorIndex qc') = length (common.Dimensions (AQLQuery qc')).
Proof.
  destruct (Compile Sample.helpers Sample.reader
              (Sample.newContext
                 (Sample.query "trips" "sum(fare)" ["dayofweek(ts)"; "city"]
                    ["ts >= 1"]) false)) as [| [[] qc']] eqn:Hrun;
    [vm_compute in Hrun; discriminate |].
  assert (Hnone : Error_ qc' = None)
    by (vm_compute in Hrun; by injection Hrun as <-).
  destruct (Compile_shape Sample.helpers Sample.reader _ qc' Hrun Hnone)
    as (Hone & _ & Hflat & Hlen).
  by exists qc'.
Defined.

(** X18: binding the schemas never panics; it ends without error exactly when
    the reader knows every table of the query and no alias is used twice;
    and when it ends with an error the compilation stops there, with the
    query as it was given. *)
Theorem Compile_binds_or_stops (H : Helpers)
    (reader : string -> option memCom.TableSchema) (qc : QueryContext) :
  Error_ qc = None ->
  exists qc1,
    readSchema reader qc = Ok (tt, qc1)
    /\ AQLQuery qc1 = AQLQuery qc
    /\ (Error_ qc1 = None <-> schemasBindable reader (AQLQuery qc))
    /\ (~ schemasBindable reader (AQLQuery qc) -> Compile H reader qc = Ok (tt, qc1)).
Proof.
  intros Hentry.
  destruct (readSchema_error_iff reader qc Hentry) as (qc1 & Hrun & Hiff).
  exists qc1. split; [exact Hrun |].
  split; [by destruct (readSchema_tables _ _ _ Hrun) |]. split; [exact Hiff |].
  intros Hnot. unfold Compile, bind. rewrite Hrun. unfold unlessError, bind, getContext.
  destruct (Error_ qc1) eqn:Herr; [done |]. destruct Hnot. by apply Hiff.
Qed.

Lemma Compile_binds_or_stops_witness :
  exists qc1,
    readSchema Sample.reader
      (Sample.newContext (Sample.query "nosuchtable" "count(*)" [] []) false)
    = Ok (tt, qc1)
    /\ Error_ qc1 = Some ErrUnknownMainTable
    /\ Compile Sample.helpers Sample.reader
         (Sample.newContext (Sample.query "nosuchtable" "count(*)" [] []) false)
       = Ok (tt, qc1).
Proof.
  destruct (Compile_binds_or_stops Sample.helpers Sample.reader
              (Sample.newContext (Sample.query "nosuchtable" "count(*)" [] []) false)
              eq_refl) as (qc1 & Hrun & _ & _ & Hstop).
  exists qc1. split; [exact Hrun |]. split.
  - vm_compute in Hrun. injection Hrun as <-. reflexivity.
  - apply Hstop. intros ([table Htable] & _). vm_compute in Htable. discriminate.
Defined.

(** X19: in an aggregation query the first loop of [processDimensions] keeps one
    dimension per raw dimension, in order, with its text and what the text
    parses to, a wildcard included; it reads no table and stores no
    error. *)
Theorem expandDimensions_aggregation (H : Helpers) (qc : QueryContext)
    (rawDims : list common.Dimension) (parsed : list expr.Expr) :
  IsNonAggregationQuery qc = false ->
  Forall2 (fun dim e => ParseExpr H (common.DimExpr dim) = Some e) rawDims parsed ->
  forall dimensions,
    expandDimensions H rawDims dimensions qc
    = Ok ((dimensions
           ++ zip_with common.mkDimension (common.DimExpr <$> rawDims) parsed,
           true), qc).
Proof.
  intros Hagg Hparsed.
  induction Hparsed as [| dim e rest parsed' Hdim _ IH]; intros dimensions.
  - cbn. by rewrite app_nil_r.
  - cbn [expandDimensions]. rewrite Hdim. unfold bind at 1, getContext at 1.
    rewrite Hagg.
    assert (Hstep : expandDimensions H rest
                      (dimensions ++ [common.mkDimension (common.DimExpr dim) e]) qc
                    = Ok ((dimensions
                           ++ zip_with common.mkDimension
                                (common.DimExpr <$> dim :: rest) (e :: parsed'),
                           true), qc)).
    { rewrite IH. by rewrite <- (assoc_L (++)). }
    by destruct e.
Qed.

Lemma expandDimensions_aggregation_witness :
  expandDimensions Sample.helpers
    [common.mkDimension "*" expr.Nil; common.mkDimension "city" expr.Nil] []
    (Sample.bound (Sample.query "trips" "count(*)" ["*"; "city"] []))
  = Ok (([common.mkDimension "*" expr.Wildcard;
          common.mkDimension "city" (Sample.ref "city")], true),
        Sample.bound (Sample.query "trips" "count(*)" ["*"; "city"] [])).
Proof.
  refine (expandDimensions_aggregation Sample.helpers
            (Sample.bound (Sample.query "trips" "count(*)" ["*"; "city"] []))
            [common.mkDimension "*" expr.Nil; common.mkDimension "city" expr.Nil]
            [expr.Wildcard; Sample.ref "city"] eq_refl _ []).
  by repeat constructor.
Defined.

Lemma expandDimensions_parsed H rawDims : forall dimensions qc dimensions' ok qc',
  Forall (fun dim => is_Some (ParseExpr H (common.DimExpr dim))) rawDims ->
  expandDimensions H rawDims dimensions qc = Ok ((dimensions', ok), qc') ->
  ok = true /\ qc' = qc.
Proof.
  induction rawDims as [| dim rest IH]; intros dimensions qc dimensions' ok qc' Hall;
    cbn [expandDimensions].
  - by intros [= _ <- <-].
  - apply Forall_cons in Hall as [[e He] Hall]. rewrite He.
    unfold bind at 1, getContext at 1.
    destruct e; try (by apply IH).
    destruct (IsNonAggregationQuery qc); [| by apply IH].
    unfold bind at 1, getAllColumnsDimension, bind at 1.
    destruct (getTable 0 qc) as [| [table qc1]] eqn:Htable; [done |].
    apply getTable_state in Htable as ->. cbn [ret]. by apply IH.
Qed.

Lemma rewriteDimensions_dicts H dimensions : forall idx qc dimensions' qc',
  rewriteDimensions H dimensions idx qc = Ok (dimensions', qc') ->
  length dimensions' = length dimensions
  /\ forall key,
       DimensionEnumReverseDicts qc' !! key
       = match (if decide (idx <= key) then dimensions' !! Z.to_nat (key - idx)
                else None) with
         | Some dim =>
             match common.DimExprParsed dim with
             | expr.VarRefE vr =>
                 if decide (expr.EnumReverseDict vr = [])
                 then DimensionEnumReverseDicts qc !! key
                 else Some (expr.EnumReverseDict vr)
             | _ => DimensionEnumReverseDicts qc !! key
             end
         | None => DimensionEnumReverseDicts qc !! key
         end.
Proof.
  induction dimensions as [| dim rest IH]; intros idx qc dimensions' qc';
    cbn [rewriteDimensions].
  - intros [= <- <-]. split; [done |]. intros key. destruct (decide _); [| done].
    by rewrite lookup_nil.
  - unfold bind at 1.
    destruct (exprRewrite H (common.DimExprParsed dim) qc) as [| [e qc1]] eqn:Hrw;
      [done |].
    destruct (errorOnly_frame _ _ _ _ (errorOnly_exprRewrite H _) Hrw)
      as (_ & _ & _ & _ & _ & _ & Hd1 & _).
    unfold bind at 1.
    set (record := match e with
                   | expr.VarRefE vr =>
                       if decide (0 < length (expr.EnumReverseDict vr))%nat
                       then modifyContext
                              (fun qc => withDimensionEnumReverseDicts
                                           (<[idx := expr.EnumReverseDict vr]>
                                              (DimensionEnumReverseDicts qc)) qc)
                       else ret tt
                   | _ => ret tt
                   end).
    assert (Hrecord : exists qc2, record qc1 = Ok (tt, qc2)
              /\ forall key,
                   DimensionEnumReverseDicts qc2 !! key
                   = if decide (key = idx)
                     then match e with
                          | expr.VarRefE vr =>
                              if decide (expr.EnumReverseDict vr = [])
                              then DimensionEnumReverseDicts qc !! key
                              else Some (expr.EnumReverseDict vr)
                          | _ => DimensionEnumReverseDicts qc !! key
                          end
                     else DimensionEnumReverseDicts qc !! key).
    { subst record. rewrite <- Hd1.
      destruct e; try (eexists; split; [reflexivity |]; intros key;
                       by destruct (decide _)).
      destruct (decide (0 < length (expr.EnumReverseDict v))%nat) as [Hpos | Hpos].
      - eexists. split; [reflexivity |]. intros key. cbn.
        destruct (decide (key = idx)) as [-> | Hne].
        + rewrite lookup_insert_eq. destruct (decide _) as [Hnil | _]; [| done].
          rewrite Hnil in Hpos. cbn in Hpos. lia.
        + by rewrite lookup_insert_ne.
      - eexists. split; [reflexivity |]. intros key.
        destruct (decide (key = idx)); [| done].
        destruct (decide _) as [_ | Hnil]; [done |].
        destruct (expr.EnumReverseDict v); [done |]. cbn in Hpos. lia. }
    destruct Hrecord as (qc2 & -> & Hd2).
    unfold bind at 1.
    destruct (rewriteDimensions H rest (idx + 1) qc2) as [| [rest' qc3]] eqn:Hrec;
      [done |].
    intros [= <- <-]. destruct (IH _ _ _ _ Hrec) as (Hlen & Hd3).
    split; [cbn; by rewrite Hlen |]. intros key. rewrite Hd3, !Hd2.
    destruct (decide (idx + 1 <= key)) as [Hge | Hlt].
    + rewrite (decide_True (P := idx <= key)) by lia.
      rewrite (decide_False (P := key = idx)) by lia.
      replace (Z.to_nat (key - idx)) with (S (Z.to_nat (key - (idx + 1)))) by lia.
      done.
    + destruct (decide (key = idx)) as [-> | Hne].
      * rewrite (decide_True (P := idx <= idx)) by lia.
        by replace (Z.to_nat (idx - idx)) with 0%nat by lia.
      * by rewrite (decide_False (P := idx <= key)) by lia.
Qed.

(** X20: the reverse dictionaries [processDimensions] records, on a context that
    holds none and a query whose dimensions all parse: one for every
    dimension that comes out as a column with a non-empty reverse
    dictionary, under the position of the dimension, and no other. *)
Theorem processDimensions_reverse_dicts (H : Helpers) (qc qc' : QueryContext) :
  DimensionEnumReverseDicts qc = ∅ ->
  Forall (fun dim => is_Some (ParseExpr H (common.DimExpr dim)))
    (common.Dimensions (AQLQuery qc)) ->
  processDimensions H qc = Ok (tt, qc') ->
  forall (k : nat) (dict : list string),
    DimensionEnumReverseDicts qc' !! Z.of_nat k = Some dict
    <-> exists dim vr,
          common.Dimensions (AQLQuery qc') !! k = Some dim
          /\ common.DimExprParsed dim = expr.VarRefE vr
          /\ expr.EnumReverseDict vr = dict /\ dict <> [].
Proof.
  intros Hempty Hall. unfold processDimensions.
  unfold bind, getContext, modifyQuery, modifyContext. cbv zeta beta.
  match goal with
  | |- context [expandDimensions H _ [] ?q] => set (qc0 := q)
  end.
  destruct (expandDimensions H (common.Dimensions (AQLQuery qc)) [] qc0)
    as [| [[dimensions ok] qc1]] eqn:Hexpand; [done |].
  destruct (expandDimensions_parsed _ _ _ _ _ _ _ Hall Hexpand) as [-> ->].
  match goal with
  | |- context [rewriteDimensions H dimensions 0 ?q] => set (qc2 := q)
  end.
  destruct (rewriteDimensions H dimensions 0 qc2) as [| [dimensions' qc3]] eqn:Hrw;
    [done |].
  intros [= <-] k dict.
  destruct (rewriteDimensions_dicts _ _ _ _ _ _ Hrw) as [_ Hd].
  cbn [DimensionEnumReverseDicts withAQLQuery AQLQuery common.Dimensions
         withDimensions].
  rewrite Hd. rewrite (decide_True (P := 0 <= Z.of_nat k)) by lia.
  replace (Z.to_nat (Z.of_nat k - 0)) with k by lia.
  subst qc2 qc0. cbn [DimensionEnumReverseDicts withAQLQuery withDimensionVectorIndex].
  rewrite Hempty, lookup_empty.
  destruct (dimensions' !! k) as [dim |] eqn:Hk.
  - destruct (common.DimExprParsed dim) as [| | | | | vr | | | | | |] eqn:Hparsed;
      try (split; [done |]; intros (? & ? & [= <-] & Hp & _); congruence).
    destruct (decide (expr.EnumReverseDict vr = [])) as [Hnil | Hnil].
    + split; [done |]. intros (? & ? & [= <-] & Hp & Hd' & Hne).
      rewrite Hparsed in Hp. injection Hp as <-. congruence.
    + split.
      * intros [= <-]. by exists dim, vr.
      * intros (? & ? & [= <-] & Hp & Hd' & Hne).
        rewrite Hparsed in Hp. injection Hp as <-. by rewrite Hd'.
  - split; [done |]. by intros (? & ? & ? & _).
Qed.

Lemma processDimensions_reverse_dicts_witness :
  exists qc',
    processDimensions Sample.helpers
      (Sample.bound (Sample.query "trips" "count(*)" ["ts"; "city"] []))
    = Ok (tt, qc')
    /\ (exists dim vr,
          common.Dimensions (AQLQuery qc') !! 1%nat = Some dim
          /\ common.DimExprParsed dim = expr.VarRefE vr
          /\ expr.EnumReverseDict vr = ["SF"; "NYC"] /\ ["SF"; "NYC"] <> [])
    /\ DimensionEnumReverseDicts qc' !! 0 = None.
Proof.
  destruct (processDimensions Sample.helpers
              (Sample.bound (Sample.query "trips" "count(*)" ["ts"; "city"] [])))
    as [| [[] qc']] eqn:Hrun; [vm_compute in Hrun; discriminate |].
  assert (Hall : Forall (fun dim => is_Some (ParseExpr Sample.helpers
                                               (common.DimExpr dim)))
                   (common.Dimensions
                      (AQLQuery (Sample.bound
                                   (Sample.query "trips" "count(*)" ["ts"; "city"] [])))))
    by (repeat constructor; by eexists).
  exists qc'. split; [reflexivity |]. split.
  - apply (processDimensions_reverse_dicts Sample.helpers
             (Sample.bound (Sample.query "trips" "count(*)" ["ts"; "city"] []))
             qc' eq_refl Hall Hrun 1%nat).
    vm_compute in Hrun. injection Hrun as <-. reflexivity.
  - vm_compute in Hrun. injection Hrun as <-. reflexivity.
Defined.

(** ** CASE, the geo functions, and where the rewriter panics *)

Lemma highestOf_ge t es :
  expr.Type_code t <= expr.Type_code (highestOf t es)
  /\ Forall (fun e => expr.Type_code (expr.typeOf e)
                      <= expr.Type_code (highestOf t es)) es.
Proof.
  revert t. induction es as [| e es IH]; intros t; [by split |].
  unfold highestOf. cbn [foldl]. fold (highestOf (higherType t (expr.typeOf e)) es).
  destruct (IH (higherType t (expr.typeOf e))) as [Hle Hall].
  assert (Hh : expr.Type_code t <= expr.Type_code (higherType t (expr.typeOf e))
               /\ expr.Type_code (expr.typeOf e)
                  <= expr.Type_code (higherType t (expr.typeOf e))).
  { unfold higherType. destruct (_ <? _) eqn:Hlt; lia. }
  split; [lia |]. constructor; [lia | done].
Qed.

Lemma caseTypes_loop (WhenThens : list (expr.Expr * expr.Expr)) : forall t qc,
  Forall (fun whenThen => snd whenThen <> expr.Nil) WhenThens ->
  foldM (fun highest whenThen =>
           do thenType <- TypeOf (snd whenThen);
           ret (higherType highest thenType))
        WhenThens t qc
  = Ok (highestOf t (snd <$> WhenThens), qc).
Proof.
  induction WhenThens as [| [w th] rest IH]; intros t qc Hall; [done |].
  apply Forall_cons in Hall as [Hth Hall]. cbn [foldM snd]. unfold bind at 1.
  unfold bind at 1. destruct th; try done; cbn [TypeOf ret]; by rewrite IH.
Qed.

Lemma caseCasts_loop (H : Helpers) (t : expr.Type_)
    (WhenThens : list (expr.Expr * expr.Expr)) : forall qc,
  Forall (fun whenThen => fst whenThen <> expr.Nil /\ snd whenThen <> expr.Nil)
    WhenThens ->
  Forall (fun whenThen => geoTyped (fst whenThen) = false) WhenThens ->
  Forall (fun whenThen => expr.Type_code (expr.typeOf (snd whenThen))
                          <= expr.Type_code t) WhenThens ->
  mapM (fun whenThen =>
          do when' <- CastM H (fst whenThen) expr.Boolean;
          do then' <- CastM H (snd whenThen) t;
          ret (when', then'))
       WhenThens qc
  = Ok ((fun whenThen => (Cast H (fst whenThen) expr.Boolean,
                          Cast H (snd whenThen) t)) <$> WhenThens, qc).
Proof.
  induction WhenThens as [| [w th] rest IH]; intros qc Hall Hgeo Hle; [done |].
  apply Forall_cons in Hall as [[Hw Hth] Hall].
  apply Forall_cons in Hgeo as [Hgw Hgeo].
  apply Forall_cons in Hle as [Hlt Hle]. cbn [mapM fst snd] in *.
  unfold bind at 1. unfold bind at 1.
  rewrite (CastM_Ok H w expr.Boolean qc Hw Hgw). unfold bind at 1.
  rewrite (CastM_Ok H th t qc Hth (castFails_higher th t Hlt)).
  cbn [ret]. unfold bind at 1. by rewrite IH.
Qed.



(** X22: [geography_intersects] over two columns does not mind their order: it
    goes through exactly when one is a geo shape and the other a geo
    point, and then puts the shape first. *)
Theorem Rewrite_geography_intersects (H : Helpers) (qc : QueryContext) (Name : string)
    (shape point : expr.VarRef) (ty : expr.Type_) :
  ToLower H Name = expr.GeographyIntersectsCallName ->
  expr.DataType shape = memCom.GeoShape ->
  expr.DataType point = memCom.GeoPoint ->
  Rewrite H (expr.Call Name [expr.VarRefE shape; expr.VarRefE point] ty) qc
  = Ok (expr.Call expr.GeographyIntersectsCallName
          [expr.VarRefE shape; expr.VarRefE point] expr.Boolean, qc)
  /\ Rewrite H (expr.Call Name [expr.VarRefE point; expr.VarRefE shape] ty) qc
     = Rewrite H (expr.Call Name [expr.VarRefE shape; expr.VarRefE point] ty) qc
  /\ (exists err,
        Rewrite H (expr.Call Name [expr.VarRefE shape; expr.VarRefE shape] ty) qc
        = Ok (expr.Call expr.GeographyIntersectsCallName
                [expr.VarRefE shape; expr.VarRefE shape] ty,
              withError (Some err) qc))
  /\ (exists err,
        Rewrite H (expr.Call Name [expr.VarRefE point; expr.VarRefE point] ty) qc
        = Ok (expr.Call expr.GeographyIntersectsCallName
                [expr.VarRefE point; expr.VarRefE point] ty,
              withError (Some err) qc)).
Proof.
  intros Hname Hshape Hpoint. unfold Rewrite, RewriteNode, rewriteCall.
  rewrite Hname. cbn. unfold isGeoColumnType. rewrite Hshape, Hpoint. cbn.
  repeat split; by eexists.
Qed.

Lemma Rewrite_geography_intersects_witness :
  Rewrite Sample.helpers
    (expr.Call "geography_intersects"
       [expr.VarRefE SampleJoin.pointRef; expr.VarRefE SampleJoin.shapeRef]
       expr.UnknownType)
    SampleJoin.bound
  = Ok (expr.Call "geography_intersects"
          [expr.VarRefE SampleJoin.shapeRef; expr.VarRefE SampleJoin.pointRef]
          expr.Boolean,
        SampleJoin.bound).
Proof.
  destruct (Rewrite_geography_intersects Sample.helpers SampleJoin.bound
              "geography_intersects" SampleJoin.shapeRef SampleJoin.pointRef
              expr.UnknownType eq_refl eq_refl eq_refl) as (Hrun & Hswap & _).
  by rewrite Hswap.
Defined.

Lemma rewriteEquality_panics (H : Helpers) Op LHS RHS highestType qc :
  LHS <> expr.Nil -> RHS <> expr.Nil ->
  castFails LHS highestType = false -> castFails RHS highestType = false ->
  rewriteEquality H Op LHS RHS highestType qc = Panic
  <-> isStringLiteral RHS = true /\ isVarRef LHS = false.
Proof.
  intros Hl Hr Hfl Hfr. unfold rewriteEquality.
  pose proof (fun qc1 => CastM_Ok H LHS highestType qc1 Hl Hfl) as Hcl.
  pose proof (fun qc1 => CastM_Ok H RHS highestType qc1 Hr Hfr) as Hcr.
  destruct LHS, RHS; try done;
    cbn [isVarRef asVarRef asBooleanLiteral asStringLiteral isStringLiteral];
    unfold bind; rewrite ?Hcl, ?Hcr; unfold setError, ret, panic;
    repeat (first [rewrite Hcl | rewrite Hcr | case_match]; try done);
    split; try done; try (by intros [? ?]).
Qed.



(** ** The rewritten query *)

Lemma renderTexts_idem String_ texts : forall parsed,
  renderTexts String_ (renderTexts String_ texts parsed) parsed
  = renderTexts String_ texts parsed.
Proof.
  induction texts as [| text rest IH]; intros [| e parsed]; try done.
  cbn [renderTexts]. rewrite IH. by destruct (isNil e).
Qed.

Lemma renderTexts_length String_ texts : forall parsed,
  length (renderTexts String_ texts parsed) = length texts.
Proof.
  induction texts as [| text rest IH]; intros [| e parsed]; try done.
  cbn. by rewrite IH.
Qed.

Lemma renderMeasure_idem String_ measure :
  renderMeasure String_ (renderMeasure String_ measure) = renderMeasure String_ measure.
Proof.
  unfold renderMeasure. destruct (isNil (common.ExprParsed measure)) eqn:Hnil.
  - by rewrite Hnil.
  - cbn. by rewrite Hnil.
Qed.

Lemma renderDimension_idem String_ dim :
  renderDimension String_ (renderDimension String_ dim) = renderDimension String_ dim.
Proof.
  unfold renderDimension. destruct (isNil (common.DimExprParsed dim)) eqn:Hnil.
  - by rewrite Hnil.
  - cbn. by rewrite Hnil.
Qed.

Lemma renderJoin_idem String_ join :
  renderJoin String_ (renderJoin String_ join) = renderJoin String_ join.
Proof. unfold renderJoin. cbn. by rewrite renderTexts_idem. Qed.

Lemma renderQuery_idem String_ q :
  renderQuery String_ (renderQuery String_ q) = renderQuery String_ q.
Proof.
  unfold renderQuery. cbn. rewrite renderTexts_idem. f_equal.
  - rewrite <- list_fmap_compose. apply list_fmap_ext. intros _ join _.
    apply renderJoin_idem.
  - rewrite <- list_fmap_compose. apply list_fmap_ext. intros _ dim _.
    apply renderDimension_idem.
  - rewrite <- list_fmap_compose. apply list_fmap_ext. intros _ measure _.
    apply renderMeasure_idem.
Qed.

Lemma GetRewrittenQuery_run String_ supporting qc :
  GetRewrittenQuery String_ supporting qc
  = Ok ((renderQuery String_ (AQLQuery qc),
         mkSupporting (renderMeasure String_ <$> SupportingMeasures supporting)
           (renderDimension String_ <$> SupportingDimensions supporting)),
        withAQLQuery (renderQuery String_ (AQLQuery qc)) qc).
Proof. done. Qed.

(** X24: asking for the rewritten query changes the query of the context into
    the query it returns, and asking again changes nothing more: the second
    answer is the first. *)
Theorem GetRewrittenQuery_idempotent (String_ : expr.Expr -> string)
    (supporting : Supporting) (qc : QueryContext) :
  exists q supporting' qc',
    GetRewrittenQuery String_ supporting qc = Ok ((q, supporting'), qc')
    /\ AQLQuery qc' = q
    /\ GetRewrittenQuery String_ supporting' qc' = Ok ((q, supporting'), qc').
Proof.
  do 3 eexists. split; [apply GetRewrittenQuery_run |]. split; [reflexivity |].
  rewrite GetRewrittenQuery_run.
  cbn [AQLQuery withAQLQuery SupportingMeasures SupportingDimensions].
  rewrite renderQuery_idem. do 3 f_equal.
  - f_equal.
    + rewrite <- list_fmap_compose. apply list_fmap_ext. intros _ measure _.
      apply renderMeasure_idem.
    + rewrite <- list_fmap_compose. apply list_fmap_ext. intros _ dim _.
      apply renderDimension_idem.
Qed.

Lemma renderTexts_nil String_ texts : forall parsed,
  Forall (fun e => e = expr.Nil) parsed -> renderTexts String_ texts parsed = texts.
Proof.
  induction texts as [| text rest IH]; intros [| e parsed] Hall; try done.
  apply Forall_cons in Hall as [-> Hall]. cbn. by rewrite IH.
Qed.

Lemma list_fmap_id_ext {A} (f : A -> A) (l : list A) :
  Forall (fun a => f a = a) l -> f <$> l = l.
Proof. induction 1 as [| a l Ha _ IH]; [done |]. cbn. by rewrite Ha, IH. Qed.

(** X25: the rewritten query keeps every parsed slot, the table, the limit and
    the number of joins, dimensions, measures and filter texts, also when
    the normaliser left more parsed filters than there are texts; and a
    query that was not compiled is given back as it is. *)
Theorem GetRewrittenQuery_frame (String_ : expr.Expr -> string)
    (supporting : Supporting) (qc : QueryContext) :
  exists q supporting' qc',
    GetRewrittenQuery String_ supporting qc = Ok ((q, supporting'), qc')
    /\ common.Table q = common.Table (AQLQuery qc)
    /\ common.Limit q = common.Limit (AQLQuery qc)
    /\ common.QueryFiltersParsed q = common.QueryFiltersParsed (AQLQuery qc)
    /\ length (common.QueryFilters q) = length (common.QueryFilters (AQLQuery qc))
    /\ common.ConditionsParsed <$> common.Joins q
       = common.ConditionsParsed <$> common.Joins (AQLQuery qc)
    /\ common.DimExprParsed <$> common.Dimensions q
       = common.DimExprParsed <$> common.Dimensions (AQLQuery qc)
    /\ common.ExprParsed <$> common.Measures q
       = common.ExprParsed <$> common.Measures (AQLQuery qc)
    /\ (unparsed (AQLQuery qc) -> q = AQLQuery qc).
Proof.
  do 3 eexists. split; [apply GetRewrittenQuery_run |]. cbn.
  rewrite renderTexts_length. repeat split.
  - rewrite <- list_fmap_compose. by apply list_fmap_ext.
  - rewrite <- list_fmap_compose. apply list_fmap_ext. intros _ dim _. cbn.
    unfold renderDimension. by destruct (isNil _).
  - rewrite <- list_fmap_compose. apply list_fmap_ext. intros _ measure _. cbn.
    unfold renderMeasure. by destruct (isNil _).
  - intros (Hjoins & Hdims & Hmeasures & Hfilters). unfold renderQuery.
    rewrite (renderTexts_nil _ _ _ Hfilters).
    rewrite (list_fmap_id_ext (renderJoin String_)).
    2: { eapply Forall_impl; [exact Hjoins |]. intros join Hjoin. unfold renderJoin.
         rewrite (renderTexts_nil _ _ _ Hjoin). by destruct join. }
    rewrite (list_fmap_id_ext (renderDimension String_)).
    2: { eapply Forall_impl; [exact Hdims |]. intros dim Hdim. unfold renderDimension.
         by rewrite Hdim. }
    rewrite (list_fmap_id_ext (renderMeasure String_)).
    2: { eapply Forall_impl; [exact Hmeasures |]. intros measure Hm.
         unfold renderMeasure. by rewrite Hm. }
    by destruct (AQLQuery qc).
Qed.
